(** * File organiser: planning, execution, grouping and label cleaning

    A shallow embedding of [src/content_classifier.py] and of the planner,
    the executor and the reader of streamed text of
    [src/data_processing.py], followed by the properties proved about
    them.

    Conventions.
    - A Python [str] is a list of Unicode code points ([N]); ASCII
      literals are written with [u].
    - [os.path] is [posixpath] (separator [/]).
    - The operating system is an interface ([OS]): the results hold for
      whatever the primitives answer.  [SimFS] is a small concrete
      filesystem used to run the code on examples.
    - Library functions that are tables or numeric heuristics
      ([str.lower], [difflib.SequenceMatcher.ratio]) are section
      variables. *)

From Stdlib Require Import List NArith QArith Bool String Ascii Lia.
From Stdlib Require Import DecimalNat DecimalString Permutation Finite.
From stdpp Require Import base option list gmap sets.

Local Open Scope list_scope.
Local Open Scope N_scope.

(* ===================================================================== *)
(** * Part I: the embedding                                               *)
(* ===================================================================== *)

(** ** Python strings *)

Abbreviation str := (list N).

(** An ASCII literal as a [str]. *)
Definition u (s : string) : str := map N_of_ascii (list_ascii_of_string s).

(** [str(n)] for a non-negative [int]. *)
Definition str_of_nat (n : nat) : str := u (NilEmpty.string_of_uint (Nat.to_uint n)).

(** [c.isspace()], which is also what [\s] matches in a [str] pattern. *)
Definition isspace (c : N) : bool :=
  ((0x09 <=? c) && (c <=? 0x0D)) || ((0x1C <=? c) && (c <=? 0x20))
  || (c =? 0x85) || (c =? 0xA0) || (c =? 0x1680)
  || ((0x2000 <=? c) && (c <=? 0x200A))
  || (c =? 0x2028) || (c =? 0x2029) || (c =? 0x202F) || (c =? 0x205F)
  || (c =? 0x3000).

Fixpoint lstrip (s : str) : str :=
  match s with
  | c :: s' => if isspace c then lstrip s' else s
  | [] => []
  end.

Definition rstrip (s : str) : str := rev (lstrip (rev s)).

(** [s.strip()] *)
Definition strip (s : str) : str := lstrip (rstrip s).

Definition newline : N := 0x0A.

(** [s.split(NL)[0]], the text before the first newline. *)
Fixpoint first_line (s : str) : str :=
  match s with
  | c :: s' => if c =? newline then [] else c :: first_line s'
  | [] => []
  end.

(** [Some rest] when [s = lit + rest]. *)
Fixpoint strip_lit (lit s : str) : option str :=
  match lit, s with
  | [], _ => Some s
  | a :: lit', c :: s' => if a =? c then strip_lit lit' s' else None
  | _ :: _, [] => None
  end.

(** [re.sub] of a character class by the empty string: every occurrence
    is removed.  The class is given as a predicate. *)
Definition remove_class (cls : N -> bool) (s : str) : str :=
  List.filter (fun c => negb (cls c)) s.

(** ** posixpath *)

Definition sep : N := 0x2F.
Definition extsep : N := 0x2E.

(** [p.rfind(c) + 1]: the index after the last [c], 0 when there is none. *)
Fixpoint after_last (c : N) (p : str) : nat :=
  match p with
  | [] => 0%nat
  | x :: p' =>
      match after_last c p' with
      | O => if x =? c then 1%nat else 0%nat
      | S k => S (S k)
      end
  end.

Definition basename (p : str) : str := drop (after_last sep p) p.

Fixpoint rstrip_sep (s : str) : str :=
  match s with
  | [] => []
  | c :: s' =>
      match rstrip_sep s' with
      | [] => if c =? sep then [] else [c]
      | r => c :: r
      end
  end.

Definition dirname (p : str) : str :=
  let head := take (after_last sep p) p in
  if forallb (N.eqb sep) head then head else rstrip_sep head.

(** [os.path.join(a, b)]: [b] alone when it starts with the separator,
    else [a + b] when [a] is empty or ends with the separator, else
    [a + sep + b]. *)
Definition join (a b : str) : str :=
  if bool_decide (head b = Some sep) then b
  else if bool_decide (a = []) || bool_decide (last a = Some sep) then a ++ b
  else a ++ sep :: b.

(** [genericpath._splitext]: the extension starts at the last dot of the
    last component, unless only dots precede it there. *)
Definition splitext (p : str) : str * str :=
  let sepIndex := after_last sep p in
  let dotIndex := after_last extsep p in
  if (sepIndex <? dotIndex)%nat
     && negb (forallb (N.eqb extsep) (drop sepIndex (take (dotIndex - 1) p)))
  then (take (dotIndex - 1) p, drop (dotIndex - 1) p)
  else (p, []).

(** ** content_classifier.group_similar_filenames *)

Section Grouper.

(** [difflib.SequenceMatcher(None, a, b).ratio()] *)
Variable ratio : str -> str -> Q.

Variable threshold : Q.

(** The inner [for j in range(i + 1, len(filenames))], over the list [js]
    of the indices still to visit.  The indices are below the common length
    of the three lists, so every lookup succeeds. *)
Fixpoint scan_candidates (file_paths filenames : list str) (fname : str)
    (js : list nat) (group : list str) (assigned : list bool)
    : list str * list bool :=
  match js with
  | [] => (group, assigned)
  | j :: js' =>
      match assigned !! j, filenames !! j, file_paths !! j with
      | Some false, Some fj, Some pj =>
          if Qle_bool threshold (ratio fname fj)
          then scan_candidates file_paths filenames fname js'
                 (group ++ [pj]) (<[j := true]> assigned)
          else scan_candidates file_paths filenames fname js' group assigned
      | _, _, _ => scan_candidates file_paths filenames fname js' group assigned
      end
  end.

(** The outer [for i, fname in enumerate(filenames)], over the indices
    [is_] still to visit. *)
Fixpoint scan_seeds (file_paths filenames : list str) (is_ : list nat)
    (groups : list (list str)) (assigned : list bool) : list (list str) :=
  match is_ with
  | [] => groups
  | i :: is' =>
      match assigned !! i, filenames !! i, file_paths !! i with
      | Some false, Some fname, Some pi =>
          let n := length filenames in
          let '(group, assigned') :=
            scan_candidates file_paths filenames fname
              (seq (i + 1) (n - (i + 1))) [pi] (<[i := true]> assigned) in
          scan_seeds file_paths filenames is' (groups ++ [group]) assigned'
      | _, _, _ => scan_seeds file_paths filenames is' groups assigned
      end
  end.

Definition group_similar_filenames (file_paths : list str) : list (list str) :=
  let filenames := map basename file_paths in
  scan_seeds file_paths filenames (seq 0 (length filenames)) []
    (replicate (length filenames) false).

End Grouper.

(** ** content_classifier.clean_category *)

Definition colon (c : N) : bool := (c =? 0x3A) || (c =? 0xFF1A).

(** [re.sub] of the pattern [^<lit>[:：]?\s*] by the empty string: without
    [re.MULTILINE] the anchor only matches at index 0, so at most one
    match is replaced. *)
Definition strip_marker (lit line : str) : str :=
  match strip_lit lit line with
  | Some (c :: rest) => if colon c then lstrip rest else lstrip (c :: rest)
  | Some [] => []
  | None => line
  end.

(** The lazy [.*?] followed by [.docx], a double quote and [\s*], after
    the two leading code points: the first position where [.docx] and the
    quote start, skipping characters other than the newline. *)
Fixpoint through_docx (s : str) : option str :=
  match strip_lit (u ".docx") s with
  | Some (q :: rest) =>
      if q =? 0x22 then Some (lstrip rest)
      else match s with
           | c :: s' => if c =? newline then None else through_docx s'
           | [] => None
           end
  | _ =>
      match s with
      | c :: s' => if c =? newline then None else through_docx s'
      | [] => None
      end
  end.

(** The third substitution.  Its pattern is a raw string, so the two
    backslash-u escapes reach [re], which reads them as the code points
    U+D83D and U+DCC2 (the halves of a surrogate pair), not as U+1F4C2. *)
Definition strip_folder_glyph (line : str) : str :=
  match strip_lit [0xD83D; 0xDCC2] line with
  | Some rest => match through_docx rest with
                 | Some r => r
                 | None => line
                 end
  | None => line
  end.

Definition quote_char (c : N) : bool :=
  (c =? 0x22) || (c =? 0x201C) || (c =? 0x201D) || (c =? 0x2018) || (c =? 0x2019).

(** backslash, slash, colon, star, question mark, double quote, the two
    angle brackets and the bar *)
Definition reserved_char (c : N) : bool :=
  (c =? 0x5C) || (c =? 0x2F) || (c =? 0x3A) || (c =? 0x2A) || (c =? 0x3F)
  || (c =? 0x22) || (c =? 0x3C) || (c =? 0x3E) || (c =? 0x7C).

(** [가-힣] *)
Definition hangul (c : N) : bool := (0xAC00 <=? c) && (c <=? 0xD7A3).

Definition has_hangul (s : str) : bool := existsb hangul s.

Definition s_dapbyeon : str := [0xB2F5; 0xBCC0].
Definition s_dabeul_imnyeok : str :=
  [0xB2F5; 0xC744; 0x20; 0xC785; 0xB825; 0xD558; 0xC138; 0xC694].
Definition s_pail_ireum : str := [0xD30C; 0xC77C; 0x20; 0xC774; 0xB984].
Definition s_chullyeok : str := [0xCD9C; 0xB825].
Definition s_yesi_chullyeok : str := [0xC608; 0xC2DC; 0x20; 0xCD9C; 0xB825].

Definition s_gita : str := [0xAE30; 0xD0C0].
Definition s_al_su_eopseum : str := [0xC54C; 0x20; 0xC218; 0x20; 0xC5C6; 0xC74C].
Definition s_moreum : str := [0xBAA8; 0xB984].

(** The list the lowercased line is looked up in: 기타, 알 수 없음, 모름
    and unknown. *)
Definition banned : list str := [s_gita; s_al_su_eopseum; s_moreum; u "unknown"].

(** Lines 28 to 36: the text the two tests look at. *)
Definition cleaned_line (raw_text : str) : str :=
  let line := first_line (strip raw_text) in
  let line := strip_marker s_dapbyeon line in
  let line := strip_marker s_dabeul_imnyeok line in
  let line := strip_folder_glyph line in
  let line := strip_marker s_pail_ireum line in
  let line := strip_marker s_chullyeok line in
  let line := strip_marker s_yesi_chullyeok line in
  let line := remove_class quote_char line in
  remove_class reserved_char line.

Section Classifier.

(** [str.lower] goes through the string once and replaces each code point
    by its lowercase mapping, one to three code points long; the capital
    sigma is the one code point whose mapping depends on where it stands.
    The mapping table and the test for a final sigma are parameters. *)
Variable to_lower_full : N -> str.
Variable final_sigma : str -> nat -> bool.

Definition lower_at (s : str) (i : nat) (c : N) : str :=
  if c =? 0x3A3 then [if final_sigma s i then 0x3C2 else 0x3C3]
  else to_lower_full c.

Definition lower (s : str) : str := concat (imap (lower_at s) s).

Definition clean_category (raw_text : str) : option str :=
  let line := cleaned_line raw_text in
  if negb (has_hangul line) then None
  else if bool_decide (line = [])
          || bool_decide (lower line ∈ banned)
          || (length (strip line) <? 2)%nat
  then None
  else Some (strip line).

End Classifier.

(** The lowercase mapping of ASCII, every other code point left as it is:
    a table to run [clean_category] with. *)
Definition ascii_to_lower (c : N) : str :=
  if (0x41 <=? c) && (c <=? 0x5A) then [c + 32] else [c].

(** *** Vocabulary of the statements about [clean_category] *)

(** Code points without case that the looked-up words are made of. *)
Definition caseless (c : N) : bool := hangul c || (c =? 0x20).

(** No white space at either end. *)
Definition trimmed (s : str) : Prop :=
  (forall c, head s = Some c -> isspace c = false)
  /\ (forall c, last s = Some c -> isspace c = false).

(** A label with nothing for [clean_category] to take away: one line, no
    white space around it, none of the leading markers, no quotation mark
    and no reserved character. *)
Definition clean_label (s : str) : bool :=
  bool_decide (strip s = s)
  && forallb (fun c => negb (c =? newline)) s
  && forallb (fun lit => bool_decide (strip_lit lit s = None))
       [s_dapbyeon; s_dabeul_imnyeok; [0xD83D; 0xDCC2]; s_pail_ireum;
        s_chullyeok; s_yesi_chullyeok]
  && forallb (fun c => negb (quote_char c) && negb (reserved_char c)) s.

(** ** Exceptions, outcomes and the state monad of the two procedures *)

(** The exceptions the code can meet; all three are subclasses of
    [Exception].  Each carries the text of [str(e)]. *)
Inductive exn :=
| KeyError (key : str)
| TypeError (msg : str)
| OSError (msg : str).

Definition exn_str (e : exn) : str :=
  match e with
  | KeyError key => u "'" ++ key ++ u "'"
  | TypeError msg => msg
  | OSError msg => msg
  end.

(** How a run ends: a value, an exception that escapes, or a loop that
    used up the iterations it was given. *)
Inductive outcome (A : Type) :=
| Ok (a : A)
| Raise (e : exn)
| Diverge.
Arguments Ok {A} a.
Arguments Raise {A} e.
Arguments Diverge {A}.

Definition M (S A : Type) : Type := S -> outcome A * S.

Definition ret {S A} (a : A) : M S A := fun s => (Ok a, s).

Definition bind {S A B} (m : M S A) (k : A -> M S B) : M S B :=
  fun s =>
    match m s with
    | (Ok a, s') => k a s'
    | (Raise e, s') => (Raise e, s')
    | (Diverge, s') => (Diverge, s')
    end.

Definition raise {S A} (e : exn) : M S A := fun s => (Raise e, s).

Definition diverge {S A} : M S A := fun s => (Diverge, s).

(** [try: m  except Exception as e: h e] *)
Definition try_except {S A} (m : M S A) (h : exn -> M S A) : M S A :=
  fun s =>
    match m s with
    | (Raise e, s') => h e s'
    | r => r
    end.

Declare Scope py_scope.
Delimit Scope py_scope with py.
Notation "x <- m ;; k" := (bind m (fun x => k))
  (at level 100, m at next level, right associativity) : py_scope.
Notation "m ;;; k" := (bind m (fun _ => k))
  (at level 100, right associativity) : py_scope.
Local Open Scope py_scope.

(** [for x in xs: body x], with the loop variables in [acc]. *)
Fixpoint for_each {S A X} (xs : list X) (body : A -> X -> M S A) (acc : A)
    : M S A :=
  match xs with
  | [] => ret acc
  | x :: xs' => acc' <- body acc x ;; for_each xs' body acc'
  end.

(** ** The operating system *)

(** The primitives of [os] and [os.path] the code calls, over a type of
    filesystems.  A failing call answers with the exception it raises;
    [os.path.exists] and [os.path.isdir] never raise. *)
Class OS (FS : Type) := {
  os_path_exists : FS -> str -> bool;
  os_path_isdir : FS -> str -> bool;
  (** [os.stat(p).st_dev] *)
  os_stat_dev : FS -> str -> exn + N;
  (** [os.makedirs(p, exist_ok=True)] *)
  os_makedirs : FS -> str -> FS * option exn;
  os_link : FS -> str -> str -> FS * option exn;
  os_symlink : FS -> str -> str -> FS * option exn;
  (** [with open(f, 'a') as h: h.write(text)] *)
  os_append : FS -> str -> str -> FS * option exn;
  (** [print(text)] *)
  os_print : FS -> str -> FS * option exn
}.

(** The calls that act on the world, each with the way it ended. *)
Inductive event :=
| EvMakedirs (p : str) (r : option exn)
| EvLink (src dst : str) (r : option exn)
| EvSymlink (src dst : str) (r : option exn)
| EvAppend (f text : str) (r : option exn)
| EvPrint (text : str) (r : option exn).

(** The world: the filesystem and the calls made so far, oldest first. *)
Record world (FS : Type) := World { fs : FS; trace : list event }.
Arguments World {FS} fs trace.
Arguments fs {FS} w.
Arguments trace {FS} w.

Definition of_result {A} (r : option exn) (a : A) : outcome A :=
  match r with
  | None => Ok a
  | Some e => Raise e
  end.

Section Primitives.
Context {FS : Type} `{OS FS}.

Definition makedirs (p : str) : M (world FS) unit :=
  fun w => let '(fs', r) := os_makedirs (fs w) p in
           (of_result r tt, World fs' (trace w ++ [EvMakedirs p r])).

Definition link (src dst : str) : M (world FS) unit :=
  fun w => let '(fs', r) := os_link (fs w) src dst in
           (of_result r tt, World fs' (trace w ++ [EvLink src dst r])).

Definition symlink (src dst : str) : M (world FS) unit :=
  fun w => let '(fs', r) := os_symlink (fs w) src dst in
           (of_result r tt, World fs' (trace w ++ [EvSymlink src dst r])).

Definition append_file (f text : str) : M (world FS) unit :=
  fun w => let '(fs', r) := os_append (fs w) f text in
           (of_result r tt, World fs' (trace w ++ [EvAppend f text r])).

Definition print (text : str) : M (world FS) unit :=
  fun w => let '(fs', r) := os_print (fs w) text in
           (of_result r tt, World fs' (trace w ++ [EvPrint text r])).

Definition path_exists (p : str) : M (world FS) bool :=
  fun w => (Ok (os_path_exists (fs w) p), w).

Definition path_isdir (p : str) : M (world FS) bool :=
  fun w => (Ok (os_path_isdir (fs w) p), w).

Definition stat_dev (p : str) : M (world FS) N :=
  fun w => (match os_stat_dev (fs w) p with
            | inl e => Raise e
            | inr d => Ok d
            end, w).

End Primitives.

(** ** The data model of data_processing *)

Inductive LinkType := Hardlink | Symlink.

Definition link_type_str (t : LinkType) : str :=
  match t with
  | Hardlink => u "hardlink"
  | Symlink => u "symlink"
  end.

(** The dictionary [compute_operations] builds. *)
Record Operation := {
  source : str;
  destination : str;
  link_type : LinkType;
  folder_name : str;
  new_file_name : str
}.

(** A value looked up in a record: the key may be missing, or hold [None]
    or a string. *)
Inductive field := Absent | PyNone | PyStr (s : str).

(** The dictionary a metadata generator returns; [description] is not
    read by the planner. *)
Record FileRecord := {
  file_path : str;
  foldername : field;
  filename : field
}.

(** The two sets the caller owns and the planner updates in place. *)
Record PlanningState := {
  renamed_files : gset str;
  processed_files : gset str
}.

(** ** data_processing.compute_operations *)

Section Planner.
Context {FS : Type} `{OS FS}.

(** The planner runs on the two sets and the world. *)
Abbreviation plan_state := (PlanningState * world FS)%type.

Definition in_world {A} (m : M (world FS) A) : M plan_state A :=
  fun s => let '(r, w') := m (snd s) in (r, (fst s, w')).

(** [file_path in processed_files] *)
Definition is_processed (p : str) : M plan_state bool :=
  fun s => (Ok (bool_decide (p ∈ processed_files (fst s))), s).

(** [processed_files.add(file_path)] *)
Definition mark_processed (p : str) : M plan_state unit :=
  fun s => (Ok tt, ({| renamed_files := renamed_files (fst s);
                       processed_files := {[p]} ∪ processed_files (fst s) |},
                    snd s)).

(** [new_file_path in renamed_files] *)
Definition is_renamed (p : str) : M plan_state bool :=
  fun s => (Ok (bool_decide (p ∈ renamed_files (fst s))), s).

(** [renamed_files.add(new_file_path)] *)
Definition mark_renamed (p : str) : M plan_state unit :=
  fun s => (Ok tt, ({| renamed_files := {[p]} ∪ renamed_files (fst s);
                       processed_files := processed_files (fst s) |},
                    snd s)).

(** [data[key]]: [KeyError] when the key is missing. *)
Definition get_item (key : str) (f : field) : M plan_state (option str) :=
  match f with
  | Absent => raise (KeyError key)
  | PyNone => ret None
  | PyStr s => ret (Some s)
  end.

(** The left operand of [data['filename'] + ext]. *)
Definition add_operand (v : option str) : M plan_state str :=
  match v with
  | Some s => ret s
  | None =>
      raise (TypeError (u "unsupported operand type(s) for +: 'NoneType' and 'str'"))
  end.

(** The second argument of [os.path.join(new_path, folder_name)]. *)
Definition join_operand (v : option str) : M plan_state str :=
  match v with
  | Some s => ret s
  | None =>
      raise (TypeError
        (u "join() argument must be str, bytes, or os.PathLike object, not 'NoneType'"))
  end.

(** The name tried at [counter]: [f"{data['filename']}_{counter}" + ext]. *)
Definition numbered_name (fname ext : str) (counter : nat) : str :=
  fname ++ u "_" ++ str_of_nat counter ++ ext.

(** The [while] of lines 333 to 336, given [fuel] iterations. *)
Fixpoint handle_duplicates (fuel : nat) (fname ext dir_path : str)
    (counter : nat) (new_file_name new_file_path : str)
    : M plan_state (str * str) :=
  renamed <- is_renamed new_file_path ;;
  present <- in_world (path_exists new_file_path) ;;
  if renamed || present then
    match fuel with
    | O => diverge
    | S fuel' =>
        let new_file_name := numbered_name fname ext counter in
        let new_file_path := join dir_path new_file_name in
        handle_duplicates fuel' fname ext dir_path (S counter)
          new_file_name new_file_path
    end
  else ret (new_file_name, new_file_path).

(** Lines 339 to 347. *)
Definition choose_link_type (file_path new_file_path : str)
    : M plan_state LinkType :=
  isdir <- in_world (path_isdir file_path) ;;
  if isdir then ret Symlink
  else
    source_dev <- in_world (stat_dev file_path) ;;
    dest_dev <- in_world (stat_dev (dirname new_file_path)) ;;
    if source_dev =? dest_dev then ret Hardlink else ret Symlink.

(** The body of the [for] loop; [operations] is the list built so far. *)
Definition plan_record (fuel : nat) (new_path : str)
    (operations : list Operation) (data : FileRecord)
    : M plan_state (list Operation) :=
  let file_path := file_path data in
  seen <- is_processed file_path ;;
  if seen then ret operations
  else
    mark_processed file_path ;;;
    folder_value <- get_item (u "foldername") (foldername data) ;;
    file_value <- get_item (u "filename") (filename data) ;;
    let ext := snd (splitext file_path) in
    fname <- add_operand file_value ;;
    let new_file_name := fname ++ ext in
    folder_name <- join_operand folder_value ;;
    let dir_path := join new_path folder_name in
    let new_file_path := join dir_path new_file_name in
    in_world (makedirs dir_path) ;;;
    free <-
      handle_duplicates fuel fname ext dir_path 1 new_file_name new_file_path ;;
    let '(new_file_name, new_file_path) := free in
    link_type <- choose_link_type file_path new_file_path ;;
    let operation := {| source := file_path;
                        destination := new_file_path;
                        link_type := link_type;
                        folder_name := folder_name;
                        new_file_name := new_file_name |} in
    mark_renamed new_file_path ;;;
    ret (operations ++ [operation]).

Definition compute_operations (fuel : nat) (data_list : list FileRecord)
    (new_path : str) : M plan_state (list Operation) :=
  for_each data_list (plan_record fuel new_path) [].

End Planner.

(** ** data_processing.execute_operations *)

Definition dry_run_message (op : Operation) : str :=
  u "Dry run: would create " ++ link_type_str (link_type op) ++ u " from '"
  ++ source op ++ u "' to '" ++ destination op ++ u "'".

Definition created_message (op : Operation) : str :=
  u "Created " ++ link_type_str (link_type op) ++ u " from '"
  ++ source op ++ u "' to '" ++ destination op ++ u "'".

Definition error_message (op : Operation) (e : exn) : str :=
  u "Error creating " ++ link_type_str (link_type op) ++ u " from '"
  ++ source op ++ u "' to '" ++ destination op ++ u "': " ++ exn_str e.

Section Executor.
Context {FS : Type} `{OS FS}.

(** Lines 377 to 380. *)
Definition create_link (op : Operation) : M (world FS) unit :=
  match link_type op with
  | Hardlink => link (source op) (destination op)
  | Symlink => symlink (source op) (destination op)
  end.

(** Lines 386 to 391; [log_file] is [None] or a string, and the empty
    string is as false as [None]. *)
Definition report (silent : bool) (log_file : option str) (message : str)
    : M (world FS) unit :=
  if silent then
    match log_file with
    | Some (c :: f) => append_file (c :: f) (message ++ [newline])
    | _ => ret tt
    end
  else print message.

(** The body of the [for] loop. *)
Definition execute_one (dry_run silent : bool) (log_file : option str)
    (_ : unit) (operation : Operation) : M (world FS) unit :=
  let dir_path := dirname (destination operation) in
  makedirs dir_path ;;;
  message <-
    (if dry_run then ret (dry_run_message operation)
     else try_except
            (create_link operation ;;; ret (created_message operation))
            (fun e => ret (error_message operation e))) ;;
  report silent log_file message.

Definition execute_operations (operations : list Operation)
    (dry_run silent : bool) (log_file : option str) : M (world FS) unit :=
  for_each operations (execute_one dry_run silent log_file) tt.

End Executor.

(** ** content_classifier.classify_by_filename_grouped *)

(** The threshold of line 48, 0.8, as the double it is. *)
Definition threshold_grouped : Q := 3602879701896397 # 4503599627370496.

(** The text of the prompt before the list of names: a newline, the line
    that announces the list, a newline. *)
Definition prompt_head : str :=
  [0xA; 0xB2E4; 0xC74C; 0xC740; 0x20; 0xC720; 0xC0AC; 0xD55C; 0x20; 0xD30C;
   0xC77C; 0x20; 0xC774; 0xB984; 0xB4E4; 0xC758; 0x20; 0xBAA9; 0xB85D;
   0xC785; 0xB2C8; 0xB2E4; 0x3A; 0xA].

(** The text after the list: an empty line, the request for a short
    Korean folder name, the four conditions. *)
Definition prompt_tail : str :=
  [0xA; 0xA; 0xC774; 0x20; 0xD30C; 0xC77C; 0xB4E4; 0xC758; 0x20; 0xACF5;
   0xD1B5; 0x20; 0xC8FC; 0xC81C; 0xB97C; 0x20; 0xB300; 0xD45C; 0xD558;
   0xB294; 0x20; 0x2A; 0x2A; 0xC9E7; 0xACE0; 0x20; 0xBA85; 0xD655; 0xD55C;
   0x20; 0xD55C; 0xAD6D; 0xC5B4; 0x20; 0xD3F4; 0xB354; 0xBA85; 0x2A; 0x2A;
   0xC744; 0x20; 0xD55C; 0x20; 0xC904; 0xB85C; 0x20; 0xCD9C; 0xB825; 0xD558;
   0xC138; 0xC694; 0x2E; 0xA; 0xA; 0xC870; 0xAC74; 0x3A; 0xA; 0x2D; 0x20;
   0xBC18; 0xB4DC; 0xC2DC; 0x20; 0x2A; 0x2A; 0xC758; 0xBBF8; 0x20; 0xC788;
   0xB294; 0x20; 0xD55C; 0xAD6D; 0xC5B4; 0x20; 0xBA85; 0xC0AC; 0x2A; 0x2A;
   0xC5EC; 0xC57C; 0x20; 0xD558; 0xBA70; 0x2C; 0x20; 0xCD5C; 0xB300; 0x20;
   0x36; 0xAE00; 0xC790; 0x20; 0xC774; 0xB0B4; 0xB85C; 0x20; 0xC694; 0xC57D;
   0xD558; 0xC138; 0xC694; 0x2E; 0xA; 0x2D; 0x20; 0xC124; 0xBA85; 0xD558;
   0xC9C0; 0x20; 0xB9C8; 0xC138; 0xC694; 0x2E; 0x20; 0xC608; 0xC2DC; 0xB294;
   0x20; 0xAE08; 0xC9C0; 0x2E; 0xA; 0x2D; 0x20; 0x22; 0xAE30; 0xD0C0; 0x22;
   0x2C; 0x20; 0x22; 0xBAA8; 0xB984; 0x22; 0x2C; 0x20; 0x22; 0xCD9C; 0xB825;
   0x22; 0x20; 0xAC19; 0xC740; 0x20; 0xC77C; 0xBC18; 0x20; 0xB2E8; 0xC5B4;
   0xB294; 0x20; 0xC0AC; 0xC6A9; 0xD558; 0xC9C0; 0x20; 0xB9C8; 0xC138;
   0xC694; 0x2E; 0xA; 0x2D; 0x20; 0xCD9C; 0xB825; 0xC740; 0x20; 0xC624;
   0xC9C1; 0x20; 0x2A; 0x2A; 0xD55C; 0x20; 0xC904; 0x2A; 0x2A; 0x2C; 0x20;
   0xD3F4; 0xB354; 0xBA85; 0xB9CC; 0x21; 0xA].

(** The start of the message of line 71. *)
Definition s_llm_failed : str :=
  [0x274C; 0x20; 0xC624; 0xB958; 0x20; 0x28; 0x4C; 0x4C; 0x4D; 0x20; 0xC751;
   0xB2F5; 0x20; 0xC2E4; 0xD328; 0x29; 0x3A; 0x20].

(** The tag in square brackets that starts the lines of lines 82 and 84. *)
Definition s_group_tag : str :=
  [0x5B; 0xD30C; 0xC77C; 0xBA85; 0x20; 0xADF8; 0xB8F9; 0x20; 0xBD84; 0xB958;
   0x5D; 0x20].

(** What stands for the label of a group without one, in the log file
    and on the screen. *)
Definition s_failed_log : str :=
  [0xBD84; 0xB958; 0x20; 0xC2E4; 0xD328].

Definition s_failed_print : str :=
  [0x274C; 0x20; 0xC2E4; 0xD328].

Definition s_arrow : str := [0x20; 0x2192; 0x20].

(** [chr(10).join(lines)] *)
Fixpoint join_lines (lines : list str) : str :=
  match lines with
  | [] => []
  | l :: rest =>
      match rest with
      | [] => l
      | _ :: _ => l ++ newline :: join_lines rest
      end
  end.

(** The prompt of lines 53 to 64 for the names of a group. *)
Definition group_prompt (filenames : list str) : str :=
  prompt_head
  ++ join_lines (map (fun name => u "- " ++ name) filenames)
  ++ prompt_tail.

(** [category if category else fallback] *)
Definition label_or (fallback : str) (category : option str) : str :=
  match category with
  | Some (c :: s) => c :: s
  | _ => fallback
  end.

(** The line of line 82. *)
Definition log_line (path : str) (category : option str) : str :=
  s_group_tag ++ basename path ++ u " -> " ++ label_or s_failed_log category
  ++ [newline].

(** The line of line 84. *)
Definition print_line (path : str) (category : option str) : str :=
  s_group_tag ++ basename path ++ s_arrow ++ label_or s_failed_print category.

(** The value stored under [foldername]: the label or [None]. *)
Definition as_field (category : option str) : field :=
  match category with
  | Some label => PyStr label
  | None => PyNone
  end.

(** The dictionary of lines 75 to 78; it has no [filename]. *)
Definition path_record (category : option str) (path : str) : FileRecord :=
  {| file_path := path; foldername := as_field category; filename := Absent |}.

(** The language model, over a type of its states.  A call of lines 66
    and 67, [model.create_completion(prompt)] and the look-ups [choices],
    [0] and [text] in what it returns, comes back to the function or does
    not ([llm_returns]).  When it comes back, [llm_text] is what it comes
    back with: the text when all of it goes through and the text is a
    string, the exception otherwise, which is then of class [Exception]
    and is seen through [str(e)] alone.  It does not come back when the
    model hangs, or when the call is ended by an exception that is not of
    class [Exception], [KeyboardInterrupt] or [SystemExit], which line 69
    does not catch. *)
Class LLM (MS : Type) := {
  llm_text : MS -> str -> MS * (exn + str);
  llm_returns : MS -> str -> bool
}.

(** What the classifier runs on: the model, the prompts it was given so
    far, oldest first, and the world. *)
Record session (MS FS : Type) := Session {
  model_state : MS;
  prompts : list str;
  outside : world FS
}.
Arguments Session {MS FS} model_state prompts outside.
Arguments model_state {MS FS} s.
Arguments prompts {MS FS} s.
Arguments outside {MS FS} s.

Section Grouped.
Context {MS FS : Type} `{LLM MS} `{OS FS}.
Variable ratio : str -> str -> Q.
Variable to_lower_full : N -> str.
Variable final_sigma : str -> nat -> bool.

Definition on_world {A} (m : M (world FS) A) : M (session MS FS) A :=
  fun s => let '(r, w') := m (outside s) in
           (r, Session (model_state s) (prompts s) w').

(** Lines 66 and 67.  A call that does not come back ends the run of
    the function there, and nothing after it is carried out: [Diverge]
    stands for that end, which no [except Exception] sees. *)
Definition first_choice_text (prompt : str) : M (session MS FS) str :=
  fun s => let '(ms', r) := llm_text (model_state s) prompt in
           (if llm_returns (model_state s) prompt then
              match r with
              | inl e => Raise e
              | inr raw_text => Ok raw_text
              end
            else Diverge,
            Session ms' (prompts s ++ [prompt]) (outside s)).

(** Lines 80 to 84. *)
Definition report_path (silent : bool) (log_file : option str)
    (category : option str) (path : str) : M (session MS FS) unit :=
  if silent then
    match log_file with
    | Some (c :: f) => on_world (append_file (c :: f) (log_line path category))
    | _ => ret tt
    end
  else on_world (print (print_line path category)).

(** The body of [for path in group]. *)
Definition record_path (silent : bool) (log_file : option str)
    (category : option str) (results : list FileRecord) (path : str)
    : M (session MS FS) (list FileRecord) :=
  let results := results ++ [path_record category path] in
  report_path silent log_file category path ;;;
  ret results.

(** The body of [for group in grouped_files]. *)
Definition classify_group (silent : bool) (log_file : option str)
    (results : list FileRecord) (group : list str)
    : M (session MS FS) (list FileRecord) :=
  let filenames := map basename group in
  let prompt := group_prompt filenames in
  category <-
    try_except
      (raw_text <- first_choice_text prompt ;;
       ret (clean_category to_lower_full final_sigma raw_text))
      (fun e =>
         (if negb silent then on_world (print (s_llm_failed ++ exn_str e))
          else ret tt) ;;;
         ret None) ;;
  for_each group (record_path silent log_file category) results.

Definition classify_by_filename_grouped (file_paths : list str)
    (silent : bool) (log_file : option str)
    : M (session MS FS) (list FileRecord) :=
  let grouped_files := group_similar_filenames ratio threshold_grouped file_paths in
  for_each grouped_files (classify_group silent log_file) [].

End Grouped.

(** ** data_processing.get_text_from_generator *)

(** A choice of a streamed response, as far as the function reads it:
    the key [delta] may be missing; when it is there, the key [content]
    of that dictionary is missing, or holds [None] or a string. *)
Definition choice : Type := option field.

(** A response: the key [choices] is missing or holds a list. *)
Record response := { choices : option (list choice) }.

(** A generator that yields finitely many responses and then ends, with
    [StopIteration] ([None]) or with another exception. *)
Record generator := {
  responses : list response;
  ending : option exn
}.

(** [for choice in choices], lines 60 to 63. *)
Fixpoint add_contents (cs : list choice) (response_text : str) : exn + str :=
  match cs with
  | [] => inr response_text
  | choice :: rest =>
      match choice with
      | Some (PyStr content) => add_contents rest (response_text ++ content)
      | Some PyNone =>
          inl (TypeError (u "can only concatenate str (not " ++ [0x22] ++ u "NoneType"
                          ++ [0x22] ++ u ") to str"))
      | Some Absent | None => add_contents rest response_text
      end
  end.

(** The [while True] of lines 57 to 63, inside the [try]. *)
Fixpoint drain (rs : list response) (end_ : option exn) (response_text : str)
    : exn + str :=
  match rs with
  | [] =>
      match end_ with
      | None => inr response_text
      | Some e => inl e
      end
  | response :: rest =>
      match add_contents (default [] (choices response)) response_text with
      | inl e => inl e
      | inr response_text' => drain rest end_ response_text'
      end
  end.

Definition get_text_from_generator (g : generator) : exn + str :=
  drain (responses g) (ending g) [].

(** ** A concrete filesystem *)

(** The paths of a small filesystem and what is at each: a regular file, a
    directory or a symbolic link.  Paths are compared as strings (the
    examples use absolute paths without dots), every directory is an entry
    of its own, a new directory is on the device of its parent, and
    [print] always goes through. *)
Module SimFS.

Inductive node :=
| File (dev : N) (content : str)
| Dir (dev : N)
| LinkTo (target : str).

Abbreviation t := (gmap str node).

(** What a path names once links are followed, at most [fuel] of them. *)
Fixpoint resolve (fuel : nat) (m : t) (p : str) : option node :=
  match m !! p with
  | Some (LinkTo target) =>
      match fuel with
      | O => None
      | S fuel' => resolve fuel' m target
      end
  | r => r
  end.

Definition max_links : nat := 40.

Definition path_exists (m : t) (p : str) : bool :=
  match resolve max_links m p with
  | Some _ => true
  | None => false
  end.

Definition path_isdir (m : t) (p : str) : bool :=
  match resolve max_links m p with
  | Some (Dir _) => true
  | _ => false
  end.

Definition enoent : exn := OSError (u "[Errno 2] No such file or directory").
Definition eexist : exn := OSError (u "[Errno 17] File exists").
Definition exdev : exn := OSError (u "[Errno 18] Invalid cross-device link").
Definition enotdir : exn := OSError (u "[Errno 20] Not a directory").
Definition eisdir : exn := OSError (u "[Errno 21] Is a directory").
Definition eperm : exn := OSError (u "[Errno 1] Operation not permitted").

Definition stat_dev (m : t) (p : str) : exn + N :=
  match resolve max_links m p with
  | Some (File d _) => inr d
  | Some (Dir d) => inr d
  | _ => inl enoent
  end.

(** The paths of the directories on the way to [rest], outermost first;
    [seen] is the part of the path already read. *)
Fixpoint ancestors (seen rest : str) : list str :=
  match rest with
  | [] => match last seen with
          | None => []
          | Some c => if c =? sep then [] else [seen]
          end
  | c :: rest' =>
      (if c =? sep
       then match last seen with
            | None => []
            | Some c' => if c' =? sep then [] else [seen]
            end
       else [])
      ++ ancestors (seen ++ [c]) rest'
  end.

(** Create the missing ones of the directories [ps], each inside the one
    before it; [dev] is the device of the directory reached so far. *)
Fixpoint mkdir_each (m : t) (ps : list str) (dev : N) : t * option exn :=
  match ps with
  | [] => (m, None)
  | q :: ps' =>
      match resolve max_links m q with
      | Some (Dir d) => mkdir_each m ps' d
      | Some (File _ _) =>
          (m, Some (match ps' with [] => eexist | _ => enotdir end))
      | Some (LinkTo _) => (m, Some eexist)
      | None =>
          match m !! q with
          | Some _ => (m, Some eexist)
          | None => mkdir_each (<[q := Dir dev]> m) ps' dev
          end
      end
  end.

Definition makedirs (m : t) (p : str) : t * option exn :=
  match p with
  | [] => (m, Some enoent)
  | _ => mkdir_each m (ancestors [] p) 0
  end.

Definition link (m : t) (src dst : str) : t * option exn :=
  match m !! src with
  | None => (m, Some enoent)
  | Some (Dir _) => (m, Some eperm)
  | Some (LinkTo target) =>
      match m !! dst, resolve max_links m (dirname dst) with
      | Some _, _ => (m, Some eexist)
      | None, Some (Dir _) => (<[dst := LinkTo target]> m, None)
      | None, _ => (m, Some enoent)
      end
  | Some (File d content) =>
      match m !! dst, resolve max_links m (dirname dst) with
      | Some _, _ => (m, Some eexist)
      | None, Some (Dir d') =>
          if d =? d' then (<[dst := File d content]> m, None)
          else (m, Some exdev)
      | None, _ => (m, Some enoent)
      end
  end.

Definition symlink (m : t) (src dst : str) : t * option exn :=
  match m !! dst, resolve max_links m (dirname dst) with
  | Some _, _ => (m, Some eexist)
  | None, Some (Dir _) => (<[dst := LinkTo src]> m, None)
  | None, _ => (m, Some enoent)
  end.

Definition append (m : t) (f text : str) : t * option exn :=
  match resolve max_links m f, resolve max_links m (dirname f) with
  | Some (File d content), _ => (<[f := File d (content ++ text)]> m, None)
  | Some (Dir _), _ => (m, Some eisdir)
  | Some (LinkTo _), _ => (m, Some enoent)
  | None, Some (Dir d) =>
      match m !! f with
      | Some _ => (m, Some enoent)
      | None => (<[f := File d text]> m, None)
      end
  | None, _ => (m, Some enoent)
  end.

#[global] Instance os : OS t := {|
  os_path_exists := path_exists;
  os_path_isdir := path_isdir;
  os_stat_dev := stat_dev;
  os_makedirs := makedirs;
  os_link := link;
  os_symlink := symlink;
  os_append := append;
  os_print := fun m _ => (m, None)
|}.

(** A filesystem from the list of its entries. *)
Definition of_list (l : list (str * node)) : t := list_to_map l.

Definition start (l : list (str * node)) : world t := World (of_list l) [].

End SimFS.

(** ** Vocabulary of the statements *)

(** *** Grouping *)

(** The paths whose flag in [assigned] is still [False]. *)
Fixpoint unassigned (file_paths : list str) (assigned : list bool) : list str :=
  match file_paths, assigned with
  | p :: ps, a :: flags =>
      if a then unassigned ps flags else p :: unassigned ps flags
  | _, _ => []
  end.

(** No path is in two of the groups. *)
Definition disjoint_groups (groups : list (list str)) : Prop :=
  forall i j g1 g2 p, groups !! i = Some g1 -> groups !! j = Some g2 ->
                      p ∈ g1 -> p ∈ g2 -> i = j.

Fixpoint common_prefix (a b : str) : nat :=
  match a, b with
  | x :: a', y :: b' => if x =? y then S (common_prefix a' b') else O
  | _, _ => O
  end.

(** A similarity to run the grouping with: twice the length of the common
    prefix over the total length.  It is the value of [ratio] on two
    strings whose only matching block is a common prefix. *)
Definition prefix_ratio (a b : str) : Q :=
  match (length a + length b)%nat with
  | O => 1
  | S n => Qmake (2 * Z.of_nat (common_prefix a b)) (Pos.of_succ_nat n)
  end.

(** *** Label cleaning *)

(** 사진, a label the cleaning keeps. *)
Definition s_sajin : str := [0xC0AC; 0xC9C4].

(** 출력물 and 답변서, two labels of three Hangul syllables that start
    with a word the cleaning takes for a marker. *)
Definition s_chullyeokmul : str := s_chullyeok ++ [0xBB3C].
Definition s_dapbyeonseo : str := s_dapbyeon ++ [0xC11C].

(** The shape of the function [lower] maps over the string: the sigma rule
    at the capital sigma, the table elsewhere. *)
Definition lower_step (to_lower_full : N -> str) (f : nat -> N -> str) : Prop :=
  forall i c,
    (c = 0x3A3 /\ (f i c = [0x3C2] \/ f i c = [0x3C3]))
    \/ (c <> 0x3A3 /\ f i c = to_lower_full c).

(** *** Planning *)

Definition well_formed (data : FileRecord) : bool :=
  match foldername data, filename data with
  | PyStr _, PyStr _ => true
  | _, _ => false
  end.

(** The exception a record with a missing or null field ends the call
    with, read off the order in which the fields are used. *)
Definition field_error (data : FileRecord) : option exn :=
  match foldername data, filename data with
  | Absent, _ => Some (KeyError (u "foldername"))
  | _, Absent => Some (KeyError (u "filename"))
  | _, PyNone =>
      Some (TypeError (u "unsupported operand type(s) for +: 'NoneType' and 'str'"))
  | PyNone, PyStr _ =>
      Some (TypeError
        (u "join() argument must be str, bytes, or os.PathLike object, not 'NoneType'"))
  | PyStr _, PyStr _ => None
  end.

(** The names the planner tries, in order: the plain one, then the
    numbered ones from 1. *)
Definition candidate_name (fname ext : str) (k : nat) : str :=
  match k with
  | O => fname ++ ext
  | S _ => numbered_name fname ext k
  end.

Definition candidate_path (dir_path fname ext : str) (k : nat) : str :=
  join dir_path (candidate_name fname ext k).

(** The same names in the words of the contract, written without the
    code of the planner.  The decimal digits of a number, most significant
    first, are the digits of its tenth, when it has one, and its last
    digit; [fuel] bounds the number of digits. *)
Fixpoint decimal_digits (fuel n : nat) : str :=
  match fuel with
  | O => []
  | S fuel' =>
      (if (n <? 10)%nat then [] else decimal_digits fuel' (n / 10))
      ++ [0x30 + N.of_nat (n mod 10)]
  end.

Definition decimal (n : nat) : str := decimal_digits (S n) n.

(** The name of rank [k]: the file name and the extension at rank 0, then
    the file name, a low line, the counter [k] in decimal and the
    extension. *)
Definition contract_name (fname ext : str) (k : nat) : str :=
  match k with
  | O => fname ++ ext
  | S _ => fname ++ [0x5F] ++ decimal k ++ ext
  end.

Section Vocabulary.
Context {FS : Type} `{OS FS}.

(** The test of the [while]: the path is in [renamed_files] or exists. *)
Definition taken (renamed : gset str) (fs0 : FS) (p : str) : bool :=
  bool_decide (p ∈ renamed) || os_path_exists fs0 p.

(** The [while] as a function of its test alone. *)
Fixpoint first_free (fuel : nat) (is_taken : str -> bool)
    (fname ext dir_path : str) (counter : nat) (new_file_name new_file_path : str)
    : option (str * str) :=
  if is_taken new_file_path then
    match fuel with
    | O => None
    | S fuel' =>
        let new_file_name := numbered_name fname ext counter in
        first_free fuel' is_taken fname ext dir_path (S counter)
          new_file_name (join dir_path new_file_name)
    end
  else Some (new_file_name, new_file_path).

(** Lines 339 to 347 as a function of the filesystem. *)
Definition link_decision (fs0 : FS) (file_path new_file_path : str)
    : exn + LinkType :=
  if os_path_isdir fs0 file_path then inr Symlink
  else match os_stat_dev fs0 file_path with
       | inl e => inl e
       | inr source_dev =>
           match os_stat_dev fs0 (dirname new_file_path) with
           | inl e => inl e
           | inr dest_dev =>
               inr (if source_dev =? dest_dev then Hardlink else Symlink)
           end
       end.

(** [processed_files] and [renamed_files] after a record is planned. *)
Definition processed_add (p : str) (st : PlanningState) : PlanningState :=
  {| renamed_files := renamed_files st;
     processed_files := {[p]} ∪ processed_files st |}.

Definition renamed_add (p : str) (st : PlanningState) : PlanningState :=
  {| renamed_files := {[p]} ∪ renamed_files st;
     processed_files := processed_files st |}.

(** A caller that plans several times with the same two sets.  Each call
    has its own list of records and destination root; [between] is what
    happened to the world since the call before.  The outcome of every
    call is kept, an exception in one does not end the sequence. *)
Fixpoint plan_calls (fuel : nat)
    (calls : list (list FileRecord * str * (world FS -> world FS)))
    (s : PlanningState * world FS)
    : list (outcome (list Operation)) * (PlanningState * world FS) :=
  match calls with
  | [] => ([], s)
  | (data_list, new_path, between) :: calls' =>
      let '(r, s') :=
        compute_operations fuel data_list new_path (fst s, between (snd s)) in
      let '(rs, s'') := plan_calls fuel calls' s' in
      (r :: rs, s'')
  end.

End Vocabulary.

(** The operations of the calls that returned. *)
Definition returned (results : list (outcome (list Operation))) : list Operation :=
  concat (map (fun r => match r with Ok ops => ops | _ => [] end) results).

(** *** Execution *)

(** What [report] does with a message when nothing fails. *)
Definition report_events (silent : bool) (log_file : option str) (message : str)
    : list event :=
  if silent then
    match log_file with
    | Some (c :: f) => [EvAppend (c :: f) (message ++ [newline]) None]
    | _ => []
    end
  else [EvPrint message None].

(** The events of one operation of a dry run. *)
Definition dry_run_events (silent : bool) (log_file : option str)
    (op : Operation) : list event :=
  EvMakedirs (dirname (destination op)) None
  :: report_events silent log_file (dry_run_message op).

Definition link_event (op : Operation) (r : option exn) : event :=
  match link_type op with
  | Hardlink => EvLink (source op) (destination op) r
  | Symlink => EvSymlink (source op) (destination op) r
  end.

Definition outcome_message (op : Operation) (r : option exn) : str :=
  match r with
  | None => created_message op
  | Some e => error_message op e
  end.

(** The events of one operation of a real run whose link call ended
    with [r]. *)
Definition live_events (silent : bool) (log_file : option str)
    (op : Operation) (r : option exn) : list event :=
  EvMakedirs (dirname (destination op)) None
  :: link_event op r
  :: report_events silent log_file (outcome_message op r).

(** The events one turn of the loop adds when it ends well. *)
Definition turn_events (dry_run silent : bool) (log_file : option str)
    (op : Operation) (new : list event) : Prop :=
  if dry_run then new = dry_run_events silent log_file op
  else exists r, new = live_events silent log_file op r.

Definition is_link_event (ev : event) : bool :=
  match ev with
  | EvLink _ _ _ | EvSymlink _ _ _ => true
  | _ => false
  end.

(** The calls outside the [try]: an exception that leaves the executor was
    raised by one of them. *)
Definition escapes_from (e : exn) (ev : event) : Prop :=
  (exists p, ev = EvMakedirs p (Some e))
  \/ (exists f text, ev = EvAppend f text (Some e))
  \/ (exists text, ev = EvPrint text (Some e)).

(** The loop body with every call written out: what [plan_record] computes
    from the two sets and the filesystem. *)
Definition plan_record_unfolded {FS : Type} `{OS FS} (fuel : nat) (new_path : str)
    (operations : list Operation) (data : FileRecord)
    (s : PlanningState * world FS)
    : outcome (list Operation) * (PlanningState * world FS) :=
  let fp := file_path data in
  if bool_decide (fp ∈ processed_files (fst s)) then (Ok operations, s)
  else
    let st1 := processed_add fp (fst s) in
    match foldername data, filename data with
    | PyStr folder, PyStr fname =>
        let ext := snd (splitext fp) in
        let dir_path := join new_path folder in
        let '(fs1, r) := os_makedirs (fs (snd s)) dir_path in
        let w1 := World fs1 (trace (snd s) ++ [EvMakedirs dir_path r]) in
        match r with
        | Some e => (Raise e, (st1, w1))
        | None =>
            match first_free fuel (taken (renamed_files (fst s)) fs1) fname ext
                    dir_path 1 (fname ++ ext) (join dir_path (fname ++ ext)) with
            | None => (Diverge, (st1, w1))
            | Some (name, path) =>
                match link_decision fs1 fp path with
                | inl e => (Raise e, (st1, w1))
                | inr lt =>
                    (Ok (operations ++ [{| source := fp;
                                           destination := path;
                                           link_type := lt;
                                           folder_name := folder;
                                           new_file_name := name |}]),
                     (renamed_add path st1, w1))
                end
            end
        end
    | _, _ =>
        (match field_error data with Some e => Raise e | None => Diverge end,
         (st1, snd s))
    end.

(** The operations planned since the state [st0], seen from a later
    state. *)
Definition planned_since (st0 st : PlanningState) (ops : list Operation) : Prop :=
  NoDup (map source ops) /\ NoDup (map destination ops)
  /\ Forall (fun op => (source op ∉ processed_files st0)
                       /\ (source op ∈ processed_files st)
                       /\ (destination op ∉ renamed_files st0)
                       /\ (destination op ∈ renamed_files st)) ops.

(** *** More on planning *)

(** The sources a call gets to plan: the paths of the records, in order,
    without those already processed and without repetitions. *)
Fixpoint fresh_sources (seen : gset str) (data_list : list FileRecord) : list str :=
  match data_list with
  | [] => []
  | data :: rest =>
      if bool_decide (file_path data ∈ seen) then fresh_sources seen rest
      else file_path data :: fresh_sources ({[file_path data]} ∪ seen) rest
  end.

(** How the operation planned for a record is made of it. *)
Definition planned_from (new_path : str) (data : FileRecord) (op : Operation) : Prop :=
  exists fname k,
    source op = file_path data
    /\ foldername data = PyStr (folder_name op)
    /\ filename data = PyStr fname
    /\ new_file_name op = candidate_name fname (snd (splitext (file_path data))) k
    /\ destination op = join (join new_path (folder_name op)) (new_file_name op).

(** The call of [os.makedirs] the planner makes for an operation. *)
Definition planner_event (new_path : str) (op : Operation) : event :=
  EvMakedirs (join new_path (folder_name op)) None.

Definition is_makedirs_event (ev : event) : bool :=
  match ev with
  | EvMakedirs _ _ => true
  | _ => false
  end.

(** *** Grouping as a recursion on the list of paths *)

Section GreedyGroups.
Variable ratio : str -> str -> Q.
Variable threshold : Q.

(** The test of line 17, on two paths. *)
Definition similar (p q : str) : bool :=
  Qle_bool threshold (ratio (basename p) (basename q)).

(** The first path takes the later paths similar to it; the others are
    grouped in the same way.  [fuel] bounds the number of groups. *)
Fixpoint greedy_groups (fuel : nat) (file_paths : list str) : list (list str) :=
  match fuel, file_paths with
  | S fuel', p :: rest =>
      (p :: List.filter (similar p) rest)
      :: greedy_groups fuel' (List.filter (fun q => negb (similar p q)) rest)
  | _, _ => []
  end.

End GreedyGroups.

(** The paths from position [i] on whose flag is still [False]. *)
Definition pending (file_paths : list str) (i : nat) (assigned : list bool) : list str :=
  unassigned (drop i file_paths) (drop i assigned).

(** *** More vocabulary for [clean_category] *)

(** The non-empty suffixes of a string, longest first. *)
Fixpoint tails (s : str) : list str :=
  match s with
  | [] => []
  | c :: s' => (c :: s') :: tails s'
  end.

(** The markers the substitutions look for at the start of the line. *)
Definition markers : list str :=
  [s_dapbyeon; s_dabeul_imnyeok; [0xD83D; 0xDCC2]; s_pail_ireum;
   s_chullyeok; s_yesi_chullyeok].

(** A space and a double quote, as a model may leave them after a label. *)
Definition space_quote : str := [0x20; 0x22].

(** *** The classifier *)

(** What lines 80 to 84 do for a path when nothing fails. *)
Definition path_events (silent : bool) (log_file : option str)
    (category : option str) (path : str) : list event :=
  if silent then
    match log_file with
    | Some (c :: f) => [EvAppend (c :: f) (log_line path category) None]
    | _ => []
    end
  else [EvPrint (print_line path category) None].

Definition is_report_event (ev : event) : bool :=
  match ev with
  | EvAppend _ _ _ | EvPrint _ _ => true
  | _ => false
  end.

(** A failed [print] or a failed write to the log file. *)
Definition report_failure (e : exn) (ev : event) : Prop :=
  (exists f text, ev = EvAppend f text (Some e))
  \/ (exists text, ev = EvPrint text (Some e)).

(** From [w] to [w'] there were prints and writes to the log file alone,
    and the last of them raised [e]. *)
Definition report_raised {FS : Type} (w w' : world FS) (e : exn) : Prop :=
  exists evs ev,
    trace w' = trace w ++ evs ++ [ev]
    /\ forallb is_report_event evs = true
    /\ report_failure e ev.

Section GroupedVocabulary.
Context {MS : Type} `{LLM MS}.
Variable to_lower_full : N -> str.
Variable final_sigma : str -> nat -> bool.

(** The answers of the model to a list of prompts, asked in order. *)
Fixpoint replies (ms : MS) (asked : list str) : list (exn + str) :=
  match asked with
  | [] => []
  | prompt :: rest =>
      let '(ms', r) := llm_text ms prompt in
      r :: replies ms' rest
  end.

(** The label an answer gives its group. *)
Definition category_of (answer : exn + str) : option str :=
  match answer with
  | inr raw_text => clean_category to_lower_full final_sigma raw_text
  | inl _ => None
  end.

(** The prompts of the groups, in order. *)
Definition prompts_of (groups : list (list str)) : list str :=
  map (fun group => group_prompt (map basename group)) groups.

(** The records of the groups, given what the model answered for each. *)
Definition labelled (groups : list (list str)) (answers : list (exn + str))
    : list FileRecord :=
  concat (zip_with (fun group answer => map (path_record (category_of answer)) group)
            groups answers).

(** What is printed or written for a group when every call goes well. *)
Definition group_events (silent : bool) (log_file : option str)
    (group : list str) (answer : exn + str) : list event :=
  match answer with
  | inl e => if silent then [] else [EvPrint (s_llm_failed ++ exn_str e) None]
  | inr _ => []
  end
  ++ flat_map (path_events silent log_file (category_of answer)) group.

(** The last call of the model, in some state of the model, did not come
    back. *)
Definition model_left {FS : Type} (s : session MS FS) : Prop :=
  exists ms prompt, last (prompts s) = Some prompt /\ llm_returns ms prompt = false.

End GroupedVocabulary.

(** A record as the classifier makes it: a label or [None] for the
    folder, and no file name. *)
Definition label_only (data : FileRecord) : bool :=
  match foldername data, filename data with
  | (PyNone | PyStr _), Absent => true
  | _, _ => false
  end.

(** *** The streamed text *)

(** The strings under [content] in the responses, in order. *)
Definition content_of (c : choice) : option str :=
  match c with
  | Some (PyStr content) => Some content
  | _ => None
  end.

Definition contents (rs : list response) : list str :=
  flat_map (fun r => omap content_of (default [] (choices r))) rs.

(** No [content] holds [None]. *)
Definition no_null_content (rs : list response) : Prop :=
  Forall (fun r => Forall (fun c => c <> Some PyNone) (default [] (choices r))) rs.

(** ** Example data *)

(** A home with two files to organise and a destination that already has
    a [foo.txt]; everything is on device 0 except [/mnt]. *)
Definition home_entries : list (str * SimFS.node) :=
  [(u "/", SimFS.Dir 0);
   (u "/in", SimFS.Dir 0);
   (u "/in/a.txt", SimFS.File 0 (u "alpha"));
   (u "/in/b.txt", SimFS.File 0 (u "beta"));
   (u "/in/album", SimFS.Dir 0);
   (u "/mnt", SimFS.Dir 1);
   (u "/mnt/c.txt", SimFS.File 1 (u "gamma"));
   (u "/out", SimFS.Dir 0);
   (u "/out/docs", SimFS.Dir 0);
   (u "/out/docs/foo.txt", SimFS.File 0 [])].

Definition w_home : world SimFS.t := SimFS.start home_entries.

(** The same sources, no destination yet. *)
Definition w_bare : world SimFS.t :=
  SimFS.start [(u "/", SimFS.Dir 0);
               (u "/in", SimFS.Dir 0);
               (u "/in/a.txt", SimFS.File 0 (u "alpha"));
               (u "/in/b.txt", SimFS.File 0 (u "beta"))].

(** A regular file sits where the destination root should be. *)
Definition w_blocked : world SimFS.t :=
  SimFS.start [(u "/", SimFS.Dir 0);
               (u "/in", SimFS.Dir 0);
               (u "/in/a.txt", SimFS.File 0 (u "alpha"));
               (u "/in/b.txt", SimFS.File 0 (u "beta"));
               (u "/ok", SimFS.Dir 0);
               (u "/out", SimFS.File 0 (u "not a directory"))].

Definition st_empty : PlanningState :=
  {| renamed_files := ∅; processed_files := ∅ |}.

Definition rec_a : FileRecord :=
  {| file_path := u "/in/a.txt";
     foldername := PyStr (u "docs");
     filename := PyStr (u "foo") |}.

Definition rec_b : FileRecord :=
  {| file_path := u "/in/b.txt";
     foldername := PyStr (u "docs");
     filename := PyStr (u "bar") |}.

(** What [classify_by_filename_grouped] returns for a file whose group the
    model failed on: a null folder name and no file name. *)
Definition rec_null : FileRecord :=
  {| file_path := u "/in/a.txt"; foldername := PyNone; filename := Absent |}.

(** The names [foo_1.txt] to [foo_9.txt] are allocated in [/out/docs]. *)
Definition st_nine : PlanningState :=
  {| renamed_files :=
       list_to_set [u "/out/docs/foo_1.txt"; u "/out/docs/foo_2.txt";
                    u "/out/docs/foo_3.txt"; u "/out/docs/foo_4.txt";
                    u "/out/docs/foo_5.txt"; u "/out/docs/foo_6.txt";
                    u "/out/docs/foo_7.txt"; u "/out/docs/foo_8.txt";
                    u "/out/docs/foo_9.txt"];
     processed_files := ∅ |}.

(** A record with both names whose source is not there. *)
Definition rec_missing : FileRecord :=
  {| file_path := u "/in/missing.txt";
     foldername := PyStr (u "docs");
     filename := PyStr (u "ghost") |}.

Definition op_a : Operation :=
  {| source := u "/in/a.txt";
     destination := u "/out/docs/a.txt";
     link_type := Hardlink;
     folder_name := u "docs";
     new_file_name := u "a.txt" |}.

Definition op_b : Operation :=
  {| source := u "/in/b.txt";
     destination := u "/ok/b.txt";
     link_type := Hardlink;
     folder_name := u "ok";
     new_file_name := u "b.txt" |}.

(** An operation whose destination is already there. *)
Definition op_clash : Operation :=
  {| source := u "/in/a.txt";
     destination := u "/out/docs/foo.txt";
     link_type := Hardlink;
     folder_name := u "docs";
     new_file_name := u "foo.txt" |}.

(** Three paths whose names are one another's prefixes. *)
Definition three_paths : list str := [u "/in/aa"; u "/in/aab"; u "/in/aabc"].

(** A list that gives one path twice. *)
Definition repeated_paths : list str := [u "/in/aa"; u "/in/aab"; u "/in/aa"].

(** A directory to organise, and a file on another device. *)
Definition rec_album : FileRecord :=
  {| file_path := u "/in/album";
     foldername := PyStr (u "docs");
     filename := PyStr (u "album") |}.

Definition rec_c : FileRecord :=
  {| file_path := u "/mnt/c.txt";
     foldername := PyStr (u "docs");
     filename := PyStr (u "gamma") |}.

Definition op_bar : Operation :=
  {| source := u "/in/b.txt";
     destination := u "/out/docs/bar.txt";
     link_type := Hardlink;
     folder_name := u "docs";
     new_file_name := u "bar.txt" |}.

(** One call on the home: [a.txt], [b.txt], and [a.txt] once more. *)
Definition home_records : list FileRecord := [rec_a; rec_b; rec_a].

Definition home_run : outcome (list Operation) * (PlanningState * world SimFS.t) :=
  compute_operations 5 home_records (u "/out") (st_empty, w_home).

Definition home_ops : list Operation :=
  match fst home_run with
  | Ok ops => ops
  | _ => []
  end.

Definition home_state : PlanningState := fst (snd home_run).

Definition home_world : world SimFS.t := snd (snd home_run).

(** A call that meets a record without a file name after [b.txt]. *)
Definition broken_run : outcome (list Operation) * (PlanningState * world SimFS.t) :=
  compute_operations 5 ([rec_b] ++ rec_null :: [rec_a]) (u "/out") (st_empty, w_home).

(** A model that reads its answers from a list and fails when the list
    is used up, to run the classifier with. *)
Module ScriptedLLM.

Definition t : Type := list (exn + str).

Definition text (script : t) (prompt : str) : t * (exn + str) :=
  match script with
  | answer :: rest => (rest, answer)
  | [] => ([], inl (OSError (u "no answer left")))
  end.

#[global] Instance llm : LLM t :=
  {| llm_text := text; llm_returns := fun _ _ => true |}.

End ScriptedLLM.

(** A model whose second call is interrupted from the keyboard: its state
    is the number of calls made. *)
Module InterruptedLLM.

Definition t : Type := nat.

Definition text (calls : t) (prompt : str) : t * (exn + str) :=
  (S calls, inr (s_sajin ++ [newline])).

Definition returns (calls : t) (prompt : str) : bool := (calls <? 1)%nat.

#[global] Instance llm : LLM t := {| llm_text := text; llm_returns := returns |}.

End InterruptedLLM.

(** Two reports that go together and a third file, with a similarity
    that is the share of the common prefix. *)
Definition report_paths : list str :=
  [u "/in/aaaaaaaaa1"; u "/in/aaaaaaaaa2"; u "/in/zz"].

(** The model answers 사진 with a marker and quotes for the first group
    and fails on the second. *)
Definition two_answers : ScriptedLLM.t :=
  [inr (u "  " ++ s_chullyeok ++ u ": " ++ [0x201C] ++ s_sajin ++ [0x201D; 0x0A]
        ++ u "more");
   inl (OSError (u "model offline"))].

Definition session_home : session ScriptedLLM.t SimFS.t :=
  Session two_answers [] w_home.

Definition grouped_run
    : outcome (list FileRecord) * session ScriptedLLM.t SimFS.t :=
  classify_by_filename_grouped prefix_ratio ascii_to_lower (fun _ _ => false)
    report_paths true (Some (u "/out/log.txt")) session_home.

Definition grouped_results : list FileRecord :=
  match fst grouped_run with
  | Ok results => results
  | _ => []
  end.

(** The same call with the model that is interrupted at its second
    call. *)
Definition grouped_run_interrupted
    : outcome (list FileRecord) * session InterruptedLLM.t SimFS.t :=
  classify_by_filename_grouped prefix_ratio ascii_to_lower (fun _ _ => false)
    report_paths true None (Session 0%nat [] w_home).

(** The same call with a log file in a directory that does not exist. *)
Definition grouped_run_no_log
    : outcome (list FileRecord) * session ScriptedLLM.t SimFS.t :=
  classify_by_filename_grouped prefix_ratio ascii_to_lower (fun _ _ => false)
    report_paths true (Some (u "/nowhere/log.txt")) session_home.

(* ===================================================================== *)
(** * Part II: properties                                                 *)
(* ===================================================================== *)

(** ** Python strings *)

Lemma lstrip_split (s : str) :
  exists pre, s = pre ++ lstrip s /\ Forall (fun c => isspace c = true) pre.
Proof.
  induction s as [|c s [pre [E F]]]; simpl.
  - exists []. split; [reflexivity | constructor].
  - destruct (isspace c) eqn:Hc.
    + exists (c :: pre). split; [simpl; congruence | constructor; assumption].
    + exists []. split; [reflexivity | constructor].
Qed.

Lemma lstrip_head (s : str) (c : N) : head (lstrip s) = Some c -> isspace c = false.
Proof.
  induction s as [|x s IH]; simpl; [discriminate|].
  destruct (isspace x) eqn:Hx; [exact IH|].
  simpl. intros [= <-]. exact Hx.
Qed.

Lemma lstrip_suffix (s : str) : lstrip s `suffix_of` s.
Proof. destruct (lstrip_split s) as [pre [E _]]. exists pre. exact E. Qed.

Lemma rstrip_prefix (s : str) : rstrip s `prefix_of` s.
Proof.
  unfold rstrip. destruct (lstrip_split (rev s)) as [pre [E _]].
  exists (rev pre). rewrite <- rev_app_distr, <- E. symmetry. apply rev_involutive.
Qed.

Lemma last_rev {A} (l : list A) : last (rev l) = head l.
Proof. destruct l as [|x l]; [reflexivity|]. simpl. apply last_snoc. Qed.

Lemma rstrip_last (s : str) (c : N) : last (rstrip s) = Some c -> isspace c = false.
Proof.
  unfold rstrip. rewrite last_rev. apply lstrip_head.
Qed.

Lemma suffix_last (s t : str) (c : N) :
  s `suffix_of` t -> last s = Some c -> last t = Some c.
Proof.
  intros [pre ->] Hl. rewrite last_app, Hl. reflexivity.
Qed.

Lemma strip_split (s : str) : exists pre post, s = pre ++ strip s ++ post.
Proof.
  destruct (rstrip_prefix s) as [post E], (lstrip_suffix (rstrip s)) as [pre E'].
  exists pre, post. unfold strip. rewrite app_assoc, <- E'. exact E.
Qed.

Lemma strip_trimmed (s : str) : trimmed (strip s).
Proof.
  split; intros c Hc.
  - eapply lstrip_head, Hc.
  - apply (rstrip_last s). eapply suffix_last; [apply lstrip_suffix | exact Hc].
Qed.

Lemma length_strip (s : str) : (length (strip s) <= length s)%nat.
Proof.
  destruct (strip_split s) as (pre & post & E).
  rewrite E at 2. rewrite !length_app. lia.
Qed.

Lemma strip_Forall (P : N -> Prop) (s : str) : Forall P s -> Forall P (strip s).
Proof.
  destruct (strip_split s) as (pre & post & E). rewrite E at 1.
  rewrite !Forall_app. tauto.
Qed.

Lemma lstrip_keeps (P : N -> bool) (s : str) :
  (forall c, P c = true -> isspace c = false) ->
  existsb P (lstrip s) = existsb P s.
Proof.
  intros HP. induction s as [|c s IH]; simpl; [reflexivity|].
  destruct (isspace c) eqn:Hc; [|reflexivity].
  rewrite IH. destruct (P c) eqn:Pc; [|reflexivity].
  apply HP in Pc. congruence.
Qed.

Lemma existsb_rev {A} (P : A -> bool) (l : list A) : existsb P (rev l) = existsb P l.
Proof.
  induction l as [|x l IH]; simpl; [reflexivity|].
  rewrite existsb_app, IH. simpl. rewrite orb_false_r. apply orb_comm.
Qed.

Lemma strip_keeps (P : N -> bool) (s : str) :
  (forall c, P c = true -> isspace c = false) ->
  existsb P (strip s) = existsb P s.
Proof.
  intros HP. unfold strip, rstrip.
  rewrite lstrip_keeps, existsb_rev, lstrip_keeps, existsb_rev by exact HP.
  reflexivity.
Qed.

Lemma hangul_not_space (c : N) : hangul c = true -> isspace c = false.
Proof.
  unfold hangul, isspace. intros Hc.
  apply andb_true_iff in Hc as [H1 H2].
  apply N.leb_le in H1.
  repeat match goal with
         | |- context [?a <=? c] => destruct (N.leb_spec a c); try lia
         | |- context [c <=? ?a] => destruct (N.leb_spec c a); try lia
         | |- context [c =? ?a] => destruct (N.eqb_spec c a); try lia
         end; reflexivity.
Qed.

Lemma lstrip_app (x y : str) :
  lstrip (x ++ y) = match lstrip x with
                    | [] => lstrip y
                    | _ :: _ => lstrip x ++ y
                    end.
Proof.
  induction x as [|c x IH]; simpl; [reflexivity|].
  destruct (isspace c); [exact IH | reflexivity].
Qed.

Lemma rstrip_app (x y : str) :
  rstrip (x ++ y) = match rstrip y with
                    | [] => rstrip x
                    | _ :: _ => x ++ rstrip y
                    end.
Proof.
  unfold rstrip. rewrite rev_app_distr, lstrip_app.
  destruct (lstrip (rev y)) as [|c r]; [reflexivity|].
  rewrite rev_app_distr, rev_involutive.
  destruct (rev (c :: r)) eqn:E; [|reflexivity].
  simpl in E. by destruct (rev r).
Qed.

Lemma lstrip_id (s : str) :
  (forall c, head s = Some c -> isspace c = false) -> lstrip s = s.
Proof.
  destruct s as [|c s]; simpl; [reflexivity|].
  intros Hc. by rewrite (Hc c eq_refl).
Qed.

Lemma rstrip_id (s : str) :
  (forall c, last s = Some c -> isspace c = false) -> rstrip s = s.
Proof.
  intros Hc. unfold rstrip. rewrite lstrip_id; [apply rev_involutive|].
  intros c Hh. apply Hc. rewrite <- (rev_involutive s). by rewrite last_rev.
Qed.

Lemma strip_fixed_trimmed (s : str) : strip s = s -> trimmed s.
Proof. intros <-. apply strip_trimmed. Qed.

Lemma trimmed_strip (s : str) : trimmed s -> strip s = s.
Proof. intros [Hh Hl]. unfold strip. by rewrite (rstrip_id s Hl), (lstrip_id s Hh). Qed.

Lemma first_line_app (a b : str) :
  forallb (fun c => negb (c =? newline)) a = true ->
  first_line (a ++ newline :: b) = a.
Proof.
  induction a as [|c a IH]; simpl; [reflexivity|].
  intros Ha. apply andb_true_iff in Ha as [Hc Ha].
  apply negb_true_iff in Hc. rewrite Hc, IH by exact Ha. reflexivity.
Qed.

Lemma first_line_prefix (s : str) : first_line s `prefix_of` s.
Proof.
  induction s as [|c s IH]; simpl; [done|].
  destruct (c =? newline); [apply prefix_nil | by apply prefix_cons].
Qed.

Lemma strip_lit_split (lit s r : str) : strip_lit lit s = Some r -> s = lit ++ r.
Proof.
  revert s. induction lit as [|a lit IH]; intros [|c s]; simpl; try congruence.
  destruct (N.eqb_spec a c); [|discriminate].
  intros Hr. apply IH in Hr. congruence.
Qed.

Lemma length_strip_marker (lit line : str) :
  (length (strip_marker lit line) <= length line)%nat.
Proof.
  unfold strip_marker. destruct (strip_lit lit line) as [r|] eqn:E; [|lia].
  apply strip_lit_split in E. subst line. rewrite length_app.
  destruct r as [|c rest]; [simpl; lia|].
  destruct (colon c).
  - pose proof (suffix_length _ _ (lstrip_suffix rest)). simpl. lia.
  - pose proof (suffix_length _ _ (lstrip_suffix (c :: rest))). lia.
Qed.

Lemma through_docx_length (s r : str) :
  through_docx s = Some r -> (length r <= length s)%nat.
Proof.
  revert r. induction s as [|c s IH]; intros r.
  - simpl. discriminate.
  - assert (Hstep : (if c =? newline then None else through_docx s) = Some r ->
                    (length r <= length (c :: s))%nat).
    { destruct (c =? newline); [discriminate|]. intros Hr. apply IH in Hr. simpl. lia. }
    cbn [through_docx].
    destruct (strip_lit (u ".docx") (c :: s)) as [[|q rest]|] eqn:E; try exact Hstep.
    destruct (q =? 34); [|exact Hstep].
    intros [= <-]. apply strip_lit_split in E. rewrite E.
    pose proof (suffix_length _ _ (lstrip_suffix rest)).
    rewrite length_app. simpl. lia.
Qed.

Lemma length_strip_folder_glyph (line : str) :
  (length (strip_folder_glyph line) <= length line)%nat.
Proof.
  unfold strip_folder_glyph.
  destruct (strip_lit _ line) as [rest|] eqn:E; [|lia].
  destruct (through_docx rest) as [r|] eqn:T; [|lia].
  apply strip_lit_split in E. apply through_docx_length in T.
  subst line. rewrite length_app. lia.
Qed.

Lemma length_remove_class (cls : N -> bool) (s : str) :
  (length (remove_class cls s) <= length s)%nat.
Proof. apply List.filter_length_le. Qed.

Lemma length_cleaned_line (raw : str) :
  (length (cleaned_line raw) <= length raw)%nat.
Proof.
  unfold cleaned_line.
  repeat (etransitivity; [first [apply length_remove_class | apply length_strip_marker
                                 | apply length_strip_folder_glyph]|]).
  etransitivity; [apply prefix_length, first_line_prefix | apply length_strip].
Qed.

Lemma remove_class_clear (cls : N -> bool) (s : str) :
  Forall (fun c => cls c = false) (remove_class cls s).
Proof.
  apply List.Forall_forall. intros c Hc. apply List.filter_In in Hc as [_ Hc].
  by apply negb_true_iff.
Qed.

Lemma remove_class_Forall (P : N -> Prop) (cls : N -> bool) (s : str) :
  Forall P s -> Forall P (remove_class cls s).
Proof.
  rewrite !List.Forall_forall. intros HP c Hc. apply List.filter_In in Hc as [Hc _]. auto.
Qed.

Lemma cleaned_line_safe (raw : str) :
  Forall (fun c => reserved_char c = false /\ quote_char c = false) (cleaned_line raw).
Proof.
  unfold cleaned_line.
  apply Forall_and. split.
  - apply remove_class_clear.
  - apply remove_class_Forall, remove_class_clear.
Qed.

(** ** clean_category *)

(** Claim C10.  Whatever the raw text and the lowercase table, a result of
    [clean_category] other than [None] has no white space at either end,
    is at least two code points long, contains a Hangul syllable, and
    contains none of the reserved characters (backslash, slash, colon,
    star, question mark, double quote, angle brackets, bar) and none of
    the straight or curly quotation marks. *)
Theorem clean_category_postcondition
    (to_lower_full : N -> str) (final_sigma : str -> nat -> bool)
    (raw_text label : str) :
  clean_category to_lower_full final_sigma raw_text = Some label ->
  trimmed label
  /\ (2 <= length label)%nat
  /\ has_hangul label = true
  /\ Forall (fun c => reserved_char c = false /\ quote_char c = false) label.
Proof.
  unfold clean_category.
  destruct (has_hangul (cleaned_line raw_text)) eqn:Hh; simpl; [|discriminate].
  destruct (_ || _ || _) eqn:Ht; [discriminate|].
  intros [= <-].
  apply orb_false_iff in Ht as [_ Hlen].
  apply Nat.ltb_ge in Hlen.
  repeat split.
  - eapply strip_trimmed; eassumption.
  - eapply strip_trimmed; eassumption.
  - exact Hlen.
  - unfold has_hangul. rewrite strip_keeps; [exact Hh | exact hangul_not_space].
  - apply strip_Forall, cleaned_line_safe.
Qed.

(** The claim at work: a marker, curly quotes and a second line around 사진. *)
Lemma clean_category_postcondition_witness :
  trimmed s_sajin
  /\ (2 <= length s_sajin)%nat
  /\ has_hangul s_sajin = true
  /\ Forall (fun c => reserved_char c = false /\ quote_char c = false) s_sajin.
Proof.
  apply (clean_category_postcondition ascii_to_lower (fun _ _ => false)
           (u "  " ++ s_chullyeok ++ u ": " ++ [0x201C] ++ s_sajin ++ [0x201D; 0x0A]
            ++ u "more") s_sajin).
  vm_compute. reflexivity.
Defined.

Section LowerTable.
Variable to_lower_full : N -> str.
Variable final_sigma : str -> nat -> bool.

(** What the statements need to know of the table: a code point without
    case is its own mapping, no mapping is empty, and a code point without
    case is in no mapping but its own. *)
Hypothesis caseless_fixed : forall c, caseless c = true -> to_lower_full c = [c].
Hypothesis mapping_nonempty : forall c, to_lower_full c <> [].
Hypothesis caseless_origin :
  forall c d, In d (to_lower_full c) -> caseless d = true -> d = c.

Lemma lower_at_step (s : str) : lower_step to_lower_full (lower_at to_lower_full final_sigma s).
Proof.
  intros i c. unfold lower_at. destruct (N.eqb_spec c 0x3A3) as [->|Hc].
  - left. split; [reflexivity|]. destruct (final_sigma s i); auto.
  - right. auto.
Qed.

Lemma lower_step_shift (f : nat -> N -> str) :
  lower_step to_lower_full f -> lower_step to_lower_full (f ∘ S).
Proof. intros Hf i c. apply (Hf (S i) c). Qed.

Lemma caseless_not_sigma (c : N) : caseless c = true -> c <> 0x3A3.
Proof. intros Hc ->. vm_compute in Hc. discriminate. Qed.

Lemma imap_caseless (f : nat -> N -> str) (l : str) :
  lower_step to_lower_full f -> Forall (fun c => caseless c = true) l -> concat (imap f l) = l.
Proof.
  revert f. induction l as [|x l IH]; intros f Hf Hl; [reflexivity|].
  inversion Hl as [|? ? Hx Hl']; subst.
  rewrite imap_cons. simpl. rewrite (IH _ (lower_step_shift f Hf) Hl').
  destruct (Hf 0%nat x) as [[-> _]|[_ ->]].
  - vm_compute in Hx. discriminate.
  - rewrite (caseless_fixed x Hx). reflexivity.
Qed.

Lemma imap_caseless_inv (f : nat -> N -> str) (l : str) :
  lower_step to_lower_full f -> Forall (fun c => caseless c = true) (concat (imap f l)) ->
  concat (imap f l) = l.
Proof.
  revert f. induction l as [|x l IH]; intros f Hf Hl; [reflexivity|].
  rewrite imap_cons in *. simpl in *. apply Forall_app in Hl as [Hx Hl].
  rewrite (IH _ (lower_step_shift f Hf) Hl).
  destruct (Hf 0%nat x) as [[-> [E|E]]|[_ E]]; rewrite E in *.
  - inversion Hx as [|? ? Hc _]. vm_compute in Hc. discriminate.
  - inversion Hx as [|? ? Hc _]. vm_compute in Hc. discriminate.
  - destruct (to_lower_full x) as [|d ds] eqn:Ed; [by apply mapping_nonempty in Ed|].
    inversion Hx as [|? ? Hd _]; subst.
    assert (d = x) as -> by (apply caseless_origin; [rewrite Ed; left; reflexivity | exact Hd]).
    rewrite (caseless_fixed x Hd) in Ed. injection Ed as <-. reflexivity.
Qed.

Lemma imap_hangul (f : nat -> N -> str) (l : str) :
  lower_step to_lower_full f -> has_hangul l = true -> has_hangul (concat (imap f l)) = true.
Proof.
  unfold has_hangul.
  revert f. induction l as [|x l IH]; intros f Hf Hl; [discriminate|].
  rewrite imap_cons. simpl in *. rewrite existsb_app.
  apply orb_true_iff in Hl as [Hx|Hl].
  - assert (Hc : caseless x = true) by (unfold caseless; rewrite Hx; reflexivity).
    destruct (Hf 0%nat x) as [[E _]|[_ E]].
    + by apply caseless_not_sigma in Hc.
    + rewrite E, (caseless_fixed x Hc). simpl. rewrite Hx. reflexivity.
  - rewrite (IH _ (lower_step_shift f Hf) Hl). apply orb_true_r.
Qed.

Lemma lower_caseless (s : str) :
  Forall (fun c => caseless c = true) s -> lower to_lower_full final_sigma s = s.
Proof. apply imap_caseless, lower_at_step. Qed.

Lemma lower_banned (s : str) :
  has_hangul s = true -> lower to_lower_full final_sigma s ∈ banned -> s ∈ banned.
Proof.
  intros Hh Hin.
  assert (Hcase : Forall (fun c => caseless c = true) (lower to_lower_full final_sigma s)).
  { unfold banned in Hin. rewrite !elem_of_cons in Hin.
    destruct Hin as [E|[E|[E|[E|E]]]].
    - rewrite E. repeat constructor.
    - rewrite E. repeat constructor.
    - rewrite E. repeat constructor.
    - pose proof (imap_hangul _ s (lower_at_step s) Hh) as Hl.
      fold (lower to_lower_full final_sigma s) in Hl. rewrite E in Hl.
      vm_compute in Hl. discriminate.
    - by apply elem_of_nil in E. }
  rewrite <- (imap_caseless_inv _ s (lower_at_step s) Hcase). exact Hin.
Qed.

Lemma first_line_id (s : str) :
  forallb (fun c => negb (c =? newline)) s = true -> first_line s = s.
Proof.
  induction s as [|c s IH]; simpl; [reflexivity|].
  intros Hs. apply andb_true_iff in Hs as [Hc Hs].
  apply negb_true_iff in Hc. rewrite Hc, IH by exact Hs. reflexivity.
Qed.

Lemma strip_marker_id (lit s : str) : strip_lit lit s = None -> strip_marker lit s = s.
Proof. unfold strip_marker. intros ->. reflexivity. Qed.

Lemma strip_folder_glyph_id (s : str) :
  strip_lit [0xD83D; 0xDCC2] s = None -> strip_folder_glyph s = s.
Proof. unfold strip_folder_glyph. intros ->. reflexivity. Qed.

Lemma remove_class_id (cls : N -> bool) (s : str) :
  forallb (fun c => negb (cls c)) s = true -> remove_class cls s = s.
Proof.
  unfold remove_class. induction s as [|c s IH]; simpl; [reflexivity|].
  intros Hs. apply andb_true_iff in Hs as [Hc Hs]. rewrite Hc, IH by exact Hs.
  reflexivity.
Qed.

Lemma cleaned_line_clean_label (s : str) : clean_label s = true -> cleaned_line s = s.
Proof.
  unfold clean_label. intros Hs.
  apply andb_true_iff in Hs as [Hs Hsafe].
  apply andb_true_iff in Hs as [Hs Hlit].
  apply andb_true_iff in Hs as [Hstrip Hnl].
  apply bool_decide_eq_true in Hstrip.
  cbn [forallb] in Hlit.
  repeat (apply andb_true_iff in Hlit as [?%bool_decide_eq_true Hlit]).
  unfold cleaned_line. rewrite Hstrip, first_line_id by exact Hnl.
  rewrite (strip_marker_id s_dapbyeon s), (strip_marker_id s_dabeul_imnyeok s),
    (strip_folder_glyph_id s), (strip_marker_id s_pail_ireum s),
    (strip_marker_id s_chullyeok s), (strip_marker_id s_yesi_chullyeok s)
    by assumption.
  rewrite (remove_class_id quote_char s), (remove_class_id reserved_char s);
    [reflexivity| |].
  - rewrite forallb_forall in *. intros c Hc. apply Hsafe in Hc.
    by apply andb_true_iff in Hc as [_ ?].
  - rewrite forallb_forall in *. intros c Hc. apply Hsafe in Hc.
    by apply andb_true_iff in Hc as [? _].
Qed.

Lemma clean_category_short (raw_text : str) :
  (length raw_text <= 1)%nat -> clean_category to_lower_full final_sigma raw_text = None.
Proof.
  intros Hlen. unfold clean_category.
  destruct (negb _); [reflexivity|].
  assert (Hs : (length (strip (cleaned_line raw_text)) <? 2)%nat = true).
  { apply Nat.ltb_lt. pose proof (length_strip (cleaned_line raw_text)).
    pose proof (length_cleaned_line raw_text). lia. }
  rewrite Hs, orb_true_r. reflexivity.
Qed.

Lemma clean_category_short_line (raw_text : str) :
  (length (cleaned_line raw_text) <= 1)%nat ->
  clean_category to_lower_full final_sigma raw_text = None.
Proof.
  intros Hlen. unfold clean_category.
  destruct (negb _); [reflexivity|].
  assert (Hs : (length (strip (cleaned_line raw_text)) <? 2)%nat = true).
  { apply Nat.ltb_lt. pose proof (length_strip (cleaned_line raw_text)). lia. }
  rewrite Hs, orb_true_r. reflexivity.
Qed.

(** A trimmed line with one more code point: the line that is cleaned is
    the line itself, with or without that code point. *)
Lemma first_line_strip_snoc (m : str) (c : N) :
  m <> [] -> strip m = m ->
  forallb (fun x => negb (x =? newline)) m = true ->
  first_line (strip (m ++ [c])) = m \/ first_line (strip (m ++ [c])) = m ++ [c].
Proof.
  intros Hne Hstrip Hnl. destruct (strip_fixed_trimmed m Hstrip) as [Hh Hl].
  unfold strip. rewrite rstrip_app.
  assert (Hc : rstrip [c] = if isspace c then [] else [c]).
  { unfold rstrip. simpl. by destruct (isspace c). }
  rewrite Hc. destruct (isspace c) eqn:Hsp.
  - left. rewrite (rstrip_id m Hl), (lstrip_id m Hh). by apply first_line_id.
  - right. rewrite lstrip_app, (lstrip_id m Hh).
    destruct m as [|x m]; [done|]. apply first_line_id.
    rewrite forallb_app, Hnl. simpl.
    destruct (N.eqb_spec c newline) as [->|_]; [discriminate Hsp | reflexivity].
Qed.

Lemma length_after_marker (c : N) :
  (length (if colon c then lstrip [] else lstrip [c]) <= 1)%nat.
Proof. destruct (colon c); simpl; [lia|]. destruct (isspace c); simpl; lia. Qed.

(** One of the words 답변 and 출력 with at most one code point after it
    leaves at most one code point to look at. *)
Lemma cleaned_line_marker_led (rest : str) :
  (length rest <= 1)%nat ->
  (length (cleaned_line (s_dapbyeon ++ rest)) <= 1)%nat
  /\ (length (cleaned_line (s_chullyeok ++ rest)) <= 1)%nat.
Proof.
  intros Hlen. destruct rest as [|c [|c' rest]]; [|clear Hlen|simpl in Hlen; lia].
  { split; vm_compute; lia. }
  split.
  - unfold cleaned_line.
    destruct (first_line_strip_snoc s_dapbyeon c) as [-> | ->];
      try done; [vm_compute; lia|].
    change (strip_marker s_dapbyeon (s_dapbyeon ++ [c]))
      with (if colon c then lstrip [] else lstrip [c]).
    repeat (etransitivity;
            [first [apply length_remove_class | apply length_strip_marker
                   | apply length_strip_folder_glyph]|]).
    apply length_after_marker.
  - unfold cleaned_line.
    destruct (first_line_strip_snoc s_chullyeok c) as [-> | ->];
      try done; [vm_compute; lia|].
    change (strip_marker s_dapbyeon (s_chullyeok ++ [c])) with (s_chullyeok ++ [c]).
    change (strip_marker s_dabeul_imnyeok (s_chullyeok ++ [c])) with (s_chullyeok ++ [c]).
    change (strip_folder_glyph (s_chullyeok ++ [c])) with (s_chullyeok ++ [c]).
    change (strip_marker s_pail_ireum (s_chullyeok ++ [c])) with (s_chullyeok ++ [c]).
    change (strip_marker s_chullyeok (s_chullyeok ++ [c]))
      with (if colon c then lstrip [] else lstrip [c]).
    repeat (etransitivity;
            [first [apply length_remove_class | apply length_strip_marker]|]).
    apply length_after_marker.
Qed.


End LowerTable.

Lemma ascii_caseless_fixed (c : N) : caseless c = true -> ascii_to_lower c = [c].
Proof.
  unfold caseless, hangul, ascii_to_lower. intros Hc.
  destruct (N.leb_spec 0x41 c), (N.leb_spec c 0x5A); simpl; try reflexivity.
  destruct (N.leb_spec 0xAC00 c), (N.eqb_spec c 0x20); simpl in Hc; try lia; discriminate.
Qed.

Lemma ascii_mapping_nonempty (c : N) : ascii_to_lower c <> [].
Proof. unfold ascii_to_lower. destruct (_ && _); discriminate. Qed.

Lemma ascii_caseless_origin (c d : N) :
  In d (ascii_to_lower c) -> caseless d = true -> d = c.
Proof.
  unfold ascii_to_lower, caseless, hangul.
  destruct (N.leb_spec 0x41 c), (N.leb_spec c 0x5A); simpl;
    intros [<-|[]] Hd; try reflexivity.
  destruct (N.leb_spec 0xAC00 (c + 32)), (N.eqb_spec (c + 32) 0x20);
    simpl in Hd; try lia; discriminate.
Qed.



(** ** group_similar_filenames *)

Lemma unassigned_mark (file_paths : list str) (assigned : list bool) (j : nat) (p : str) :
  assigned !! j = Some false -> file_paths !! j = Some p ->
  Permutation (unassigned file_paths assigned)
              (p :: unassigned file_paths (<[j := true]> assigned)).
Proof.
  revert assigned j. induction file_paths as [|q ps IH]; intros [|a flags] [|j];
    simpl; try discriminate.
  - intros [= ->] [= ->]. reflexivity.
  - intros Hj Hp. specialize (IH flags j Hj Hp). destruct a.
    + exact IH.
    + rewrite IH. apply perm_swap.
Qed.

Lemma unassigned_none (file_paths : list str) (assigned : list bool) :
  (forall k, assigned !! k <> Some false) -> unassigned file_paths assigned = [].
Proof.
  revert assigned. induction file_paths as [|q ps IH]; intros [|a flags] Hk;
    simpl; try reflexivity.
  destruct a.
  - apply IH. intros k. apply (Hk (S k)).
  - destruct (Hk 0%nat). reflexivity.
Qed.

Lemma unassigned_all (file_paths : list str) :
  unassigned file_paths (replicate (length file_paths) false) = file_paths.
Proof. induction file_paths as [|q ps IH]; simpl; [reflexivity | by rewrite IH]. Qed.

Section GrouperFacts.
Variable ratio : str -> str -> Q.
Variable threshold : Q.
Variable file_paths filenames : list str.

Lemma scan_candidates_spec (fname : str) (js : list nat) (group : list str)
    (assigned : list bool) :
  let r := scan_candidates ratio threshold file_paths filenames fname js group assigned in
  length (snd r) = length assigned
  /\ (exists more, fst r = group ++ more)
  /\ (forall k, assigned !! k = Some true -> snd r !! k = Some true)
  /\ Permutation (fst r ++ unassigned file_paths (snd r))
                 (group ++ unassigned file_paths assigned).
Proof.
  revert group assigned. induction js as [|j js IH]; intros group assigned; simpl.
  - repeat split; [exists []; by rewrite app_nil_r | auto | reflexivity].
  - destruct (assigned !! j) as [[|]|] eqn:Hj; try apply IH.
    destruct (filenames !! j) as [fj|]; try apply IH.
    destruct (file_paths !! j) as [pj|] eqn:Hp; try apply IH.
    destruct (Qle_bool threshold (ratio fname fj)); try apply IH.
    destruct (IH (group ++ [pj]) (<[j := true]> assigned)) as (Hlen & [more Hmore] & Hmono & Hperm).
    repeat split.
    + rewrite Hlen. apply length_insert.
    + exists (pj :: more). rewrite Hmore, <- app_assoc. reflexivity.
    + intros k Hk. apply Hmono. destruct (decide (j = k)) as [->|Hne].
      * congruence.
      * by rewrite list_lookup_insert_ne.
    + rewrite Hperm, <- app_assoc. apply Permutation_app_head. simpl.
      symmetry. by apply unassigned_mark.
Qed.

Hypothesis names_length : length filenames = length file_paths.

Lemma scan_seeds_spec (is_ : list nat) (groups : list (list str)) (assigned : list bool) :
  length assigned = length file_paths ->
  (forall k, assigned !! k = Some false -> k ∈ is_) ->
  let r := scan_seeds ratio threshold file_paths filenames is_ groups assigned in
  Permutation (concat r) (concat groups ++ unassigned file_paths assigned)
  /\ (Forall (fun g => g <> []) groups -> Forall (fun g => g <> []) r).
Proof.
  revert groups assigned. induction is_ as [|i is_ IH]; intros groups assigned Hlen Hfalse; simpl.
  - rewrite unassigned_none, app_nil_r; [auto|].
    intros k Hk. apply Hfalse in Hk. by apply elem_of_nil in Hk.
  - assert (Hskip : assigned !! i <> Some false ->
                    forall k, assigned !! k = Some false -> k ∈ is_).
    { intros Hi k Hk. specialize (Hfalse k Hk). apply elem_of_cons in Hfalse as [->|?]; done. }
    destruct (assigned !! i) as [[|]|] eqn:Hi; try (apply IH; [exact Hlen | by apply Hskip]).
    assert (Hlt : (i < length file_paths)%nat)
      by (rewrite <- Hlen; eapply lookup_lt_Some; exact Hi).
    destruct (lookup_lt_is_Some_2 filenames i) as [fname Hf]; [lia|].
    destruct (lookup_lt_is_Some_2 file_paths i) as [p Hp]; [lia|].
    rewrite Hf, Hp.
    pose proof (scan_candidates_spec fname
                  (seq (i + 1) (length filenames - (i + 1))) [p] (<[i := true]> assigned))
      as (Hl & [more Hmore] & Hmono & Hperm).
    destruct (scan_candidates _ _ _ _ _ _ _ _) as [group assigned'].
    simpl in Hl, Hmore, Hmono, Hperm.
    rewrite length_insert in Hl.
    destruct (IH (groups ++ [group]) assigned') as [IHp IHn].
    + congruence.
    + intros k Hk.
      assert (Hk' : assigned !! k = Some false /\ k <> i).
      { destruct (decide (k = i)) as [->|Hne].
        - rewrite (Hmono i) in Hk; [discriminate|].
          apply list_lookup_insert_eq. lia.
        - split; [|exact Hne].
          destruct (assigned !! k) as [[|]|] eqn:Ek; [|reflexivity|].
          + rewrite (Hmono k) in Hk; [discriminate|].
            by rewrite list_lookup_insert_ne.
          + apply lookup_ge_None in Ek. apply lookup_lt_Some in Hk. lia. }
      destruct Hk' as [Hk' Hne]. specialize (Hfalse k Hk').
      apply elem_of_cons in Hfalse as [->|?]; done.
    + split.
      * rewrite IHp, concat_app. simpl. rewrite app_nil_r, <- app_assoc.
        apply Permutation_app_head. rewrite Hperm. simpl.
        symmetry. by apply unassigned_mark.
      * intros Hg. apply IHn, Forall_app. split; [exact Hg|].
        constructor; [|constructor]. rewrite Hmore. discriminate.
Qed.

End GrouperFacts.

Lemma elem_of_concat {A} (ls : list (list A)) (x : A) :
  x ∈ concat ls <-> exists l, l ∈ ls /\ x ∈ l.
Proof.
  rewrite list_elem_of_In, in_concat.
  split; intros (l & Hl & Hx); exists l; split;
    first [by apply list_elem_of_In | by apply list_elem_of_In in Hl
          | by apply list_elem_of_In in Hx].
Qed.

Lemma NoDup_concat_disjoint {A} (ls : list (list A)) (i j : nat) (g1 g2 : list A) (x : A) :
  NoDup (concat ls) -> ls !! i = Some g1 -> ls !! j = Some g2 ->
  x ∈ g1 -> x ∈ g2 -> i = j.
Proof.
  revert i j. induction ls as [|l ls IH]; intros i j Hnd Hi Hj H1 H2; [discriminate|].
  simpl in Hnd. apply NoDup_app in Hnd as (Hl & Hdisj & Hls).
  assert (Hin : forall k g, ls !! k = Some g -> x ∈ g -> x ∈ concat ls).
  { intros k g Hk Hx. apply elem_of_concat. exists g. split; [|exact Hx].
    eapply list_elem_of_lookup_2, Hk. }
  destruct i as [|i], j as [|j]; simpl in *.
  - reflexivity.
  - injection Hi as <-. destruct (Hdisj x H1). eapply Hin; eassumption.
  - injection Hj as <-. destruct (Hdisj x H2). eapply Hin; eassumption.
  - f_equal. eapply IH; eassumption.
Qed.

(** *** The groups as sets of paths *)

Section GrouperSets.
Variable ratio : str -> str -> Q.
Variable threshold : Q.
Variable file_paths : list str.

(** A name's similarity with itself reaches the threshold. *)
Hypothesis self_similar :
  forall p, p ∈ file_paths ->
            Qle_bool threshold (ratio (basename p) (basename p)) = true.

(** What is added to the group was not assigned and passed the test. *)
Lemma scan_candidates_members (fname : str) (js : list nat) :
  forall (group : list str) (assigned : list bool) (p : str),
    p ∈ fst (scan_candidates ratio threshold file_paths (map basename file_paths)
               fname js group assigned) ->
    p ∈ group
    \/ exists j, assigned !! j = Some false /\ file_paths !! j = Some p
                 /\ Qle_bool threshold (ratio fname (basename p)) = true.
Proof.
  induction js as [|j js IH]; intros group assigned p; simpl; [auto|].
  destruct (assigned !! j) as [[|]|] eqn:Hj; try apply IH.
  destruct ((map basename file_paths) !! j) as [fj|] eqn:Hf; try apply IH.
  destruct (file_paths !! j) as [pj|] eqn:Hp; try apply IH.
  assert (fj = basename pj) as ->.
  { rewrite list_lookup_fmap, Hp in Hf. by injection Hf. }
  destruct (Qle_bool threshold (ratio fname (basename pj))) eqn:Ht; try apply IH.
  intros Hin. apply IH in Hin as [Hin|(j' & Hj' & Hp' & Ht')].
  - apply elem_of_app in Hin as [Hin|Hin]; [by left|].
    apply list_elem_of_singleton in Hin as ->. right. eauto.
  - right. exists j'. split; [|auto].
    destruct (decide (j = j')) as [<-|Hne].
    + rewrite list_lookup_insert_eq in Hj'; [discriminate|]. by eapply lookup_lt_Some.
    + by rewrite list_lookup_insert_ne in Hj'.
Qed.

Lemma scan_candidates_flags (fname : str) (js : list nat) :
  forall (group : list str) (assigned : list bool),
    let r := scan_candidates ratio threshold file_paths (map basename file_paths)
               fname js group assigned in
    length (snd r) = length assigned
    /\ forall k, assigned !! k = Some true -> snd r !! k = Some true.
Proof.
  intros group assigned.
  destruct (scan_candidates_spec ratio threshold file_paths (map basename file_paths)
              fname js group assigned)
    as (Hl & _ & Hm & _).
  auto.
Qed.

(** What is not assigned, is visited and passes the test is assigned. *)
Lemma scan_candidates_marks (fname : str) (js : list nat) :
  forall (group : list str) (assigned : list bool) (k : nat) (p : str),
    k ∈ js -> assigned !! k = Some false -> file_paths !! k = Some p ->
    Qle_bool threshold (ratio fname (basename p)) = true ->
    snd (scan_candidates ratio threshold file_paths (map basename file_paths)
           fname js group assigned) !! k
    = Some true.
Proof.
  induction js as [|j js IH]; intros group assigned k p Hk Hflag Hp Ht;
    [by apply elem_of_nil in Hk|].
  simpl. destruct (decide (k = j)) as [->|Hne].
  - rewrite Hflag, list_lookup_fmap, Hp. simpl. rewrite Ht.
    apply scan_candidates_flags. apply list_lookup_insert_eq. by eapply lookup_lt_Some.
  - apply elem_of_cons in Hk as [?|Hk]; [done|].
    destruct (assigned !! j) as [[|]|] eqn:Hj; try (by eapply IH).
    destruct ((map basename file_paths) !! j) as [fj|]; try (by eapply IH).
    destruct (file_paths !! j) as [pj|]; try (by eapply IH).
    destruct (Qle_bool threshold (ratio fname fj)); try (by eapply IH).
    eapply IH; try eassumption. by rewrite list_lookup_insert_ne.
Qed.

Lemma disjoint_groups_snoc (groups : list (list str)) (g : list str) :
  disjoint_groups groups -> (forall p, p ∈ g -> p ∉ concat groups) ->
  disjoint_groups (groups ++ [g]).
Proof.
  intros Hd Hnew i j g1 g2 p Hi Hj H1 H2.
  assert (Hold : forall k g', groups !! k = Some g' -> p ∈ g' -> p ∈ concat groups).
  { intros k g' Hk Hp. apply elem_of_concat. exists g'. split; [|exact Hp].
    eapply list_elem_of_lookup_2, Hk. }
  apply lookup_app_Some in Hi as [Hi|[Hi Hi']]; apply lookup_app_Some in Hj as [Hj|[Hj Hj']].
  - eapply Hd; eassumption.
  - apply list_lookup_singleton_Some in Hj' as [_ <-].
    destruct (Hnew p H2). eapply Hold; eassumption.
  - apply list_lookup_singleton_Some in Hi' as [_ <-].
    destruct (Hnew p H1). eapply Hold; eassumption.
  - apply list_lookup_singleton_Some in Hi' as [Hi' _].
    apply list_lookup_singleton_Some in Hj' as [Hj' _]. lia.
Qed.

Lemma scan_seeds_disjoint (m : nat) :
  forall (i : nat) (groups : list (list str)) (assigned : list bool),
    (i + m = length file_paths)%nat ->
    length assigned = length file_paths ->
    (forall k, (k < i)%nat -> assigned !! k = Some true) ->
    disjoint_groups groups ->
    (forall p k, p ∈ concat groups -> file_paths !! k = Some p ->
                 assigned !! k = Some true) ->
    disjoint_groups
      (scan_seeds ratio threshold file_paths (map basename file_paths) (seq i m) groups assigned).
Proof.
  induction m as [|m IH]; intros i groups assigned Hn Hlen Hbefore Hdisj Hall; simpl;
    [exact Hdisj|].
  assert (Hlt : (i < length file_paths)%nat) by lia.
  destruct (lookup_lt_is_Some_2 assigned i) as [flag Hflag]; [lia|].
  destruct (lookup_lt_is_Some_2 file_paths i) as [pi Hpi]; [lia|].
  rewrite Hflag, list_lookup_fmap, Hpi. simpl.
  assert (Hnext : forall flags : list bool,
             (forall k, (k < i)%nat -> flags !! k = Some true) ->
             flags !! i = Some true ->
             forall k, (k < S i)%nat -> flags !! k = Some true).
  { intros flags Hk Hi k Hlt'. destruct (decide (k = i)) as [->|?]; [exact Hi|].
    apply Hk. lia. }
  destruct flag.
  { apply IH; try assumption; [lia|]. by apply Hnext. }
  set (assigned0 := <[i := true]> assigned).
  assert (Hlen0 : length assigned0 = length file_paths)
    by (unfold assigned0; by rewrite length_insert).
  assert (Hi0 : assigned0 !! i = Some true)
    by (apply list_lookup_insert_eq; lia).
  assert (Hmono0 : forall k, assigned !! k = Some true -> assigned0 !! k = Some true).
  { intros k Hk. destruct (decide (k = i)) as [->|?]; [exact Hi0|].
    unfold assigned0. by rewrite list_lookup_insert_ne. }
  pose proof (scan_candidates_flags (basename pi)
                (seq (i + 1) (length (map basename file_paths) - (i + 1))) [pi] assigned0)
    as [Hlen' Hmono'].
  pose proof (scan_candidates_members (basename pi)
                (seq (i + 1) (length (map basename file_paths) - (i + 1))) [pi] assigned0) as Hmem.
  pose proof (scan_candidates_marks (basename pi)
                (seq (i + 1) (length (map basename file_paths) - (i + 1))) [pi] assigned0) as Hmark.
  destruct (scan_candidates _ _ _ _ _ _ _ _) as [group assigned']. simpl in *.
  assert (Hfree : forall p, p ∈ group ->
             Qle_bool threshold (ratio (basename pi) (basename p)) = true
             /\ exists j, assigned !! j = Some false /\ file_paths !! j = Some p).
  { intros p Hp. apply Hmem in Hp as [Hp|(j & Hj & Hpj & Ht)].
    - apply list_elem_of_singleton in Hp as ->. split.
      + apply self_similar. eapply list_elem_of_lookup_2, Hpi.
      + eauto.
    - split; [exact Ht|]. exists j. split; [|exact Hpj].
      destruct (decide (j = i)) as [->|?]; [congruence|].
      unfold assigned0 in Hj. by rewrite list_lookup_insert_ne in Hj. }
  apply IH.
  - lia.
  - congruence.
  - apply Hnext; [|by apply Hmono'].
    intros k Hk. apply Hmono', Hmono0, Hbefore, Hk.
  - apply disjoint_groups_snoc; [exact Hdisj|].
    intros p Hp Hold. destruct (Hfree p Hp) as (_ & j & Hj & Hpj).
    rewrite (Hall p j Hold Hpj) in Hj. discriminate.
  - intros p k Hp Hk. rewrite concat_app in Hp. simpl in Hp. rewrite app_nil_r in Hp.
    apply elem_of_app in Hp as [Hp|Hp].
    + apply Hmono', Hmono0. eapply Hall; eassumption.
    + destruct (Hfree p Hp) as (Ht & _).
      destruct (lookup_lt_is_Some_2 assigned0 k) as [[|] Hk0];
        [rewrite Hlen0; by eapply lookup_lt_Some | by apply Hmono' |].
      apply (Hmark k p); try assumption.
      assert (k <> i) by congruence.
      assert (~ (k < i)%nat).
      { intros Hki. apply Hbefore, Hmono0 in Hki. congruence. }
      apply lookup_lt_Some in Hk. rewrite length_map.
      apply elem_of_seq. lia.
Qed.

Lemma group_similar_filenames_disjoint :
  disjoint_groups (group_similar_filenames ratio threshold file_paths).
Proof.
  unfold group_similar_filenames. apply scan_seeds_disjoint.
  - rewrite length_map. lia.
  - rewrite length_replicate. apply length_map.
  - intros k Hk. lia.
  - intros i j g1 g2 p Hi. discriminate.
  - intros p k Hp. by apply elem_of_nil in Hp.
Qed.

End GrouperSets.

(** The groups partition the entries of the input, whatever the
    similarity and the threshold: their concatenation is a permutation of
    the input, no group is empty, and a path is in the input exactly when
    it is in some group.  No path is in two groups when the input has no
    repeated path, or when the similarity of every name with itself
    reaches the threshold. *)
Lemma group_similar_filenames_entries
    (ratio : str -> str -> Q) (threshold : Q) (file_paths : list str) :
  let groups := group_similar_filenames ratio threshold file_paths in
  Permutation (concat groups) file_paths
  /\ Forall (fun g => g <> []) groups
  /\ (forall p, p ∈ file_paths <-> exists g, g ∈ groups /\ p ∈ g)
  /\ (NoDup file_paths
      \/ (forall p, p ∈ file_paths ->
                    (threshold <= ratio (basename p) (basename p))%Q) ->
      disjoint_groups groups).
Proof.
  intros groups.
  destruct (scan_seeds_spec ratio threshold file_paths (map basename file_paths)
              (length_map _ _) (seq 0 (length (map basename file_paths))) []
              (replicate (length (map basename file_paths)) false)) as [Hperm Hne].
  { rewrite length_replicate. apply length_map. }
  { intros k Hk. apply lookup_lt_Some in Hk. rewrite length_replicate in Hk.
    apply elem_of_seq. lia. }
  fold (group_similar_filenames ratio threshold file_paths) in Hperm, Hne.
  fold groups in Hperm, Hne.
  rewrite length_map, unassigned_all in Hperm. simpl in Hperm.
  split; [exact Hperm|]. split; [apply Hne; constructor|]. split.
  - intros p. rewrite <- Hperm, elem_of_concat. reflexivity.
  - intros [Hnd|Hself].
    + intros i j g1 g2 p. apply NoDup_concat_disjoint.
      rewrite Hperm. exact Hnd.
    + apply group_similar_filenames_disjoint.
      intros p Hp. apply Qle_bool_iff, Hself, Hp.
Qed.

(** Claim C7.  In the contract of the grouping, a threshold of at most 1
    and a similarity that is 1 on equal strings, as the ratio of [difflib]
    is, the groups exactly partition the input, for every list of paths,
    with or without repeated paths: no path is in two groups, a path is in
    the input exactly when it is in some group, so every input path is in
    exactly one group; moreover the concatenation of the groups is a
    permutation of the input and no group is empty. *)
Theorem group_similar_filenames_partition
    (ratio : str -> str -> Q) (threshold : Q) (file_paths : list str) :
  (threshold <= 1)%Q ->
  (forall a, ratio a a == 1)%Q ->
  let groups := group_similar_filenames ratio threshold file_paths in
  disjoint_groups groups
  /\ (forall p, p ∈ file_paths <-> exists g, g ∈ groups /\ p ∈ g)
  /\ (forall p, p ∈ file_paths ->
        exists i g, groups !! i = Some g /\ p ∈ g
          /\ forall j g', groups !! j = Some g' -> p ∈ g' -> j = i)
  /\ Permutation (concat groups) file_paths
  /\ Forall (fun g => g <> []) groups.
Proof.
  intros Hthr Hself groups.
  destruct (group_similar_filenames_entries ratio threshold file_paths)
    as (Hperm & Hne & Hin & Hdisj).
  fold groups in Hperm, Hne, Hin, Hdisj.
  assert (Hd : disjoint_groups groups).
  { apply Hdisj. right. intros p _. rewrite (Hself (basename p)). exact Hthr. }
  split; [exact Hd|]. split; [exact Hin|]. split; [|split; assumption].
  intros p Hp. apply Hin in Hp as (g & Hg & Hpg).
  apply list_elem_of_lookup in Hg as [i Hi].
  exists i, g. split; [exact Hi|]. split; [exact Hpg|].
  intros j g' Hj Hpg'. exact (Hd j i g' g p Hj Hi Hpg' Hpg).
Qed.

(** Outside the contract.  With a threshold above 1 no name is similar
    enough to itself: a path that is given twice is the seed of two groups,
    so the groups are not disjoint and the path is in two of them. *)
Example group_similar_filenames_above_one :
  group_similar_filenames prefix_ratio (11 # 10) [u "/in/aa"; u "/in/aa"]
  = [[u "/in/aa"]; [u "/in/aa"]]
  /\ ~ disjoint_groups
        (group_similar_filenames prefix_ratio (11 # 10) [u "/in/aa"; u "/in/aa"]).
Proof.
  split; [vm_compute; reflexivity|].
  intros Hd.
  specialize (Hd 0%nat 1%nat [u "/in/aa"] [u "/in/aa"] (u "/in/aa")).
  discriminate Hd; first [reflexivity | apply list_elem_of_here].
Qed.

Lemma common_prefix_self (a : str) : common_prefix a a = length a.
Proof.
  induction a as [|x a IH]; simpl; [reflexivity|]. by rewrite N.eqb_refl, IH.
Qed.

Lemma prefix_ratio_self (a : str) : (prefix_ratio a a == 1)%Q.
Proof.
  unfold prefix_ratio. rewrite common_prefix_self.
  destruct (length a + length a)%nat as [|n] eqn:E; [reflexivity|].
  unfold Qeq. simpl Qnum. simpl Qden. lia.
Qed.

(** The claim at work: a path given twice with a path between that is
    not similar enough; the two entries are in the first group, the other
    path in the second, and no path is in both. *)
Lemma group_similar_filenames_partition_witness :
  group_similar_filenames prefix_ratio (9 # 10) repeated_paths
  = [[u "/in/aa"; u "/in/aa"]; [u "/in/aab"]]
  /\ disjoint_groups (group_similar_filenames prefix_ratio (9 # 10) repeated_paths)
  /\ Permutation (concat (group_similar_filenames prefix_ratio (9 # 10) repeated_paths))
       repeated_paths.
Proof.
  split; [vm_compute; reflexivity|].
  destruct (group_similar_filenames_partition prefix_ratio (9 # 10) repeated_paths)
    as (Hd & _ & _ & Hperm & _).
  - vm_compute. discriminate.
  - exact prefix_ratio_self.
  - split; assumption.
Defined.

(** Claim C8.  Grouping compares with the seed only.  For three paths
    given in the order A, B, C, with the ratio of the names of A and B at
    least the threshold, that of B and C at least the threshold, and that
    of A and C below it, the groups are A with B, then C alone: C is
    compared with the seed A and never with B. *)
Theorem group_similar_filenames_seed_relative
    (ratio : str -> str -> Q) (threshold : Q) (pA pB pC : str) :
  (threshold <= ratio (basename pA) (basename pB))%Q ->
  (threshold <= ratio (basename pB) (basename pC))%Q ->
  (ratio (basename pA) (basename pC) < threshold)%Q ->
  group_similar_filenames ratio threshold [pA; pB; pC] = [[pA; pB]; [pC]].
Proof.
  intros HAB _ HAC.
  apply Qle_bool_iff in HAB.
  assert (HAC' : Qle_bool threshold (ratio (basename pA) (basename pC)) = false).
  { apply not_true_is_false. intros Hle. apply Qle_bool_iff in Hle.
    exact (Qlt_not_le _ _ HAC Hle). }
  unfold group_similar_filenames. simpl. rewrite HAB. simpl. rewrite HAC'. reflexivity.
Qed.

(** The claim at work: the ratios are 4/5, 6/7 and 4/6 against 8/10. *)
Lemma group_similar_filenames_seed_relative_witness :
  group_similar_filenames prefix_ratio (8 # 10) three_paths
  = [[u "/in/aa"; u "/in/aab"]; [u "/in/aabc"]].
Proof.
  apply (group_similar_filenames_seed_relative prefix_ratio (8 # 10)
           (u "/in/aa") (u "/in/aab") (u "/in/aabc")).
  - vm_compute. discriminate.
  - vm_compute. discriminate.
  - vm_compute. reflexivity.
Defined.

(** The three files of the end-to-end example, with a similarity that
    puts names with the same first four characters together. *)
Example group_end_to_end :
  group_similar_filenames
    (fun a b => if bool_decide (take 4 a = take 4 b) then 1 else 0)%Q (8 # 10)
    [u "/in/img_1.png"; u "/in/img_2.png"; u "/in/report.pdf"]
  = [[u "/in/img_1.png"; u "/in/img_2.png"]; [u "/in/report.pdf"]].
Proof. vm_compute. reflexivity. Qed.

(** ** The executor *)

Section ExecutorFacts.
Context {FS : Type} `{OS FS}.

(** [report] ends well with the events of [report_events], or with an
    exception of the log write. *)
Lemma report_spec (silent : bool) (log_file : option str) (message : str)
    (w w' : world FS) (r : outcome unit) :
  report silent log_file message w = (r, w') ->
  (r = Ok tt /\ trace w' = trace w ++ report_events silent log_file message)
  \/ (exists e ev, r = Raise e /\ trace w' = trace w ++ [ev] /\ escapes_from e ev
                   /\ is_link_event ev = false).
Proof.
  unfold report, report_events. destruct silent.
  - destruct log_file as [[|c f]|]; try (intros [= <- <-]; left; by rewrite app_nil_r).
    unfold append_file. destruct (os_append _ _ _) as [fs' [e|]]; intros [= <- <-]; simpl.
    + right. exists e, (EvAppend (c :: f) (message ++ [newline]) (Some e)).
      repeat split. right. eauto.
    + left. auto.
  - unfold print. destruct (os_print _ _) as [fs' [e|]]; intros [= <- <-]; simpl.
    + right. exists e, (EvPrint message (Some e)).
      repeat split. right. right. eauto.
    + left. auto.
Qed.

(** One operation of a real run, once its directory is there: the link
    call never raises past the [try]. *)
Lemma try_link_spec (op : Operation) (w : world FS) :
  exists r fs',
    try_except (create_link op ;;; ret (created_message op))
               (fun e => ret (error_message op e)) w
    = (Ok (outcome_message op r), World fs' (trace w ++ [link_event op r])).
Proof.
  unfold try_except, bind, create_link, link_event, link, symlink.
  destruct (link_type op).
  - destruct (os_link _ _ _) as [fs' [e|]]; simpl.
    + by exists (Some e), fs'.
    + by exists None, fs'.
  - destruct (os_symlink _ _ _) as [fs' [e|]]; simpl.
    + by exists (Some e), fs'.
    + by exists None, fs'.
Qed.

Lemma execute_one_spec (dry_run silent : bool) (log_file : option str)
    (op : Operation) (w w' : world FS) (r : outcome unit) :
  execute_one dry_run silent log_file tt op w = (r, w') ->
  exists new, trace w' = trace w ++ new
    /\ ((r = Ok tt /\ turn_events dry_run silent log_file op new)
        \/ (exists e ev, r = Raise e /\ last new = Some ev /\ escapes_from e ev
              /\ (dry_run = true -> forallb (fun x => negb (is_link_event x)) new = true))).
Proof.
  unfold execute_one, bind at 1, makedirs.
  destruct (os_makedirs _ _) as [fs1 [e|]]; cbn [of_result fs trace].
  { intros [= <- <-]. eexists. split; [reflexivity|]. right.
    exists e, (EvMakedirs (dirname (destination op)) (Some e)).
    split; [reflexivity|]. split; [reflexivity|]. split; [left; eauto | reflexivity]. }
  unfold bind at 1.
  destruct dry_run.
  - unfold ret at 1. destruct (report _ _ _ _) as [r1 w1] eqn:Hr. intros [= <- <-].
    apply report_spec in Hr as [[-> Ht]|(e & ev & -> & Ht & Hev & Hl)];
      simpl in Ht; rewrite Ht, <- app_assoc; eexists; (split; [reflexivity|]).
    + left. split; reflexivity.
    + right. exists e, ev. split; [reflexivity|]. split; [reflexivity|].
      split; [exact Hev|]. intros _. simpl. rewrite Hl. reflexivity.
  - destruct (try_link_spec op
                (World fs1 (trace w ++ [EvMakedirs (dirname (destination op)) None])))
      as (rl & fs2 & ->).
    destruct (report _ _ _ _) as [r1 w1] eqn:Hr. intros [= <- <-].
    apply report_spec in Hr as [[-> Ht]|(e & ev & -> & Ht & Hev & Hl)];
      simpl in Ht; rewrite Ht, <- !app_assoc; eexists; (split; [reflexivity|]).
    + left. split; [reflexivity|]. exists rl. reflexivity.
    + right. exists e, ev. split; [reflexivity|]. split; [reflexivity|].
      split; [exact Hev | discriminate].
Qed.

(** The whole loop: the events of the turns that ended well, then, when
    an exception escapes, those of the turn it escaped from. *)
Lemma execute_operations_spec (dry_run silent : bool) (log_file : option str)
    (ops : list Operation) (w w' : world FS) (r : outcome unit) :
  execute_operations ops dry_run silent log_file w = (r, w') ->
  exists done_ news rest,
    Forall2 (turn_events dry_run silent log_file) done_ news
    /\ trace w' = trace w ++ concat news ++ rest
    /\ ((r = Ok tt /\ done_ = ops /\ rest = [])
        \/ (exists e ev, r = Raise e /\ last rest = Some ev /\ escapes_from e ev
              /\ (length done_ < length ops)%nat
              /\ (dry_run = true ->
                  forallb (fun x => negb (is_link_event x)) rest = true))).
Proof.
  unfold execute_operations. revert w.
  induction ops as [|op ops IH]; intros w; simpl.
  - intros [= <- <-]. exists [], [], []. split; [constructor|].
    split; [by rewrite app_nil_r | left; auto].
  - unfold bind at 1.
    destruct (execute_one _ _ _ _ _ _) as [[[]|e|] w1] eqn:H1;
      apply execute_one_spec in H1 as (new & Ht & Hcase).
    + destruct Hcase as [[_ Hnew]|(e & ev & [=] & _)].
      intros Hrest. apply IH in Hrest as (done_ & news & rest & Hall & Ht' & Hc).
      exists (op :: done_), (new :: news), rest.
      split; [by constructor|]. split.
      * rewrite Ht', Ht. simpl. by rewrite <- !app_assoc.
      * destruct Hc as [(-> & -> & ->)|(e & ev & -> & Hl & Hev & Hlen & Hd)].
        -- left. auto.
        -- right. exists e, ev. repeat split; try assumption. simpl. lia.
    + destruct Hcase as [[[=] _]|(e' & ev & [= <-] & Hl & Hev & Hd)].
      intros [= <- <-]. exists [], [], new.
      split; [constructor|]. split; [exact Ht|].
      right. exists e, ev. repeat split; try assumption. simpl. lia.
    + destruct Hcase as [[[=] _]|(e' & ev & [=] & _)].
Qed.

Lemma report_events_no_link (silent : bool) (log_file : option str) (message : str) :
  forallb (fun x => negb (is_link_event x)) (report_events silent log_file message) = true.
Proof. unfold report_events. destruct silent, log_file as [[|c f]|]; reflexivity. Qed.

Lemma dry_turns (silent : bool) (log_file : option str)
    (done_ : list Operation) (news : list (list event)) :
  Forall2 (turn_events true silent log_file) done_ news ->
  concat news = flat_map (dry_run_events silent log_file) done_.
Proof.
  induction 1 as [|op new done_ news Hnew _ IH]; [reflexivity|].
  simpl in *. rewrite Hnew, IH. reflexivity.
Qed.

Lemma live_turns (silent : bool) (log_file : option str)
    (done_ : list Operation) (news : list (list event)) :
  Forall2 (turn_events false silent log_file) done_ news ->
  exists results, length results = length done_
    /\ concat news = concat (zip_with (live_events silent log_file) done_ results).
Proof.
  induction 1 as [|op new done_ news [r Hnew] _ (results & Hlen & IH)].
  - exists []. auto.
  - exists (r :: results). simpl. rewrite Hlen, Hnew, IH. auto.
Qed.

Lemma flat_map_no_link (silent : bool) (log_file : option str) (ops : list Operation) :
  forallb (fun x => negb (is_link_event x))
    (flat_map (dry_run_events silent log_file) ops) = true.
Proof.
  induction ops as [|op ops IH]; [reflexivity|].
  simpl. rewrite forallb_app, report_events_no_link, IH. reflexivity.
Qed.

Lemma last_app_nonempty {A} (l l' : list A) (x : A) :
  last l' = Some x -> last (l ++ l') = Some x.
Proof. intros Hl. rewrite last_app, Hl. reflexivity. Qed.

(** Claim C1, amended to what the executor does.  With [dry_run] set no
    call of [os.link] or [os.symlink] is made, whatever the operations,
    the flags and the filesystem.  The run still acts on the filesystem:
    for every operation it calls [os.makedirs] on the directory of the
    destination, and it hands one message, Dry run: would create ..., to
    [report], which prints it, appends it to the log file in silent mode,
    or drops it in silent mode without a log file.  When the run ends well
    its events are exactly those of [dry_run_events], operation by
    operation; an exception that leaves the run was raised by
    [os.makedirs], by the log write or by [print]; the run does not
    loop. *)
Theorem dry_run_effects (ops : list Operation) (silent : bool)
    (log_file : option str) (w : world FS) :
  let run := execute_operations ops true silent log_file w in
  (exists new, trace (snd run) = trace w ++ new
               /\ forallb (fun x => negb (is_link_event x)) new = true)
  /\ (fst run = Ok tt ->
      trace (snd run) = trace w ++ flat_map (dry_run_events silent log_file) ops)
  /\ (forall e, fst run = Raise e ->
        exists ev, last (trace (snd run)) = Some ev /\ escapes_from e ev)
  /\ fst run <> Diverge.
Proof.
  intros run. subst run.
  destruct (execute_operations ops true silent log_file w) as [r w'] eqn:Hrun.
  apply execute_operations_spec in Hrun as (done_ & news & rest & Hturns & Ht & Hcase).
  apply dry_turns in Hturns. rewrite Hturns in Ht. simpl.
  split; [|split; [|split]].
  - exists (flat_map (dry_run_events silent log_file) done_ ++ rest).
    split; [exact Ht|]. rewrite forallb_app, flat_map_no_link. simpl.
    destruct Hcase as [(_ & _ & ->)|(e & ev & _ & _ & _ & _ & Hrest)]; auto.
  - intros ->. destruct Hcase as [(_ & -> & ->)|(e & ev & [=] & _)].
    rewrite Ht, app_nil_r. reflexivity.
  - intros e ->. destruct Hcase as [([=] & _)|(e' & ev & [= <-] & Hlast & Hev & _)].
    exists ev. split; [|exact Hev]. rewrite Ht.
    apply last_app_nonempty, last_app_nonempty, Hlast.
  - intros ->. destruct Hcase as [([=] & _)|(e' & ev & [=] & _)].
Qed.

(** Claim C2, amended.  In a real run a failure of the link call
    ([os.link] or [os.symlink]) is caught and stays with its operation:
    when the run ends well, every operation has had its directory ensured,
    its link call made once, with whatever result, and its own message
    reported, Created ... when the call succeeded and Error creating ...
    with the text of the exception when it raised, in the order of the
    operations.  The exceptions that leave the run are those of the calls
    outside the [try]: [os.makedirs], the log write and [print]. *)
Theorem link_failures_isolated (ops : list Operation) (silent : bool)
    (log_file : option str) (w : world FS) :
  let run := execute_operations ops false silent log_file w in
  (fst run = Ok tt ->
   exists results, length results = length ops
     /\ trace (snd run)
        = trace w ++ concat (zip_with (live_events silent log_file) ops results))
  /\ (forall e, fst run = Raise e ->
        exists ev, last (trace (snd run)) = Some ev /\ escapes_from e ev)
  /\ fst run <> Diverge.
Proof.
  intros run. subst run.
  destruct (execute_operations ops false silent log_file w) as [r w'] eqn:Hrun.
  apply execute_operations_spec in Hrun as (done_ & news & rest & Hturns & Ht & Hcase).
  apply live_turns in Hturns as (results & Hlen & Hnews). rewrite Hnews in Ht. simpl.
  split; [|split].
  - intros ->. destruct Hcase as [(_ & -> & ->)|(e & ev & [=] & _)].
    exists results. split; [exact Hlen|]. rewrite Ht, app_nil_r. reflexivity.
  - intros e ->. destruct Hcase as [([=] & _)|(e' & ev & [= <-] & Hlast & Hev & _)].
    exists ev. split; [|exact Hev]. rewrite Ht.
    apply last_app_nonempty, last_app_nonempty, Hlast.
  - intros ->. destruct Hcase as [([=] & _)|(e' & ev & [=] & _)].
Qed.

End ExecutorFacts.

(** Claim C1 as stated fails.  On [w_bare], where [/out/docs] does not
    exist, the dry run of one operation creates that directory; and in
    silent mode without a log file the run makes the same directory and
    reports nothing. *)
Lemma dry_run_counterexample :
  os_path_isdir (fs w_bare) (u "/out/docs") = false
  /\ os_path_isdir (fs (snd (execute_operations [op_a] true false None w_bare)))
       (u "/out/docs") = true
  /\ execute_operations [op_a] true true None w_bare
     = (Ok tt, World (fs (snd (execute_operations [op_a] true false None w_bare)))
                 [EvMakedirs (u "/out/docs") None]).
Proof. vm_compute. auto. Qed.

(** The amended claim at work: two operations, two messages. *)
Lemma dry_run_effects_witness :
  trace (snd (execute_operations [op_clash; op_bar] true false None w_home))
  = [EvMakedirs (u "/out/docs") None;
     EvPrint
       (u "Dry run: would create hardlink from '/in/a.txt' to '/out/docs/foo.txt'")
       None;
     EvMakedirs (u "/out/docs") None;
     EvPrint
       (u "Dry run: would create hardlink from '/in/b.txt' to '/out/docs/bar.txt'")
       None].
Proof.
  apply (dry_run_effects [op_clash; op_bar] false None w_home).
  vm_compute. reflexivity.
Defined.

(** In silent mode with a log file the dry run writes to that file. *)
Example dry_run_writes_log :
  os_path_exists (fs w_bare) (u "/log.txt") = false
  /\ os_path_exists
       (fs (snd (execute_operations [op_a] true true (Some (u "/log.txt")) w_bare)))
       (u "/log.txt") = true.
Proof. vm_compute. auto. Qed.

(** Claim C2 as stated fails.  On [w_blocked] a regular file is where the
    directory of the first destination should be: [os.makedirs] raises, the
    exception leaves the executor, and the second operation, whose
    directory exists, is never attempted. *)
Lemma link_failures_counterexample :
  execute_operations [op_a; op_b] false false None w_blocked
  = (Raise SimFS.enotdir,
     World (fs w_blocked) [EvMakedirs (u "/out/docs") (Some SimFS.enotdir)]).
Proof. vm_compute. reflexivity. Qed.

(** The amended claim at work: the first destination exists, the second
    operation is carried out all the same. *)
Lemma link_failures_isolated_witness :
  exists results, length results = 2%nat
    /\ trace (snd (execute_operations [op_clash; op_bar] false false None w_home))
       = trace w_home
         ++ concat (zip_with (live_events false None) [op_clash; op_bar] results).
Proof.
  apply (link_failures_isolated [op_clash; op_bar] false None w_home).
  vm_compute. reflexivity.
Defined.

Example link_failure_reported :
  trace (snd (execute_operations [op_clash; op_bar] false false None w_home))
  = [EvMakedirs (u "/out/docs") None;
     EvLink (u "/in/a.txt") (u "/out/docs/foo.txt") (Some SimFS.eexist);
     EvPrint
       (u "Error creating hardlink from '/in/a.txt' to '/out/docs/foo.txt': [Errno 17] File exists")
       None;
     EvMakedirs (u "/out/docs") None;
     EvLink (u "/in/b.txt") (u "/out/docs/bar.txt") None;
     EvPrint (u "Created hardlink from '/in/b.txt' to '/out/docs/bar.txt'") None].
Proof. vm_compute. reflexivity. Qed.

(** ** The planner *)

(** *** The counter in decimal *)

(** [str(n)] is the decimal numeral of [n] as [decimal] writes it, so the
    names the planner tries are those of the contract. *)
Lemma u_revapp (x y : Decimal.uint) :
  u (NilEmpty.string_of_uint (Decimal.revapp x y))
  = rev (u (NilEmpty.string_of_uint x)) ++ u (NilEmpty.string_of_uint y).
Proof.
  revert y. induction x as [|x IH|x IH|x IH|x IH|x IH|x IH|x IH|x IH|x IH|x IH];
    intros y; [reflexivity|..]; simpl Decimal.revapp; rewrite IH;
    cbn [NilEmpty.string_of_uint]; unfold u; cbn [list_ascii_of_string map rev];
    rewrite <- app_assoc; reflexivity.
Qed.

Lemma str_of_nat_little (n : nat) :
  str_of_nat n = rev (u (NilEmpty.string_of_uint (Unsigned.to_lu n))).
Proof.
  unfold str_of_nat. rewrite Unsigned.to_uint_alt. unfold Decimal.rev.
  rewrite u_revapp. simpl. by rewrite app_nil_r.
Qed.

Lemma to_lu_digits (q r : nat) :
  (r < 10)%nat ->
  u (NilEmpty.string_of_uint (Unsigned.to_lu (10 * q + r)))
  = (0x30 + N.of_nat r)
    :: (if (q =? 0)%nat then [] else u (NilEmpty.string_of_uint (Unsigned.to_lu q))).
Proof.
  intros Hr.
  assert (Hq : Unsigned.to_lu (10 * q)
               = if (q =? 0)%nat then Decimal.D0 Decimal.Nil
                 else Decimal.D0 (Unsigned.to_lu q)).
  { destruct q as [|q]; [reflexivity|]. by rewrite Unsigned.to_lu_tenfold. }
  do 10 (destruct r as [|r];
         [rewrite ?Nat.add_succ_r, Nat.add_0_r, ?Unsigned.to_lu_succ, Hq;
          destruct (q =? 0)%nat; reflexivity|]).
  lia.
Qed.

Lemma str_of_nat_step (n : nat) :
  str_of_nat n
  = (if (n <? 10)%nat then [] else str_of_nat (n / 10))
    ++ [0x30 + N.of_nat (n mod 10)].
Proof.
  rewrite (str_of_nat_little n), (str_of_nat_little (n / 10)).
  rewrite (Nat.div_mod_eq n 10) at 1.
  rewrite to_lu_digits by (apply Nat.mod_upper_bound; lia).
  cbn [rev]. f_equal.
  destruct (Nat.ltb_spec n 10) as [Hlt|Hge].
  - rewrite (Nat.div_small n 10 Hlt). reflexivity.
  - assert (Hq : (n / 10 <> 0)%nat).
    { intros Hz. apply Nat.div_small_iff in Hz; lia. }
    apply Nat.eqb_neq in Hq. rewrite Hq. reflexivity.
Qed.

Lemma str_of_nat_decimal_digits (fuel : nat) :
  forall n, (n < fuel)%nat -> str_of_nat n = decimal_digits fuel n.
Proof.
  induction fuel as [|fuel IH]; intros n Hn; [lia|].
  rewrite str_of_nat_step. cbn [decimal_digits]. f_equal.
  destruct (Nat.ltb_spec n 10) as [Hlt|Hge]; [reflexivity|].
  apply IH. pose proof (Nat.div_lt n 10). lia.
Qed.

Lemma str_of_nat_decimal (n : nat) : str_of_nat n = decimal n.
Proof. apply str_of_nat_decimal_digits. lia. Qed.

Lemma candidate_name_contract (fname ext : str) (k : nat) :
  candidate_name fname ext k = contract_name fname ext k.
Proof.
  destruct k as [|k]; [reflexivity|].
  unfold candidate_name, contract_name, numbered_name.
  by rewrite str_of_nat_decimal.
Qed.

Section PlannerFacts.
Context {FS : Type} `{OS FS}.

Lemma handle_duplicates_pure (fuel : nat) (fname ext dir_path : str) (counter : nat)
    (name path : str) (s : PlanningState * world FS) :
  handle_duplicates fuel fname ext dir_path counter name path s
  = (match first_free fuel (taken (renamed_files (fst s)) (fs (snd s)))
             fname ext dir_path counter name path with
     | Some free => Ok free
     | None => Diverge
     end, s).
Proof.
  revert counter name path. induction fuel as [|fuel IH]; intros counter name path;
    destruct s as [st w]; simpl; unfold bind, is_renamed, in_world, path_exists, taken;
    simpl; destruct (_ || _); try reflexivity.
  apply IH.
Qed.

Lemma choose_link_type_pure (fp path : str) (s : PlanningState * world FS) :
  choose_link_type fp path s
  = (match link_decision (fs (snd s)) fp path with
     | inl e => Raise e
     | inr lt => Ok lt
     end, s).
Proof.
  destruct s as [st w].
  unfold choose_link_type, link_decision, bind, in_world, path_isdir, stat_dev; simpl.
  destruct (os_path_isdir _ _); [reflexivity|].
  destruct (os_stat_dev _ fp); [reflexivity|].
  destruct (os_stat_dev _ (dirname path)); [reflexivity|].
  destruct (_ =? _); reflexivity.
Qed.

Lemma plan_record_eq (fuel : nat) (new_path : str) (operations : list Operation)
    (data : FileRecord) (s : PlanningState * world FS) :
  plan_record fuel new_path operations data s
  = plan_record_unfolded fuel new_path operations data s.
Proof.
  destruct s as [st w]. unfold plan_record, plan_record_unfolded.
  unfold bind at 1. unfold is_processed. cbn [fst snd].
  destruct (bool_decide _); [reflexivity|].
  unfold bind at 1. unfold mark_processed at 1. cbn [fst snd].
  fold (processed_add (file_path data) st).
  unfold bind at 1, field_error.
  destruct (foldername data) as [| |folder]; cbn [get_item raise ret];
    [reflexivity| |].
  - unfold bind at 1.
    destruct (filename data) as [| |fname]; cbn [get_item raise ret]; try reflexivity.
  - unfold bind at 1.
    destruct (filename data) as [| |fname]; cbn [get_item raise ret]; try reflexivity.
    unfold bind at 1. cbn [add_operand ret]. unfold bind at 1. cbn [join_operand ret].
    unfold bind at 1. unfold in_world at 1, makedirs. cbn [fst snd].
    destruct (os_makedirs _ _) as [fs1 [e|]]; cbn [of_result fs trace]; [reflexivity|].
    unfold bind at 1. rewrite handle_duplicates_pure. cbn [fst snd fs renamed_files processed_add].
    destruct (first_free _ _ _ _ _ _ _ _) as [[name path]|]; [|reflexivity].
    unfold bind at 1. rewrite choose_link_type_pure. cbn [fst snd fs].
    destruct (link_decision _ _ _); reflexivity.
Qed.

(** *** The loop that looks for a free name *)

Lemma first_free_not_taken (fuel : nat) (is_taken : str -> bool)
    (fname ext dir_path : str) (counter : nat) (name path name' path' : str) :
  first_free fuel is_taken fname ext dir_path counter name path = Some (name', path') ->
  is_taken path' = false.
Proof.
  revert counter name path. induction fuel as [|fuel IH]; intros counter name path; simpl;
    destruct (is_taken path) eqn:Ht; try discriminate; try (intros [= <- <-]; exact Ht).
  apply IH.
Qed.

Lemma first_free_least (is_taken : str -> bool) (fname ext dir_path : str) (n : nat) :
  forall (fuel i : nat),
    (forall j, (i <= j < i + n)%nat ->
               is_taken (candidate_path dir_path fname ext j) = true) ->
    is_taken (candidate_path dir_path fname ext (i + n)) = false ->
    (n <= fuel)%nat ->
    first_free fuel is_taken fname ext dir_path (S i)
      (candidate_name fname ext i) (candidate_path dir_path fname ext i)
    = Some (candidate_name fname ext (i + n), candidate_path dir_path fname ext (i + n)).
Proof.
  induction n as [|n IH]; intros fuel i Hbusy Hfree Hfuel.
  - rewrite Nat.add_0_r in *. destruct fuel; simpl; rewrite Hfree; reflexivity.
  - destruct fuel as [|fuel]; [lia|]. simpl.
    rewrite (Hbusy i) by lia.
    change (numbered_name fname ext (S i)) with (candidate_name fname ext (S i)).
    change (join dir_path (candidate_name fname ext (S i)))
      with (candidate_path dir_path fname ext (S i)).
    replace (i + S n)%nat with (S i + n)%nat in * by lia.
    apply IH; [|exact Hfree|lia].
    intros j Hj. apply Hbusy. lia.
Qed.

(** *** One record *)

Lemma plan_record_grows (fuel : nat) (new_path : str) (operations : list Operation)
    (data : FileRecord) (st st' : PlanningState) (w w' : world FS)
    (r : outcome (list Operation)) :
  plan_record fuel new_path operations data (st, w) = (r, (st', w')) ->
  (processed_files st ⊆ processed_files st') /\ (renamed_files st ⊆ renamed_files st').
Proof.
  rewrite plan_record_eq. unfold plan_record_unfolded. cbn [fst snd].
  destruct (bool_decide _); [intros [= <- <- <-]; done|].
  destruct (foldername data), (filename data);
    try (intros [= <- <- <-]; simpl; split; set_solver).
  destruct (os_makedirs _ _) as [fs1 [e|]];
    [intros [= <- <- <-]; simpl; split; set_solver|].
  destruct (first_free _ _ _ _ _ _ _ _) as [[name path]|];
    [|intros [= <- <- <-]; simpl; split; set_solver].
  destruct (link_decision _ _ _); intros [= <- <- <-]; simpl; split; set_solver.
Qed.

(** A record that is planned adds one operation, for a source that was not
    processed and to a destination that was not allocated. *)
Lemma plan_record_ok (fuel : nat) (new_path : str) (operations ops' : list Operation)
    (data : FileRecord) (st st' : PlanningState) (w w' : world FS) :
  plan_record fuel new_path operations data (st, w) = (Ok ops', (st', w')) ->
  ((file_path data ∈ processed_files st) /\ ops' = operations /\ st' = st /\ w' = w)
  \/ (exists op, ops' = operations ++ [op]
        /\ source op = file_path data
        /\ (source op ∉ processed_files st)
        /\ (destination op ∉ renamed_files st)
        /\ st' = renamed_add (destination op) (processed_add (source op) st)).
Proof.
  rewrite plan_record_eq. unfold plan_record_unfolded. cbn [fst snd].
  destruct (bool_decide _) eqn:Hseen.
  { intros [= <- <- <-]. left. apply bool_decide_eq_true in Hseen. auto. }
  apply bool_decide_eq_false in Hseen.
  destruct (foldername data), (filename data);
    try (unfold field_error; intros [=]; fail);
    try (destruct (field_error data); discriminate).
  destruct (os_makedirs _ _) as [fs1 [e|]]; [discriminate|].
  destruct (first_free _ _ _ _ _ _ _ _) as [[name path]|] eqn:Hfree; [|discriminate].
  destruct (link_decision _ _ _); [discriminate|].
  intros [= <- <- <-]. right. eexists. split; [reflexivity|]. simpl.
  repeat split; try assumption.
  apply first_free_not_taken in Hfree. unfold taken in Hfree.
  apply orb_false_iff in Hfree as [Hfree _]. by apply bool_decide_eq_false in Hfree.
Qed.

(** *** One call *)

Lemma planned_since_snoc (st0 st : PlanningState) (ops : list Operation) (op : Operation) :
  planned_since st0 st ops ->
  processed_files st0 ⊆ processed_files st -> renamed_files st0 ⊆ renamed_files st ->
  source op ∉ processed_files st -> destination op ∉ renamed_files st ->
  planned_since st0 (renamed_add (destination op) (processed_add (source op) st))
    (ops ++ [op]).
Proof.
  intros (Hs & Hd & Hall) Hp Hr Hsrc Hdst.
  rewrite Forall_forall in Hall.
  split; [|split].
  - rewrite map_app. apply NoDup_app. split; [exact Hs|]. split; [|apply NoDup_singleton].
    intros x Hx Hx'. apply list_elem_of_singleton in Hx'. subst x.
    apply list_elem_of_fmap in Hx as (op' & E & Hin). apply Hall in Hin. rewrite E in Hsrc.
    tauto.
  - rewrite map_app. apply NoDup_app. split; [exact Hd|]. split; [|apply NoDup_singleton].
    intros x Hx Hx'. apply list_elem_of_singleton in Hx'. subst x.
    apply list_elem_of_fmap in Hx as (op' & E & Hin). apply Hall in Hin. rewrite E in Hdst.
    tauto.
  - apply Forall_app. split.
    + apply Forall_forall. intros op' Hin. apply Hall in Hin. simpl.
      set_unfold. tauto.
    + constructor; [|constructor]. simpl. set_unfold. intuition auto.
Qed.

Lemma for_each_plan_spec (fuel : nat) (new_path : str) (st0 : PlanningState)
    (data_list : list FileRecord) :
  forall (acc : list Operation) (st st' : PlanningState) (w w' : world FS)
         (r : outcome (list Operation)),
    for_each data_list (plan_record fuel new_path) acc (st, w) = (r, (st', w')) ->
    processed_files st0 ⊆ processed_files st -> renamed_files st0 ⊆ renamed_files st ->
    planned_since st0 st acc ->
    (processed_files st ⊆ processed_files st') /\ (renamed_files st ⊆ renamed_files st')
    /\ (forall ops, r = Ok ops -> planned_since st0 st' ops).
Proof.
  induction data_list as [|data data_list IH]; intros acc st st' w w' r; simpl.
  - intros [= <- <- <-] _ _ Hacc. split; [done|]. split; [done|]. by intros ops [= <-].
  - unfold bind at 1.
    destruct (plan_record fuel new_path acc data (st, w)) as [r1 [st1 w1]] eqn:H1.
    pose proof (plan_record_grows _ _ _ _ _ _ _ _ _ H1) as [Hp1 Hr1].
    intros Hrun Hp Hr Hacc.
    destruct r1 as [acc1|e|].
    + assert (Hacc1 : planned_since st0 st1 acc1).
      { apply plan_record_ok in H1
          as [(_ & -> & -> & ->)|(op & -> & Hsrc & Hnp & Hnr & ->)]; [exact Hacc|].
        by apply planned_since_snoc. }
      apply IH in Hrun as (Hp2 & Hr2 & Hok);
        [|by etransitivity|by etransitivity|exact Hacc1].
      split; [by etransitivity|]. split; [by etransitivity|]. exact Hok.
    + injection Hrun as <- <- <-. split; [exact Hp1|]. split; [exact Hr1|]. discriminate.
    + injection Hrun as <- <- <-. split; [exact Hp1|]. split; [exact Hr1|]. discriminate.
Qed.

Lemma planned_since_nil (st0 st : PlanningState) : planned_since st0 st [].
Proof. split; [constructor|]. split; constructor. Qed.

Lemma compute_operations_spec (fuel : nat) (data_list : list FileRecord) (new_path : str)
    (st st' : PlanningState) (w w' : world FS) (r : outcome (list Operation)) :
  compute_operations fuel data_list new_path (st, w) = (r, (st', w')) ->
  (processed_files st ⊆ processed_files st') /\ (renamed_files st ⊆ renamed_files st')
  /\ (forall ops, r = Ok ops -> planned_since st st' ops).
Proof.
  intros Hrun. eapply for_each_plan_spec; [exact Hrun|done|done|apply planned_since_nil].
Qed.

(** *** Several calls on the same sets *)

Lemma plan_calls_spec (fuel : nat)
    (calls : list (list FileRecord * str * (world FS -> world FS))) :
  forall (st : PlanningState) (w : world FS),
    let results := fst (plan_calls fuel calls (st, w)) in
    Forall (fun r => forall ops, r = Ok ops -> NoDup (map destination ops)) results
    /\ planned_since st (fst (snd (plan_calls fuel calls (st, w)))) (returned results)
    /\ (processed_files st ⊆ processed_files (fst (snd (plan_calls fuel calls (st, w)))))
    /\ (renamed_files st ⊆ renamed_files (fst (snd (plan_calls fuel calls (st, w))))).
Proof.
  induction calls as [|[[data_list new_path] between] calls IH]; intros st w; simpl.
  - split; [constructor|]. split; [apply planned_since_nil|]. done.
  - cbn [fst snd].
    destruct (compute_operations fuel data_list new_path (st, between w))
      as [r [st1 w1]] eqn:H1.
    apply compute_operations_spec in H1 as (Hp1 & Hr1 & Hok).
    specialize (IH st1 w1). simpl in IH.
    destruct (plan_calls fuel calls (st1, w1)) as [rs [st2 w2]]. simpl in *.
    destruct IH as (Hall & (Hs & Hd & Hrest) & Hp2 & Hr2).
    assert (Hthis : planned_since st st1 (match r with Ok ops => ops | _ => [] end)).
    { destruct r; [by apply Hok | apply planned_since_nil | apply planned_since_nil]. }
    split; [|split; [|split; by etransitivity]].
    + constructor; [|exact Hall]. intros ops ->. apply Hthis.
    + unfold returned. simpl. fold (returned rs).
      destruct Hthis as (Hs1 & Hd1 & Hall1).
      rewrite Forall_forall in Hall1, Hrest.
      split; [|split].
      * rewrite map_app. apply NoDup_app. split; [exact Hs1|]. split; [|exact Hs].
        intros x Hx Hx'.
        apply list_elem_of_fmap in Hx as (op & -> & Hin).
        apply list_elem_of_fmap in Hx' as (op' & E & Hin').
        apply Hall1 in Hin. apply Hrest in Hin'. rewrite E in Hin. tauto.
      * rewrite map_app. apply NoDup_app. split; [exact Hd1|]. split; [|exact Hd].
        intros x Hx Hx'.
        apply list_elem_of_fmap in Hx as (op & -> & Hin).
        apply list_elem_of_fmap in Hx' as (op' & E & Hin').
        apply Hall1 in Hin. apply Hrest in Hin'. rewrite E in Hin. tauto.
      * apply Forall_app. split; apply Forall_forall; intros op Hin.
        -- apply Hall1 in Hin. set_unfold. intuition auto.
        -- apply Hrest in Hin. set_unfold. intuition auto.
Qed.

(** Claim C4.  For any sequence of calls of [compute_operations] on the
    same two sets, whatever happens to the filesystem in between and
    whether or not some of the calls raise: the operations a call returns
    have pairwise distinct destinations, no source occurs twice among the
    operations returned by all the calls, and no returned operation has a
    source that was in [processed_files] at the start. *)
Theorem plan_calls_distinct (fuel : nat)
    (calls : list (list FileRecord * str * (world FS -> world FS)))
    (st : PlanningState) (w : world FS) :
  let results := fst (plan_calls fuel calls (st, w)) in
  Forall (fun r => forall ops, r = Ok ops -> NoDup (map destination ops)) results
  /\ NoDup (map source (returned results))
  /\ Forall (fun op => source op ∉ processed_files st) (returned results).
Proof.
  destruct (plan_calls_spec fuel calls st w) as (Hall & (Hs & _ & Hin) & _).
  split; [exact Hall|]. split; [exact Hs|].
  eapply Forall_impl; [exact Hin|]. simpl. tauto.
Qed.

(** *** Records without a folder name or a file name *)

Lemma for_each_app {S A X} (xs ys : list X) (body : A -> X -> M S A) (acc : A) (s : S) :
  for_each (xs ++ ys) body acc s
  = bind (for_each xs body acc) (for_each ys body) s.
Proof.
  revert acc s. induction xs as [|x xs IH]; intros acc s; simpl; [reflexivity|].
  unfold bind. destruct (body acc x s) as [[acc'|e|] s']; try reflexivity.
  apply IH.
Qed.


(** *** The name that is chosen *)

(** Claim C5.  Take a record that gets planned: its source is not yet
    processed, its folder name and file name are strings, its target
    directory can be made and the kind of link can be decided.  Let the
    names of the contract be the file name with the extension of the
    source, at rank 0, and at rank [k] from 1 on the file name, a low
    line, the counter [k] written in decimal, and the extension
    ([contract_name], which does not use the code of the planner); the
    candidates are these names joined to the target directory.  If the
    candidate of rank [k] is the first that is neither in [renamed_files]
    nor present on the filesystem, and the loop is given at least [k]
    iterations, the operation gets it as its destination and the name of
    rank [k] as its name: the counter starts at 1 and goes up by one until
    a path is free.  With [foo.txt] present and [foo_1.txt] free that is
    [foo_1.txt]; with [foo_1.txt] to [foo_9.txt] allocated as well it is
    [foo_10.txt]. *)
Theorem plan_record_first_free (fuel : nat) (new_path : str)
    (operations : list Operation) (data : FileRecord)
    (st : PlanningState) (w : world FS)
    (folder fname : str) (fs1 : FS) (k : nat) (lt : LinkType) :
  let ext := snd (splitext (file_path data)) in
  let dir_path := join new_path folder in
  file_path data ∉ processed_files st ->
  foldername data = PyStr folder ->
  filename data = PyStr fname ->
  os_makedirs (fs w) dir_path = (fs1, None) ->
  (forall j, (j < k)%nat ->
     taken (renamed_files st) fs1 (join dir_path (contract_name fname ext j)) = true) ->
  taken (renamed_files st) fs1 (join dir_path (contract_name fname ext k)) = false ->
  (k <= fuel)%nat ->
  link_decision fs1 (file_path data) (join dir_path (contract_name fname ext k))
  = inr lt ->
  plan_record fuel new_path operations data (st, w)
  = (Ok (operations ++ [{| source := file_path data;
                           destination := join dir_path (contract_name fname ext k);
                           link_type := lt;
                           folder_name := folder;
                           new_file_name := contract_name fname ext k |}]),
     (renamed_add (join dir_path (contract_name fname ext k))
        (processed_add (file_path data) st),
      World fs1 (trace w ++ [EvMakedirs dir_path None]))).
Proof.
  intros ext dir_path Hnew Hfolder Hname Hmk Hbusy Hfree Hfuel Hlink.
  rewrite <- (candidate_name_contract fname ext k) in *.
  fold (candidate_path dir_path fname ext k) in *.
  assert (Hbusy' : forall j, (j < k)%nat ->
            taken (renamed_files st) fs1 (candidate_path dir_path fname ext j) = true).
  { intros j Hj. unfold candidate_path. rewrite candidate_name_contract.
    by apply Hbusy. }
  rewrite plan_record_eq. unfold plan_record_unfolded. cbn [fst snd].
  rewrite bool_decide_eq_false_2 by exact Hnew.
  rewrite Hfolder, Hname. fold ext dir_path. rewrite Hmk.
  pose proof (first_free_least (taken (renamed_files st) fs1) fname ext dir_path k fuel 0)
    as Hleast.
  cbn [Nat.add] in Hleast.
  change (candidate_name fname ext 0) with (fname ++ ext) in Hleast.
  change (candidate_path dir_path fname ext 0) with (join dir_path (fname ++ ext))
    in Hleast.
  rewrite Hleast; [|intros j Hj; apply Hbusy'; lia|exact Hfree|exact Hfuel].
  rewrite Hlink. reflexivity.
Qed.

(** *** The kind of link *)

(** Claim C6.  For every record that is planned, the operation it yields
    has link type [symlink] when the source is a directory, whatever the
    devices; otherwise the two device numbers could be read, and the link
    type is [hardlink] when the device of the source equals that of the
    directory of the destination and [symlink] when they differ.  The
    filesystem is the one the planner sees at that point, the target
    directory made. *)
Theorem plan_record_link_type (fuel : nat) (new_path : str)
    (operations ops' : list Operation) (data : FileRecord)
    (st st' : PlanningState) (w w' : world FS) :
  plan_record fuel new_path operations data (st, w) = (Ok ops', (st', w')) ->
  file_path data ∉ processed_files st ->
  exists op, ops' = operations ++ [op]
    /\ source op = file_path data
    /\ (os_path_isdir (fs w') (source op) = true -> link_type op = Symlink)
    /\ (os_path_isdir (fs w') (source op) = false ->
        exists source_dev dest_dev,
          os_stat_dev (fs w') (source op) = inr source_dev
          /\ os_stat_dev (fs w') (dirname (destination op)) = inr dest_dev
          /\ (source_dev = dest_dev -> link_type op = Hardlink)
          /\ (source_dev <> dest_dev -> link_type op = Symlink)).
Proof.
  rewrite plan_record_eq. unfold plan_record_unfolded. cbn [fst snd].
  intros Hrun Hnew. rewrite bool_decide_eq_false_2 in Hrun by exact Hnew.
  destruct (foldername data), (filename data);
    try (destruct (field_error data); discriminate).
  destruct (os_makedirs _ _) as [fs1 [e|]]; [discriminate|].
  destruct (first_free _ _ _ _ _ _ _ _) as [[name path]|]; [|discriminate].
  destruct (link_decision _ _ _) as [e|lt] eqn:Hlink; [discriminate|].
  injection Hrun as <- <- <-. eexists. split; [reflexivity|]. simpl.
  unfold link_decision in Hlink.
  split; [reflexivity|]. split.
  - intros Hdir. rewrite Hdir in Hlink. congruence.
  - intros Hdir. rewrite Hdir in Hlink.
    destruct (os_stat_dev fs1 (file_path data)) as [e|source_dev]; [discriminate|].
    destruct (os_stat_dev fs1 (dirname path)) as [e|dest_dev]; [discriminate|].
    exists source_dev, dest_dev. split; [reflexivity|]. split; [reflexivity|].
    injection Hlink as <-.
    destruct (N.eqb_spec source_dev dest_dev); split; congruence.
Qed.

End PlannerFacts.

(** The claim at work: two calls on the same sets, with repeated records. *)
Lemma plan_calls_distinct_witness :
  NoDup (map source
    (returned (fst (plan_calls 5 [([rec_a; rec_b; rec_a], u "/out", id);
                                  ([rec_b; rec_a], u "/out", id)]
                      (st_empty, w_home))))).
Proof.
  apply (plan_calls_distinct 5 [([rec_a; rec_b; rec_a], u "/out", id);
                                ([rec_b; rec_a], u "/out", id)] st_empty w_home).
Defined.



(** The record whose source does not exist: [os.stat] raises, and the
    record after it is not planned. *)
Example plan_missing_source :
  fst (compute_operations 5 [rec_missing; rec_b] (u "/out") (st_empty, w_home))
  = Raise SimFS.enoent
  /\ os_stat_dev (fs w_home) (u "/in/missing.txt") = inl SimFS.enoent.
Proof. vm_compute. auto. Qed.

(** The claim at work: [/out/docs/foo.txt] exists and [foo_1.txt] is
    free; and with [foo_1.txt] to [foo_9.txt] allocated before, the
    counter goes up to 10. *)
Lemma plan_record_first_free_witness :
  fst (plan_record 5 (u "/out") [] rec_a (st_empty, w_home))
  = Ok [{| source := u "/in/a.txt";
           destination := u "/out/docs/foo_1.txt";
           link_type := Hardlink;
           folder_name := u "docs";
           new_file_name := u "foo_1.txt" |}]
  /\ fst (plan_record 12 (u "/out") [] rec_a (st_nine, w_home))
     = Ok [{| source := u "/in/a.txt";
              destination := u "/out/docs/foo_10.txt";
              link_type := Hardlink;
              folder_name := u "docs";
              new_file_name := u "foo_10.txt" |}].
Proof.
  split.
  - rewrite (plan_record_first_free 5 (u "/out") [] rec_a st_empty w_home
               (u "docs") (u "foo") (fs w_home) 1 Hardlink).
    + vm_compute. reflexivity.
    + apply not_elem_of_empty.
    + reflexivity.
    + reflexivity.
    + vm_compute. reflexivity.
    + intros j Hj. assert (j = 0%nat) as -> by lia. vm_compute. reflexivity.
    + vm_compute. reflexivity.
    + lia.
    + vm_compute. reflexivity.
  - rewrite (plan_record_first_free 12 (u "/out") [] rec_a st_nine w_home
               (u "docs") (u "foo") (fs w_home) 10 Hardlink).
    + vm_compute. reflexivity.
    + apply not_elem_of_empty.
    + reflexivity.
    + reflexivity.
    + vm_compute. reflexivity.
    + intros j Hj.
      do 10 (destruct j as [|j]; [vm_compute; reflexivity|]). lia.
    + vm_compute. reflexivity.
    + lia.
    + vm_compute. reflexivity.
Defined.

(** Two records with the same generated name in one call: the first gets
    [foo_1.txt] because [foo.txt] exists, the second [foo_2.txt] because
    [foo_1.txt] is now in [renamed_files]. *)
Example plan_batch_collision :
  match fst (compute_operations 5
               [rec_a; {| file_path := u "/in/b.txt";
                          foldername := PyStr (u "docs");
                          filename := PyStr (u "foo") |}]
               (u "/out") (st_empty, w_home)) with
  | Ok ops => map destination ops
  | _ => []
  end = [u "/out/docs/foo_1.txt"; u "/out/docs/foo_2.txt"].
Proof. vm_compute. reflexivity. Qed.

(** The claim at work: a file on the device of the destination. *)
Lemma plan_record_link_type_witness :
  exists op, [op_bar] = [] ++ [op]
    /\ source op = file_path rec_b
    /\ (os_path_isdir (fs w_home) (source op) = true -> link_type op = Symlink)
    /\ (os_path_isdir (fs w_home) (source op) = false ->
        exists source_dev dest_dev,
          os_stat_dev (fs w_home) (source op) = inr source_dev
          /\ os_stat_dev (fs w_home) (dirname (destination op)) = inr dest_dev
          /\ (source_dev = dest_dev -> link_type op = Hardlink)
          /\ (source_dev <> dest_dev -> link_type op = Symlink)).
Proof.
  apply (plan_record_link_type 5 (u "/out") [] [op_bar] rec_b st_empty
           (renamed_add (u "/out/docs/bar.txt") (processed_add (u "/in/b.txt") st_empty))
           w_home (World (fs w_home) [EvMakedirs (u "/out/docs") None])).
  - vm_compute. reflexivity.
  - apply not_elem_of_empty.
Defined.

(** A directory is linked symbolically, and so is a file on another
    device. *)
Example plan_link_types :
  match fst (compute_operations 5 [rec_album; rec_c; rec_b] (u "/out")
               (st_empty, w_home)) with
  | Ok ops => map link_type ops
  | _ => []
  end = [Symlink; Symlink; Hardlink].
Proof. vm_compute. reflexivity. Qed.

(** ** The numbered names are pairwise distinct *)

Lemma u_inj (s1 s2 : string) : u s1 = u s2 -> s1 = s2.
Proof.
  unfold u. intros E.
  assert (E' : list_ascii_of_string s1 = list_ascii_of_string s2).
  { revert E. generalize (list_ascii_of_string s1), (list_ascii_of_string s2).
    induction l as [|a l IH]; intros [|b l']; simpl; try discriminate; [reflexivity|].
    intros [= Hab Hl]. f_equal; [|by apply IH].
    rewrite <- (ascii_N_embedding a), <- (ascii_N_embedding b), Hab. reflexivity. }
  rewrite <- (string_of_list_ascii_of_string s1), <- (string_of_list_ascii_of_string s2), E'.
  reflexivity.
Qed.

Lemma str_of_nat_inj (n m : nat) : str_of_nat n = str_of_nat m -> n = m.
Proof.
  unfold str_of_nat. intros E. apply u_inj in E.
  apply DecimalNat.Unsigned.to_uint_inj.
  assert (Some (Nat.to_uint n) = Some (Nat.to_uint m)) as [= ->]; [|reflexivity].
  rewrite <- !NilEmpty.usu, E. reflexivity.
Qed.

(** [join] puts the same thing in front of two names that start alike. *)
Lemma join_prefix (a b b' : str) :
  head b = head b' -> exists pre, join a b = pre ++ b /\ join a b' = pre ++ b'.
Proof.
  intros Hh. unfold join. rewrite Hh.
  destruct (bool_decide (head b' = Some sep)); [by exists []|].
  destruct (_ || _); [by exists a|].
  exists (a ++ [sep]). by rewrite <- !app_assoc.
Qed.

Lemma numbered_name_head (fname ext : str) (i j : nat) :
  head (numbered_name fname ext i) = head (numbered_name fname ext j).
Proof. unfold numbered_name. destruct fname; reflexivity. Qed.

Lemma candidate_path_inj (dir_path fname ext : str) (i j : nat) :
  candidate_path dir_path fname ext (S i) = candidate_path dir_path fname ext (S j) ->
  i = j.
Proof.
  unfold candidate_path, candidate_name.
  destruct (join_prefix dir_path _ _ (numbered_name_head fname ext (S i) (S j)))
    as (pre & -> & ->).
  intros E. apply app_inv_head in E. unfold numbered_name in E.
  apply app_inv_head, app_inv_head, app_inv_tail, str_of_nat_inj in E. lia.
Qed.

(** ** The loop ends when finitely many paths are taken *)

Lemma forallb_false_witness {A} (f : A -> bool) (l : list A) :
  forallb f l = false -> exists x, In x l /\ f x = false.
Proof.
  induction l as [|x l IH]; simpl; [discriminate|].
  destruct (f x) eqn:Hx; simpl.
  - intros Hl. destruct (IH Hl) as (y & Hy & Hfy). eauto.
  - eauto.
Qed.

Lemma least_false (P : nat -> bool) (n : nat) :
  P n = false -> exists k, (k <= n)%nat /\ P k = false /\ forall j, (j < k)%nat -> P j = true.
Proof.
  induction n as [n IH] using lt_wf_ind. intros Hn.
  destruct (forallb P (seq 0 n)) eqn:Hall.
  - exists n. split; [lia|]. split; [exact Hn|].
    intros j Hj. rewrite forallb_forall in Hall. apply Hall, in_seq. lia.
  - apply forallb_false_witness in Hall as (m & Hm & Hfm). apply in_seq in Hm.
    destruct (IH m) as (k & Hk & Hfk & Hlt); [lia|exact Hfm|].
    exists k. split; [lia|]. auto.
Qed.

Lemma some_candidate_free (is_taken : str -> bool) (l : list str)
    (dir_path fname ext : str) :
  (forall p, is_taken p = true -> In p l) ->
  exists k, (k <= S (length l))%nat
    /\ is_taken (candidate_path dir_path fname ext k) = false
    /\ forall j, (j < k)%nat -> is_taken (candidate_path dir_path fname ext j) = true.
Proof.
  intros Hl.
  set (cs := map (fun i => candidate_path dir_path fname ext (S i)) (seq 0 (S (length l)))).
  assert (Hnd : List.NoDup cs).
  { apply Injective_map_NoDup; [|apply seq_NoDup].
    intros i j. apply candidate_path_inj. }
  destruct (forallb is_taken cs) eqn:Hall.
  - rewrite forallb_forall in Hall.
    assert (Hincl : incl cs l) by (intros p Hp; apply Hl, Hall, Hp).
    apply (NoDup_incl_length Hnd) in Hincl.
    unfold cs in Hincl. rewrite length_map, length_seq in Hincl. lia.
  - apply forallb_false_witness in Hall as (p & Hp & Hfree).
    unfold cs in Hp. apply in_map_iff in Hp as (i & <- & Hi). apply in_seq in Hi.
    destruct (least_false (fun k => is_taken (candidate_path dir_path fname ext k)) (S i) Hfree)
      as (k & Hk & Hfk & Hlt).
    exists k. split; [lia|]. auto.
Qed.

(** The search for a free name returns as soon as the paths that are taken
    are finitely many and the loop may run once more than their number. *)
Lemma handle_duplicates_returns {FS : Type} `{OS FS}
    (fuel : nat) (fname ext dir_path : str)
    (s : PlanningState * world FS) (l : list str) :
  (forall p, taken (renamed_files (fst s)) (fs (snd s)) p = true -> In p l) ->
  (S (length l) <= fuel)%nat ->
  exists k,
    handle_duplicates fuel fname ext dir_path 1 (fname ++ ext)
      (join dir_path (fname ++ ext)) s
    = (Ok (candidate_name fname ext k, candidate_path dir_path fname ext k), s)
    /\ taken (renamed_files (fst s)) (fs (snd s))
         (candidate_path dir_path fname ext k) = false.
Proof.
  intros Hl Hfuel.
  destruct (some_candidate_free _ l dir_path fname ext Hl) as (k & Hk & Hfree & Hbusy).
  exists k. split; [|exact Hfree].
  rewrite handle_duplicates_pure.
  pose proof (first_free_least (taken (renamed_files (fst s)) (fs (snd s)))
                fname ext dir_path k fuel 0) as Hleast.
  cbn [Nat.add] in Hleast.
  change (candidate_name fname ext 0) with (fname ++ ext) in Hleast.
  change (candidate_path dir_path fname ext 0) with (join dir_path (fname ++ ext))
    in Hleast.
  rewrite Hleast; [reflexivity| |exact Hfree|lia].
  intros j Hj. apply Hbusy. lia.
Qed.

(** *** On the concrete filesystem *)

Lemma simfs_resolve_lookup (fuel : nat) (m : SimFS.t) (p : str) (n : SimFS.node) :
  SimFS.resolve fuel m p = Some n -> is_Some (m !! p).
Proof.
  destruct fuel; simpl; destruct (m !! p) as [[]|]; try discriminate; eauto.
Qed.

Lemma simfs_taken_finite (renamed : gset str) (m : SimFS.t) (p : str) :
  taken renamed m p = true -> In p (elements renamed ++ elements (dom m)).
Proof.
  unfold taken. intros Ht. apply in_or_app. apply orb_true_iff in Ht as [Ht|Ht].
  - left. apply bool_decide_eq_true in Ht. apply list_elem_of_In, elem_of_elements, Ht.
  - right. simpl in Ht. unfold SimFS.path_exists in Ht.
    destruct (SimFS.resolve _ m p) eqn:Hr; [|discriminate].
    apply simfs_resolve_lookup in Hr.
    apply list_elem_of_In, elem_of_elements, elem_of_dom, Hr.
Qed.

(** There the loop always returns, given one iteration more than there are
    allocated destinations and entries. *)
Lemma simfs_handle_duplicates_returns (fuel : nat) (fname ext dir_path : str)
    (st : PlanningState) (w : world SimFS.t) :
  (S (size (renamed_files st) + size (fs w)) <= fuel)%nat ->
  exists k,
    handle_duplicates fuel fname ext dir_path 1 (fname ++ ext)
      (join dir_path (fname ++ ext)) (st, w)
    = (Ok (candidate_name fname ext k, candidate_path dir_path fname ext k), (st, w)).
Proof.
  intros Hfuel.
  destruct (handle_duplicates_returns fuel fname ext dir_path (st, w)
              (elements (renamed_files st) ++ elements (dom (fs w)))) as (k & Hk & _).
  - intros p. apply simfs_taken_finite.
  - rewrite length_app.
    change (length (elements (renamed_files st))) with (size (renamed_files st)).
    change (length (elements (dom (fs w)))) with (size (dom (fs w))).
    rewrite size_dom. exact Hfuel.
  - eauto.
Qed.

(* ===================================================================== *)
(** * Part III: further properties                                        *)
(* ===================================================================== *)

(** ** What a call of the planner returns and leaves behind *)

Section PlannerMore.
Context {FS : Type} `{OS FS}.

Lemma first_free_candidate (is_taken : str -> bool) (fname ext dir_path : str) :
  forall (fuel i : nat) (name path : str),
    first_free fuel is_taken fname ext dir_path (S i)
      (candidate_name fname ext i) (candidate_path dir_path fname ext i)
    = Some (name, path) ->
    exists k, (i <= k <= i + fuel)%nat
      /\ name = candidate_name fname ext k
      /\ path = candidate_path dir_path fname ext k.
Proof.
  induction fuel as [|fuel IH]; intros i name path; simpl;
    destruct (is_taken (candidate_path dir_path fname ext i));
    try discriminate; try (intros [= <- <-]; exists i; split; [lia|auto]).
  intros Hrest.
  change (numbered_name fname ext (S i)) with (candidate_name fname ext (S i)) in Hrest.
  change (join dir_path (candidate_name fname ext (S i)))
    with (candidate_path dir_path fname ext (S i)) in Hrest.
  apply IH in Hrest as (k & Hk & -> & ->). exists k. split; [lia|auto].
Qed.

(** One record, planned or passed over. *)
Lemma plan_record_exact (fuel : nat) (new_path : str) (operations ops' : list Operation)
    (data : FileRecord) (st st' : PlanningState) (w w' : world FS) :
  plan_record fuel new_path operations data (st, w) = (Ok ops', (st', w')) ->
  ((file_path data ∈ processed_files st) /\ ops' = operations /\ st' = st /\ w' = w)
  \/ ((file_path data ∉ processed_files st)
      /\ exists op, ops' = operations ++ [op]
           /\ planned_from new_path data op
           /\ st' = renamed_add (destination op) (processed_add (file_path data) st)
           /\ trace w' = trace w ++ [planner_event new_path op]).
Proof.
  rewrite plan_record_eq. unfold plan_record_unfolded. cbn [fst snd].
  destruct (bool_decide _) eqn:Hseen.
  { intros [= <- <- <-]. left. apply bool_decide_eq_true in Hseen. auto. }
  apply bool_decide_eq_false in Hseen.
  destruct (foldername data) as [| |folder] eqn:Hfolder,
           (filename data) as [| |fname] eqn:Hname;
    try (destruct (field_error data); discriminate).
  destruct (os_makedirs _ _) as [fs1 [e|]]; [discriminate|].
  destruct (first_free _ _ _ _ _ _ _ _) as [[name path]|] eqn:Hfree; [|discriminate].
  destruct (link_decision _ _ _); [discriminate|].
  intros [= <- <- <-]. right. split; [exact Hseen|].
  apply (first_free_candidate _ fname _ _ fuel 0) in Hfree as (k & _ & -> & ->).
  eexists. split; [reflexivity|]. split; [|split; reflexivity].
  exists fname, k. simpl. rewrite Hfolder, Hname. auto.
Qed.

Lemma plan_record_raises (fuel : nat) (new_path : str) (operations : list Operation)
    (data : FileRecord) (st st' : PlanningState) (w w' : world FS) (e : exn) :
  plan_record fuel new_path operations data (st, w) = (Raise e, (st', w')) ->
  st' = processed_add (file_path data) st
  /\ (file_path data ∉ processed_files st)
  /\ exists evs, trace w' = trace w ++ evs
                 /\ forallb is_makedirs_event evs = true.
Proof.
  rewrite plan_record_eq. unfold plan_record_unfolded. cbn [fst snd].
  destruct (bool_decide _) eqn:Hseen; [discriminate|].
  apply bool_decide_eq_false in Hseen.
  assert (Hnil : forall l : list event, exists evs, l = l ++ evs
                   /\ forallb is_makedirs_event evs = true)
    by (intros l; exists []; by rewrite app_nil_r).
  destruct (foldername data), (filename data);
    try (intros [= _ <- <-]; auto; fail).
  destruct (os_makedirs _ _) as [fs1 [e'|]].
  { intros [= _ <- <-]. split; [reflexivity|]. split; [exact Hseen|]. simpl. eauto. }
  destruct (first_free _ _ _ _ _ _ _ _) as [[name path]|]; [|discriminate].
  destruct (link_decision _ _ _); [|discriminate].
  intros [= _ <- <-]. split; [reflexivity|]. split; [exact Hseen|]. simpl. eauto.
Qed.

(** A list whose sources are all processed is passed over. *)
Lemma for_each_plan_seen (fuel : nat) (new_path : str) (data_list : list FileRecord)
    (acc : list Operation) (s : PlanningState * world FS) :
  (forall data, data ∈ data_list -> file_path data ∈ processed_files (fst s)) ->
  for_each data_list (plan_record fuel new_path) acc s = (Ok acc, s).
Proof.
  induction data_list as [|data rest IH]; intros Hseen; simpl; [reflexivity|].
  unfold bind at 1. rewrite plan_record_eq. unfold plan_record_unfolded.
  rewrite bool_decide_eq_true_2 by (apply Hseen; left).
  apply IH. intros d Hd. apply Hseen. by right.
Qed.

(** The whole loop when it ends well. *)
Lemma for_each_plan_exact (fuel : nat) (new_path : str) (data_list : list FileRecord) :
  forall (acc ops : list Operation) (st st' : PlanningState) (w w' : world FS),
    for_each data_list (plan_record fuel new_path) acc (st, w) = (Ok ops, (st', w')) ->
    exists new,
      ops = acc ++ new
      /\ map source new = fresh_sources (processed_files st) data_list
      /\ Forall (fun op => exists data, data ∈ data_list /\ planned_from new_path data op) new
      /\ processed_files st'
         = processed_files st ∪ list_to_set (map file_path data_list)
      /\ renamed_files st' = renamed_files st ∪ list_to_set (map destination new)
      /\ trace w' = trace w ++ map (planner_event new_path) new.
Proof.
  induction data_list as [|data rest IH]; intros acc ops st st' w w'; simpl.
  - intros [= <- <- <-]. exists []. rewrite !app_nil_r. simpl.
    repeat split; [constructor| |]; apply set_eq; intros x; set_unfold; tauto.
  - unfold bind at 1.
    destruct (plan_record fuel new_path acc data (st, w)) as [[acc1|e|] [st1 w1]] eqn:H1;
      try discriminate.
    intros Hrest. apply IH in Hrest as (new & -> & Hsrc & Hall & Hp & Hr & Ht).
    assert (Hwiden : Forall (fun op => exists d, d ∈ data :: rest
                                        /\ planned_from new_path d op) new).
    { eapply Forall_impl; [exact Hall|]. intros op (d & Hd & Hop). exists d.
      split; [by right|exact Hop]. }
    apply plan_record_exact in H1
      as [(Hseen & -> & -> & ->)|(Hseen & op & -> & Hop & -> & Ht1)].
    + exists new. rewrite bool_decide_eq_true_2 by exact Hseen.
      repeat split; try assumption. rewrite Hp.
      apply set_eq; intros x; set_unfold; intuition (subst; auto).
    + exists (op :: new). rewrite bool_decide_eq_false_2 by exact Hseen.
      assert (Hs : source op = file_path data) by (destruct Hop as (? & ? & ? & _); done).
      repeat split.
      * by rewrite <- app_assoc.
      * simpl. rewrite Hs. f_equal. exact Hsrc.
      * constructor; [|exact Hwiden]. exists data. split; [by left|exact Hop].
      * rewrite Hp. simpl. apply set_eq; intros x; set_unfold; tauto.
      * rewrite Hr. simpl. apply set_eq; intros x; set_unfold; tauto.
      * rewrite Ht, Ht1, <- app_assoc. reflexivity.
Qed.


Lemma plan_record_trace (fuel : nat) (new_path : str) (operations : list Operation)
    (data : FileRecord) (s s' : PlanningState * world FS) (r : outcome (list Operation)) :
  plan_record fuel new_path operations data s = (r, s') ->
  exists evs, trace (snd s') = trace (snd s) ++ evs
              /\ forallb is_makedirs_event evs = true.
Proof.
  rewrite plan_record_eq. unfold plan_record_unfolded.
  assert (Hnil : exists evs, trace (snd s) = trace (snd s) ++ evs
                   /\ forallb is_makedirs_event evs = true)
    by (exists []; by rewrite app_nil_r).
  destruct (bool_decide _); [by intros [= <- <-]|].
  destruct (foldername data) as [| |folder], (filename data);
    try (by intros [= <- <-]).
  destruct (os_makedirs _ _) as [fs1 r1].
  assert (Hone : exists evs,
             trace (World fs1 (trace (snd s) ++ [EvMakedirs (join new_path folder) r1]))
             = trace (snd s) ++ evs /\ forallb is_makedirs_event evs = true)
    by (simpl; eauto).
  destruct r1; [by intros [= <- <-]|].
  destruct (first_free _ _ _ _ _ _ _ _) as [[name path]|]; [|by intros [= <- <-]].
  destruct (link_decision _ _ _); by intros [= <- <-].
Qed.

Lemma for_each_plan_trace (fuel : nat) (new_path : str) (data_list : list FileRecord) :
  forall (acc : list Operation) (s s' : PlanningState * world FS)
         (r : outcome (list Operation)),
    for_each data_list (plan_record fuel new_path) acc s = (r, s') ->
    exists evs, trace (snd s') = trace (snd s) ++ evs
                /\ forallb is_makedirs_event evs = true.
Proof.
  induction data_list as [|data rest IH]; intros acc s s' r; simpl.
  - intros [= <- <-]. exists []. by rewrite app_nil_r.
  - unfold bind at 1.
    destruct (plan_record fuel new_path acc data s) as [r1 s1] eqn:H1.
    apply plan_record_trace in H1 as (evs1 & Ht1 & Hm1).
    destruct r1 as [acc1|e|]; try (intros [= <- <-]; eauto; fail).
    intros Hrest. apply IH in Hrest as (evs & Ht & Hm).
    exists (evs1 ++ evs). rewrite Ht, Ht1, <- app_assoc, forallb_app, Hm1, Hm. auto.
Qed.

(** Property X5.  Planning the records of a call that returned again, with the sets it
    left, gives no operation and touches nothing, whatever the destination
    root and the filesystem are by then. *)
Theorem compute_operations_replan (fuel : nat) (data_list : list FileRecord)
    (new_path : str) (st st' : PlanningState) (w w' : world FS)
    (ops : list Operation) :
  compute_operations fuel data_list new_path (st, w) = (Ok ops, (st', w')) ->
  forall (fuel2 : nat) (new_path2 : str) (w2 : world FS),
    compute_operations fuel2 data_list new_path2 (st', w2) = (Ok [], (st', w2)).
Proof.
  unfold compute_operations. intros Hrun fuel2 new_path2 w2.
  apply for_each_plan_exact in Hrun as (new & _ & _ & _ & Hp & _).
  apply for_each_plan_seen. simpl. intros data Hd. rewrite Hp.
  apply elem_of_union_r, elem_of_list_to_set, list_elem_of_fmap. eauto.
Qed.

(** Property X1.  The operations of a call that returns are one for each source it had
    not seen, in the order of the records: a source already processed, or
    met earlier in the list, gives none. *)
Theorem compute_operations_sources (fuel : nat) (data_list : list FileRecord)
    (new_path : str) (st st' : PlanningState) (w w' : world FS)
    (ops : list Operation) :
  compute_operations fuel data_list new_path (st, w) = (Ok ops, (st', w')) ->
  map source ops = fresh_sources (processed_files st) data_list.
Proof.
  unfold compute_operations. intros Hrun.
  by apply for_each_plan_exact in Hrun as (new & -> & Hs & _).
Qed.

(** Property X2.  Every operation of a call that returns is made of one of the records:
    its source is the path of the record, its folder is the folder name of
    the record, its name is the file name of the record, a counter or none,
    and the extension of the source, and its destination is the name
    joined to the folder joined to the destination root. *)
Theorem compute_operations_shape (fuel : nat) (data_list : list FileRecord)
    (new_path : str) (st st' : PlanningState) (w w' : world FS)
    (ops : list Operation) :
  compute_operations fuel data_list new_path (st, w) = (Ok ops, (st', w')) ->
  Forall (fun op => exists data, data ∈ data_list /\ planned_from new_path data op) ops.
Proof.
  unfold compute_operations. intros Hrun.
  by apply for_each_plan_exact in Hrun as (new & -> & _ & Hall & _).
Qed.

(** Property X3.  When a call returns, [processed_files] has gained the paths of all the
    records of the list and [renamed_files] the destinations of the
    operations returned, and nothing else. *)
Theorem compute_operations_sets (fuel : nat) (data_list : list FileRecord)
    (new_path : str) (st st' : PlanningState) (w w' : world FS)
    (ops : list Operation) :
  compute_operations fuel data_list new_path (st, w) = (Ok ops, (st', w')) ->
  processed_files st' = processed_files st ∪ list_to_set (map file_path data_list)
  /\ renamed_files st' = renamed_files st ∪ list_to_set (map destination ops).
Proof.
  unfold compute_operations. intros Hrun.
  by apply for_each_plan_exact in Hrun as (new & -> & _ & _ & Hp & Hr & _).
Qed.

(** Property X4.  Planning acts on the world through [os.makedirs] alone, however the
    call ends; when it returns, it has made one call for each operation,
    on the folder of the operation joined to the destination root. *)
Theorem compute_operations_effects (fuel : nat) (data_list : list FileRecord)
    (new_path : str) (s s' : PlanningState * world FS)
    (r : outcome (list Operation)) :
  compute_operations fuel data_list new_path s = (r, s') ->
  (exists evs, trace (snd s') = trace (snd s) ++ evs
               /\ forallb is_makedirs_event evs = true)
  /\ (forall ops, r = Ok ops ->
        trace (snd s') = trace (snd s) ++ map (planner_event new_path) ops).
Proof.
  unfold compute_operations. intros Hrun. split.
  - eapply for_each_plan_trace, Hrun.
  - intros ops ->. destruct s as [st w], s' as [st' w'].
    by apply for_each_plan_exact in Hrun as (new & -> & _ & _ & _ & _ & Ht).
Qed.

(** Property X6.  A call that raises keeps what it did to the sets.  If the records
    [pre] are planned and the next one raises, the call raises with the
    source of that record in [processed_files], and the operations planned
    for [pre] are lost: planning [pre] and that record again, with the sets
    the call left, returns no operation. *)
Theorem compute_operations_failure (fuel : nat) (new_path : str)
    (pre post : list FileRecord) (data : FileRecord)
    (st st1 st2 : PlanningState) (w w1 w2 : world FS)
    (ops1 : list Operation) (e : exn) :
  compute_operations fuel pre new_path (st, w) = (Ok ops1, (st1, w1)) ->
  plan_record fuel new_path ops1 data (st1, w1) = (Raise e, (st2, w2)) ->
  compute_operations fuel (pre ++ data :: post) new_path (st, w) = (Raise e, (st2, w2))
  /\ (file_path data ∈ processed_files st2)
  /\ forall (fuel2 : nat) (new_path2 : str) (w3 : world FS),
       compute_operations fuel2 (pre ++ [data]) new_path2 (st2, w3) = (Ok [], (st2, w3)).
Proof.
  unfold compute_operations. intros Hpre Hdata. split; [|split].
  - rewrite for_each_app. unfold bind at 1. rewrite Hpre. cbn [for_each].
    unfold bind at 1. rewrite Hdata. reflexivity.
  - apply plan_record_raises in Hdata as (-> & _). simpl.
    apply elem_of_union_l, elem_of_singleton. reflexivity.
  - intros fuel2 new_path2 w3. apply for_each_plan_seen. simpl.
    apply for_each_plan_exact in Hpre as (new & _ & _ & _ & Hp & _).
    apply plan_record_raises in Hdata as (-> & _). simpl.
    intros d Hd. apply elem_of_app in Hd as [Hd|Hd].
    + apply elem_of_union_r. rewrite Hp.
      apply elem_of_union_r, elem_of_list_to_set, list_elem_of_fmap. eauto.
    + apply list_elem_of_singleton in Hd as ->.
      apply elem_of_union_l, elem_of_singleton. reflexivity.
Qed.

End PlannerMore.

Lemma home_run_eq : home_run = (Ok home_ops, (home_state, home_world)).
Proof. vm_compute. reflexivity. Qed.

Lemma compute_operations_replan_witness :
  compute_operations 9 home_records (u "/elsewhere") (home_state, w_bare)
  = (Ok [], (home_state, w_bare)).
Proof.
  apply (compute_operations_replan 5 home_records (u "/out") st_empty home_state
           w_home home_world home_ops home_run_eq).
Defined.

Lemma compute_operations_sources_witness :
  map source home_ops = [u "/in/a.txt"; u "/in/b.txt"].
Proof.
  rewrite (compute_operations_sources 5 home_records (u "/out") st_empty home_state
             w_home home_world home_ops home_run_eq).
  vm_compute. reflexivity.
Defined.

Lemma compute_operations_shape_witness :
  Forall (fun op => exists data, data ∈ home_records /\ planned_from (u "/out") data op)
         home_ops.
Proof.
  apply (compute_operations_shape 5 home_records (u "/out") st_empty home_state
           w_home home_world home_ops home_run_eq).
Defined.

Lemma compute_operations_sets_witness :
  processed_files home_state
  = processed_files st_empty ∪ list_to_set (map file_path home_records)
  /\ renamed_files home_state
     = renamed_files st_empty ∪ list_to_set (map destination home_ops).
Proof.
  apply (compute_operations_sets 5 home_records (u "/out") st_empty home_state
           w_home home_world home_ops home_run_eq).
Defined.

Lemma compute_operations_effects_witness :
  trace home_world = trace w_home ++ map (planner_event (u "/out")) home_ops.
Proof.
  apply (compute_operations_effects 5 home_records (u "/out") (st_empty, w_home)
           (home_state, home_world) (Ok home_ops) home_run_eq).
  reflexivity.
Defined.

Lemma compute_operations_failure_witness :
  fst broken_run = Raise (KeyError (u "filename"))
  /\ (u "/in/a.txt" ∈ processed_files (fst (snd broken_run)))
  /\ compute_operations 9 ([rec_b] ++ [rec_null]) (u "/elsewhere")
       (fst (snd broken_run), w_bare)
     = (Ok [], (fst (snd broken_run), w_bare)).
Proof.
  destruct (compute_operations_failure 5 (u "/out") [rec_b] [rec_a] rec_null
              st_empty
              (fst (snd (compute_operations 5 [rec_b] (u "/out") (st_empty, w_home))))
              (fst (snd broken_run))
              w_home
              (snd (snd (compute_operations 5 [rec_b] (u "/out") (st_empty, w_home))))
              (snd (snd broken_run))
              [op_bar] (KeyError (u "filename")))
    as (Hrun & Hin & Hagain).
  - vm_compute. reflexivity.
  - vm_compute. reflexivity.
  - split; [|split].
    + unfold broken_run. rewrite Hrun. reflexivity.
    + exact Hin.
    + apply Hagain.
Defined.

(** ** The loop that looks for a free name ends *)

(** Property X7.  When the paths that are taken (allocated in [renamed_files] or
    existing) are finitely many, the loop of [handle_duplicates] returns
    within one iteration more than their number: it returns the first
    candidate that is not taken, all the candidates before it are taken,
    and it leaves the sets and the world as they are. *)
Theorem handle_duplicates_terminates {FS : Type} `{OS FS}
    (fuel : nat) (fname ext dir_path : str)
    (s : PlanningState * world FS) (l : list str) :
  (forall p, taken (renamed_files (fst s)) (fs (snd s)) p = true -> In p l) ->
  (S (length l) <= fuel)%nat ->
  exists k,
    (k <= S (length l))%nat
    /\ handle_duplicates fuel fname ext dir_path 1 (fname ++ ext)
         (join dir_path (fname ++ ext)) s
       = (Ok (candidate_name fname ext k, candidate_path dir_path fname ext k), s)
    /\ taken (renamed_files (fst s)) (fs (snd s))
         (candidate_path dir_path fname ext k) = false
    /\ forall j, (j < k)%nat ->
         taken (renamed_files (fst s)) (fs (snd s))
           (candidate_path dir_path fname ext j) = true.
Proof.
  intros Hl Hfuel.
  destruct (some_candidate_free _ l dir_path fname ext Hl) as (k & Hk & Hfree & Hbusy).
  exists k. split; [exact Hk|]. split; [|split; assumption].
  rewrite handle_duplicates_pure.
  pose proof (first_free_least (taken (renamed_files (fst s)) (fs (snd s)))
                fname ext dir_path k fuel 0) as Hleast.
  cbn [Nat.add] in Hleast.
  change (candidate_name fname ext 0) with (fname ++ ext) in Hleast.
  change (candidate_path dir_path fname ext 0) with (join dir_path (fname ++ ext))
    in Hleast.
  rewrite Hleast; [reflexivity| |exact Hfree|lia].
  intros j Hj. apply Hbusy. lia.
Qed.

Lemma handle_duplicates_terminates_witness :
  exists k,
    (k <= 11)%nat
    /\ handle_duplicates 12 (u "foo") (u ".txt") (u "/out/docs") 1 (u "foo" ++ u ".txt")
         (join (u "/out/docs") (u "foo" ++ u ".txt")) (st_empty, w_home)
       = (Ok (candidate_name (u "foo") (u ".txt") k,
              candidate_path (u "/out/docs") (u "foo") (u ".txt") k),
          (st_empty, w_home)).
Proof.
  destruct (handle_duplicates_terminates 12 (u "foo") (u ".txt") (u "/out/docs")
              (st_empty, w_home)
              (elements (renamed_files st_empty) ++ elements (dom (fs w_home))))
    as (k & Hk & Hrun & _).
  - intros p. apply simfs_taken_finite.
  - apply Nat.leb_le. vm_compute. reflexivity.
  - exists k. split; [|exact Hrun].
    etransitivity; [exact Hk|]. apply Nat.leb_le. vm_compute. reflexivity.
Defined.

(** ** The grouping as a recursion on the list *)

Lemma length_filter_le {A} (f : A -> bool) (l : list A) :
  (length (List.filter f l) <= length l)%nat.
Proof. induction l as [|x l IH]; simpl; [lia|]. destruct (f x); simpl; lia. Qed.

Lemma filter_sublist {A} (f : A -> bool) (l : list A) : List.filter f l `sublist_of` l.
Proof.
  induction l as [|x l IH]; simpl; [constructor|].
  destruct (f x); [by apply sublist_skip | by apply sublist_cons].
Qed.

Section GreedyFacts.
Variable ratio : str -> str -> Q.
Variable threshold : Q.
Variable file_paths : list str.

Lemma pending_step (i : nat) (assigned : list bool) (p : str) (b : bool) :
  file_paths !! i = Some p -> assigned !! i = Some b ->
  pending file_paths i assigned
  = if b then pending file_paths (S i) assigned
    else p :: pending file_paths (S i) assigned.
Proof.
  intros Hp Hb. unfold pending.
  rewrite (drop_S _ _ _ Hp), (drop_S _ _ _ Hb). reflexivity.
Qed.

Lemma scan_candidates_filter (fname : str) :
  forall (m a : nat) (group : list str) (assigned : list bool),
    length assigned = length file_paths ->
    (a + m)%nat = length file_paths ->
    let r := scan_candidates ratio threshold file_paths (map basename file_paths) fname
               (seq a m) group assigned in
    let test := fun q => Qle_bool threshold (ratio fname (basename q)) in
    fst r = group ++ List.filter test (pending file_paths a assigned)
    /\ length (snd r) = length file_paths
    /\ (forall k, (k < a)%nat -> snd r !! k = assigned !! k)
    /\ pending file_paths a (snd r)
       = List.filter (fun q => negb (test q)) (pending file_paths a assigned).
Proof.
  induction m as [|m IH]; intros a group assigned Hlen Ham; cbn zeta.
  - simpl. unfold pending. rewrite !drop_ge by lia. simpl. by rewrite app_nil_r.
  - cbn [seq scan_candidates].
    destruct (lookup_lt_is_Some_2 assigned a) as [b Hb]; [lia|].
    destruct (lookup_lt_is_Some_2 file_paths a) as [pa Hp]; [lia|].
    rewrite Hb, list_lookup_fmap, Hp. cbn [fmap option_fmap option_map].
    rewrite (pending_step a assigned pa b Hp Hb).
    destruct b.
    + destruct (IH (S a) group assigned Hlen ltac:(lia)) as (Hf & Hl & Ht & Hu).
      repeat split; try assumption.
      * intros k Hk. apply Ht. lia.
      * rewrite (pending_step a _ pa true Hp); [exact Hu|].
        rewrite Ht by lia. exact Hb.
    + destruct (Qle_bool threshold (ratio fname (basename pa))) eqn:Hsim.
      * destruct (IH (S a) (group ++ [pa]) (<[a := true]> assigned)) as (Hf & Hl & Ht & Hu);
          [by rewrite length_insert|lia|].
        assert (Hsame : pending file_paths (S a) (<[a := true]> assigned)
                        = pending file_paths (S a) assigned).
        { unfold pending. by rewrite drop_insert_lt by lia. }
        rewrite Hsame in Hf, Hu.
        repeat split.
        -- rewrite Hf. cbn [List.filter]. rewrite Hsim, <- app_assoc. reflexivity.
        -- exact Hl.
        -- intros k Hk. rewrite Ht by lia. apply list_lookup_insert_ne. lia.
        -- rewrite (pending_step a _ pa true Hp).
           ++ rewrite Hu. cbn [List.filter]. rewrite Hsim. reflexivity.
           ++ rewrite Ht by lia. apply list_lookup_insert_eq. lia.
      * destruct (IH (S a) group assigned Hlen ltac:(lia)) as (Hf & Hl & Ht & Hu).
        repeat split; try assumption.
        -- rewrite Hf. cbn [List.filter]. rewrite Hsim. reflexivity.
        -- intros k Hk. apply Ht. lia.
        -- rewrite (pending_step a _ pa false Hp).
           ++ rewrite Hu. cbn [List.filter]. rewrite Hsim. reflexivity.
           ++ rewrite Ht by lia. exact Hb.
Qed.

Lemma scan_seeds_greedy :
  forall (m i fuel : nat) (groups : list (list str)) (assigned : list bool),
    length assigned = length file_paths ->
    (i + m)%nat = length file_paths ->
    (length (pending file_paths i assigned) <= fuel)%nat ->
    scan_seeds ratio threshold file_paths (map basename file_paths) (seq i m) groups assigned
    = groups ++ greedy_groups ratio threshold fuel (pending file_paths i assigned).
Proof.
  induction m as [|m IH]; intros i fuel groups assigned Hlen Him Hfuel.
  - simpl. unfold pending. rewrite !drop_ge by lia. simpl.
    destruct fuel; by rewrite app_nil_r.
  - cbn [seq scan_seeds].
    destruct (lookup_lt_is_Some_2 assigned i) as [b Hb]; [lia|].
    destruct (lookup_lt_is_Some_2 file_paths i) as [p Hp]; [lia|].
    rewrite Hb, list_lookup_fmap, Hp. cbn [fmap option_fmap option_map].
    rewrite (pending_step i assigned p b Hp Hb) in *.
    destruct b.
    + by apply IH; [|lia|].
    + rewrite length_map, Nat.add_1_r.
      pose proof (scan_candidates_filter (basename p) (length file_paths - S i) (S i) [p]
                    (<[i := true]> assigned)) as Hscan.
      cbn zeta in Hscan.
      destruct Hscan as (Hf & Hl & _ & Hu); [by rewrite length_insert|lia|].
      destruct (scan_candidates _ _ _ _ _ _ _ _) as [group assigned'].
      cbn [fst snd] in Hf, Hl, Hu.
      assert (Hsame : pending file_paths (S i) (<[i := true]> assigned)
                      = pending file_paths (S i) assigned).
      { unfold pending. by rewrite drop_insert_lt by lia. }
      rewrite Hsame in Hf, Hu.
      destruct fuel as [|fuel]; [simpl in Hfuel; lia|].
      rewrite (IH (S i) fuel (groups ++ [group]) assigned' Hl ltac:(lia)).
      * rewrite <- app_assoc, Hf, Hu. reflexivity.
      * rewrite Hu. simpl in Hfuel.
        pose proof (length_filter_le
                      (fun q => negb (Qle_bool threshold (ratio (basename p) (basename q))))
                      (pending file_paths (S i) assigned)).
        lia.
Qed.

End GreedyFacts.

Lemma greedy_groups_sublists (ratio : str -> str -> Q) (threshold : Q) :
  forall (fuel : nat) (file_paths : list str),
    let groups := greedy_groups ratio threshold fuel file_paths in
    Forall (fun g => g `sublist_of` file_paths) groups
    /\ omap head groups `sublist_of` file_paths.
Proof.
  induction fuel as [|fuel IH]; intros [|p rest]; cbn zeta; simpl;
    try (split; [constructor|apply sublist_nil_l]).
  destruct (IH (List.filter (fun q => negb (similar ratio threshold p q)) rest))
    as [Hall Hseeds].
  assert (Hrest : List.filter (fun q => negb (similar ratio threshold p q)) rest
                  `sublist_of` rest) by apply filter_sublist.
  split.
  - constructor; [apply sublist_skip, filter_sublist|].
    eapply Forall_impl; [exact Hall|]. intros g Hg. simpl in Hg.
    apply sublist_cons. by etransitivity.
  - apply sublist_skip. by etransitivity.
Qed.

Lemma filter_elem_of {A} (f : A -> bool) (l : list A) (x : A) :
  x ∈ List.filter f l -> x ∈ l /\ f x = true.
Proof. rewrite !list_elem_of_In. apply filter_In. Qed.

Lemma greedy_groups_seeds (ratio : str -> str -> Q) (threshold : Q) :
  forall (fuel : nat) (file_paths : list str),
    let groups := greedy_groups ratio threshold fuel file_paths in
    (forall g seed rest q, g ∈ groups -> g = seed :: rest -> q ∈ rest ->
                           similar ratio threshold seed q = true)
    /\ (forall i j gi gj seed q,
          groups !! i = Some gi -> groups !! j = Some gj -> (i < j)%nat ->
          head gi = Some seed -> q ∈ gj -> similar ratio threshold seed q = false).
Proof.
  induction fuel as [|fuel IH]; intros [|p rest]; cbn zeta; simpl;
    try (split; [intros g seed rest' q Hg; by apply elem_of_nil in Hg
                |intros i j gi gj seed q Hi; by destruct i]).
  destruct (IH (List.filter (fun q => negb (similar ratio threshold p q)) rest))
    as [Hin Hout].
  destruct (greedy_groups_sublists ratio threshold fuel
              (List.filter (fun q => negb (similar ratio threshold p q)) rest))
    as [Hsub _].
  split.
  - intros g seed rest' q Hg Heq Hq. apply elem_of_cons in Hg as [->|Hg].
    + injection Heq as <- <-. by apply filter_elem_of in Hq as [_ Hq].
    + eapply Hin; eassumption.
  - intros [|i] [|j] gi gj seed q Hi Hj Hij Hseed Hq; try lia; simpl in Hi, Hj.
    + injection Hi as <-. injection Hseed as <-.
      rewrite Forall_forall in Hsub.
      assert (Hg : gj ∈ greedy_groups ratio threshold fuel
                     (List.filter (fun q => negb (similar ratio threshold p q)) rest))
        by (eapply list_elem_of_lookup_2, Hj).
      apply Hsub in Hg. simpl in Hg.
      apply (elem_of_sublist _ _ _ Hq) in Hg.
      rename Hg into Hq'.
      apply filter_elem_of in Hq' as [_ Hq']. by apply negb_true_iff in Hq'.
    + eapply (Hout i j); try eassumption. lia.
Qed.

Lemma scan_all_greedy (ratio : str -> str -> Q) (threshold : Q) (file_paths : list str) :
  group_similar_filenames ratio threshold file_paths
  = greedy_groups ratio threshold (length file_paths) file_paths.
Proof.
  unfold group_similar_filenames. rewrite length_map.
  rewrite (scan_seeds_greedy ratio threshold file_paths (length file_paths) 0
             (length file_paths)).
  - unfold pending. rewrite !drop_0, unassigned_all. reflexivity.
  - apply length_replicate.
  - reflexivity.
  - unfold pending. rewrite !drop_0, unassigned_all. lia.
Qed.

(** Property X8.  The loops over positions and flags compute the groups
    of the recursion on the list: the first path with the later paths
    similar to it, in their order, then the groups of the paths that are
    left, made in the same way. *)
Theorem group_similar_filenames_greedy (ratio : str -> str -> Q) (threshold : Q)
    (file_paths : list str) :
  group_similar_filenames ratio threshold file_paths
  = greedy_groups ratio threshold (length file_paths) file_paths.
Proof. apply scan_all_greedy. Qed.

(** Property X9.  Every group lists its paths in the order of the input,
    and the groups come in the order in which their first paths are in
    the input. *)
Theorem group_similar_filenames_order (ratio : str -> str -> Q) (threshold : Q)
    (file_paths : list str) :
  Forall (fun g => g `sublist_of` file_paths)
    (group_similar_filenames ratio threshold file_paths)
  /\ omap head (group_similar_filenames ratio threshold file_paths)
     `sublist_of` file_paths.
Proof. rewrite scan_all_greedy. apply greedy_groups_sublists. Qed.

(** Property X10.  Every path of a group after the first is similar to
    the first path of the group, and no path of a group is similar to the
    first path of a group that comes before. *)
Theorem group_similar_filenames_seeds (ratio : str -> str -> Q) (threshold : Q)
    (file_paths : list str) :
  (forall g seed rest q,
      g ∈ group_similar_filenames ratio threshold file_paths ->
      g = seed :: rest -> q ∈ rest -> similar ratio threshold seed q = true)
  /\ (forall i j gi gj seed q,
        group_similar_filenames ratio threshold file_paths !! i = Some gi ->
        group_similar_filenames ratio threshold file_paths !! j = Some gj ->
        (i < j)%nat -> head gi = Some seed -> q ∈ gj ->
        similar ratio threshold seed q = false).
Proof. rewrite scan_all_greedy. apply greedy_groups_seeds. Qed.

(** ** More on clean_category *)

Lemma first_line_strip_app (a b : str) :
  a <> [] -> strip a = a ->
  forallb (fun c => negb (c =? newline)) a = true ->
  first_line (strip (a ++ newline :: b)) = first_line (strip a).
Proof.
  intros Hne Hstrip Hnl.
  destruct (strip_fixed_trimmed a Hstrip) as [Hh Hl].
  rewrite Hstrip, (first_line_id a Hnl).
  unfold strip at 1. rewrite rstrip_app.
  destruct (rstrip (newline :: b)) as [|c r] eqn:E.
  - rewrite (rstrip_id a Hl), (lstrip_id a Hh). by apply first_line_id.
  - assert (Hc : c = newline).
    { destruct (rstrip_prefix (newline :: b)) as [post Hp]. rewrite E in Hp.
      by injection Hp as ->. }
    subst c. rewrite lstrip_app, (lstrip_id a Hh).
    destruct a as [|x a]; [done|]. by apply first_line_app.
Qed.

(** Property X11.  Only the first line of the answer counts.  When the text starts
    with a line that is not empty and has no white space at either end,
    what comes after the newline changes nothing of the result. *)
Theorem clean_category_first_line
    (to_lower_full : N -> str) (final_sigma : str -> nat -> bool) (a b : str) :
  a <> [] -> strip a = a ->
  forallb (fun c => negb (c =? newline)) a = true ->
  clean_category to_lower_full final_sigma (a ++ newline :: b)
  = clean_category to_lower_full final_sigma a.
Proof.
  intros Hne Hstrip Hnl. unfold clean_category, cleaned_line.
  by rewrite (first_line_strip_app a b Hne Hstrip Hnl).
Qed.

Lemma clean_category_first_line_witness :
  clean_category ascii_to_lower (fun _ _ => false)
    (s_sajin ++ newline :: s_gita ++ u "/???")
  = clean_category ascii_to_lower (fun _ _ => false) s_sajin.
Proof.
  apply (clean_category_first_line ascii_to_lower (fun _ _ => false) s_sajin
           (s_gita ++ u "/???")).
  - discriminate.
  - vm_compute. reflexivity.
  - vm_compute. reflexivity.
Defined.

(** *** The label is made of characters of the first line *)

Lemma suffix_sublist_of {A} (l k : list A) : l `suffix_of` k -> l `sublist_of` k.
Proof. intros [pre ->]. by apply sublist_inserts_l. Qed.

Lemma prefix_sublist_of {A} (l k : list A) : l `prefix_of` k -> l `sublist_of` k.
Proof. intros [post ->]. by apply sublist_inserts_r. Qed.

Lemma strip_sublist (s : str) : strip s `sublist_of` s.
Proof.
  destruct (strip_split s) as (pre & post & E). rewrite E at 2.
  by apply sublist_inserts_l, sublist_inserts_r.
Qed.

Lemma strip_marker_suffix (lit line : str) : strip_marker lit line `suffix_of` line.
Proof.
  unfold strip_marker. destruct (strip_lit lit line) as [r|] eqn:E; [|done].
  apply strip_lit_split in E. subst line.
  assert (Hr : r `suffix_of` lit ++ r) by (by exists lit).
  destruct r as [|c rest]; [exact Hr|].
  destruct (colon c).
  - etransitivity; [apply lstrip_suffix|]. etransitivity; [|exact Hr]. by exists [c].
  - etransitivity; [apply lstrip_suffix|exact Hr].
Qed.

Lemma through_docx_suffix (s r : str) : through_docx s = Some r -> r `suffix_of` s.
Proof.
  revert r. induction s as [|c s IH]; intros r.
  - simpl. discriminate.
  - assert (Hstep : (if c =? newline then None else through_docx s) = Some r ->
                    r `suffix_of` c :: s).
    { destruct (c =? newline); [discriminate|]. intros Hr. apply IH in Hr.
      by apply suffix_cons_r. }
    cbn [through_docx].
    destruct (strip_lit (u ".docx") (c :: s)) as [[|q rest]|] eqn:E; try exact Hstep.
    destruct (q =? 34); [|exact Hstep].
    intros [= <-]. apply strip_lit_split in E. rewrite E.
    etransitivity; [apply lstrip_suffix|]. exists (u ".docx" ++ [q]).
    by rewrite <- app_assoc.
Qed.

Lemma strip_folder_glyph_suffix (line : str) : strip_folder_glyph line `suffix_of` line.
Proof.
  unfold strip_folder_glyph.
  destruct (strip_lit _ line) as [rest|] eqn:E; [|done].
  destruct (through_docx rest) as [r|] eqn:T; [|done].
  apply strip_lit_split in E. apply through_docx_suffix in T. subst line.
  etransitivity; [exact T|]. by eexists.
Qed.

Lemma cleaned_line_sublist (raw : str) :
  cleaned_line raw `sublist_of` first_line (strip raw).
Proof.
  unfold cleaned_line, remove_class.
  repeat (etransitivity;
          [first [apply filter_sublist
                 | apply suffix_sublist_of, strip_marker_suffix
                 | apply suffix_sublist_of, strip_folder_glyph_suffix]|]).
  reflexivity.
Qed.

Lemma first_line_no_newline (s : str) : newline ∉ first_line s.
Proof.
  induction s as [|c s IH]; simpl; [apply not_elem_of_nil|].
  destruct (N.eqb_spec c newline) as [->|Hc]; [apply not_elem_of_nil|].
  apply not_elem_of_cons. split; [congruence|exact IH].
Qed.

(** Property X12.  The label is cut out of the first line of the stripped text:
    its characters are characters of that line, in the order they have
    there, so the cleaning adds nothing and moves nothing, and a label
    never holds a newline. *)
Theorem clean_category_sublist
    (to_lower_full : N -> str) (final_sigma : str -> nat -> bool)
    (raw_text label : str) :
  clean_category to_lower_full final_sigma raw_text = Some label ->
  label `sublist_of` first_line (strip raw_text)
  /\ label `sublist_of` raw_text
  /\ (newline ∉ label).
Proof.
  unfold clean_category.
  destruct (negb _); [discriminate|].
  destruct (_ || _ || _); [discriminate|].
  intros [= <-].
  assert (H1 : strip (cleaned_line raw_text) `sublist_of` first_line (strip raw_text)).
  { etransitivity; [apply strip_sublist | apply cleaned_line_sublist]. }
  split; [exact H1|]. split.
  - etransitivity; [exact H1|].
    etransitivity; [apply prefix_sublist_of, first_line_prefix | apply strip_sublist].
  - intros Hin. apply (first_line_no_newline (strip raw_text)).
    eapply elem_of_sublist; eassumption.
Qed.

Lemma clean_category_sublist_witness :
  s_sajin `sublist_of`
    first_line (strip (u "  " ++ s_chullyeok ++ u ": " ++ [0x201C] ++ s_sajin
                       ++ [0x201D; 0x0A] ++ u "more"))
  /\ s_sajin `sublist_of`
       (u "  " ++ s_chullyeok ++ u ": " ++ [0x201C] ++ s_sajin ++ [0x201D; 0x0A]
        ++ u "more")
  /\ (newline ∉ s_sajin).
Proof.
  apply (clean_category_sublist ascii_to_lower (fun _ _ => false)).
  vm_compute. reflexivity.
Defined.

(** *** A label followed by a space and a quotation mark *)

Lemma strip_lit_app_none (t : str) :
  forall (lit s : str),
    forallb (fun l => bool_decide (strip_lit l t = None)) (tails lit) = true ->
    strip_lit lit s = None -> strip_lit lit (s ++ t) = None.
Proof.
  induction lit as [|a lit IH]; intros s Ht; [discriminate|].
  cbn [tails forallb] in Ht. apply andb_true_iff in Ht as [Hhere Ht].
  apply bool_decide_eq_true in Hhere.
  destruct s as [|c s]; [intros _; exact Hhere|].
  simpl. destruct (a =? c); [by apply IH | reflexivity].
Qed.

Lemma markers_miss_space_quote :
  forallb (fun lit => forallb (fun l => bool_decide (strip_lit l space_quote = None))
                        (tails lit)) markers = true.
Proof. vm_compute. reflexivity. Qed.

Lemma cleaned_line_space_quote (s : str) :
  clean_label s = true -> s <> [] ->
  cleaned_line (s ++ space_quote) = s ++ [0x20].
Proof.
  unfold clean_label. intros Hs Hne.
  apply andb_true_iff in Hs as [Hs Hsafe].
  apply andb_true_iff in Hs as [Hs Hlit].
  apply andb_true_iff in Hs as [Hstrip Hnl].
  apply bool_decide_eq_true in Hstrip.
  destruct (strip_fixed_trimmed s Hstrip) as [Hh _].
  assert (Hmiss : forall lit, lit ∈ markers -> strip_lit lit (s ++ space_quote) = None).
  { intros lit Hin. pose proof markers_miss_space_quote as Hm.
    rewrite forallb_forall in Hm, Hlit.
    apply list_elem_of_In in Hin.
    apply strip_lit_app_none; [by apply Hm|].
    eapply bool_decide_eq_true_1. by apply Hlit. }
  assert (Hraw : first_line (strip (s ++ space_quote)) = s ++ space_quote).
  { rewrite trimmed_strip.
    - apply first_line_id. rewrite forallb_app, Hnl. reflexivity.
    - split.
      + intros c Hc. apply Hh. destruct s; [done | exact Hc].
      + intros c. unfold space_quote.
        replace (s ++ [0x20; 0x22]) with ((s ++ [0x20]) ++ [0x22])
          by (by rewrite <- app_assoc).
        rewrite last_snoc. by intros [= <-]. }
  unfold cleaned_line. rewrite Hraw.
  rewrite (strip_marker_id s_dapbyeon), (strip_marker_id s_dabeul_imnyeok),
    strip_folder_glyph_id, (strip_marker_id s_pail_ireum),
    (strip_marker_id s_chullyeok), (strip_marker_id s_yesi_chullyeok)
    by (apply Hmiss; unfold markers; set_unfold; tauto).
  assert (Hq : remove_class quote_char s = s).
  { apply remove_class_id. rewrite forallb_forall in *. intros c Hc.
    apply Hsafe in Hc. by apply andb_true_iff in Hc as [? _]. }
  assert (Hr : remove_class reserved_char s = s).
  { apply remove_class_id. rewrite forallb_forall in *. intros c Hc.
    apply Hsafe in Hc. by apply andb_true_iff in Hc as [_ ?]. }
  unfold remove_class in *. unfold space_quote.
  rewrite List.filter_app, Hq. cbn [List.filter quote_char].
  replace (List.filter (fun c => negb (quote_char c)) [0x20; 0x22]) with [0x20]
    by (vm_compute; reflexivity).
  rewrite List.filter_app, Hr. reflexivity.
Qed.

Lemma lower_snoc_space (to_lower_full : N -> str) (final_sigma : str -> nat -> bool)
    (s : str) :
  to_lower_full 0x20 = [0x20] ->
  last (lower to_lower_full final_sigma (s ++ [0x20])) = Some 0x20.
Proof.
  intros Hsp. unfold lower. rewrite imap_app, concat_app. simpl.
  unfold lower_at at 2. simpl. rewrite Hsp, app_nil_r. apply last_snoc.
Qed.

(** Property X13.  The test against the four banned words is made on the line before
    the last [strip].  A label with nothing to clean, followed by a space
    and a double quote, comes back as the label alone, whether it is one
    of the banned words or not. *)
Theorem clean_category_space_quote
    (to_lower_full : N -> str) (final_sigma : str -> nat -> bool) (s : str) :
  to_lower_full 0x20 = [0x20] ->
  clean_label s = true -> has_hangul s = true -> (2 <= length s)%nat ->
  clean_category to_lower_full final_sigma (s ++ space_quote) = Some s.
Proof.
  intros Hsp Hclean Hh Hlen.
  assert (Hne : s <> []) by (intros ->; simpl in Hlen; lia).
  unfold clean_category. rewrite (cleaned_line_space_quote s Hclean Hne).
  unfold has_hangul in *. rewrite existsb_app, Hh. simpl.
  rewrite bool_decide_eq_false_2 by (by destruct s).
  rewrite bool_decide_eq_false_2.
  - assert (Hstrip : strip (s ++ [0x20]) = s).
    { unfold strip. rewrite rstrip_app.
      replace (rstrip [0x20]) with (@nil N) by (vm_compute; reflexivity).
      apply andb_true_iff in Hclean as [Hc _].
      apply andb_true_iff in Hc as [Hc _].
      apply andb_true_iff in Hc as [Hc _].
      apply bool_decide_eq_true in Hc. exact Hc. }
    rewrite Hstrip. simpl.
    destruct (Nat.ltb_spec (length s) 2); [lia | reflexivity].
  - intros Hin. pose proof (lower_snoc_space to_lower_full final_sigma s Hsp) as Hl.
    unfold banned in Hin.
    repeat (apply elem_of_cons in Hin as [Hin|Hin];
            [rewrite Hin in Hl; vm_compute in Hl; discriminate|]).
    by apply elem_of_nil in Hin.
Qed.

Lemma clean_category_space_quote_witness :
  clean_category ascii_to_lower (fun _ _ => false) (s_gita ++ space_quote) = Some s_gita.
Proof.
  apply (clean_category_space_quote ascii_to_lower (fun _ _ => false) s_gita).
  - vm_compute. reflexivity.
  - vm_compute. reflexivity.
  - vm_compute. reflexivity.
  - simpl. lia.
Defined.

(** ** The classifier *)

Lemma group_events_report (silent : bool) (log_file : option str)
    (category : option str) (group : list str) :
  forallb is_report_event (flat_map (path_events silent log_file category) group) = true.
Proof.
  induction group as [|p g IH]; simpl; [reflexivity|].
  rewrite forallb_app, IH, andb_true_r. unfold path_events.
  destruct silent; [|reflexivity]. by destruct log_file as [[|c f]|].
Qed.

Lemma report_raised_later {FS : Type} (w w1 w' : world FS) (e : exn) (evs : list event) :
  trace w1 = trace w ++ evs -> forallb is_report_event evs = true ->
  report_raised w1 w' e -> report_raised w w' e.
Proof.
  intros Ht Hevs (evs' & ev & Ht' & Hevs' & Hev). exists (evs ++ evs'), ev.
  rewrite Ht', Ht, <- !app_assoc, forallb_app, Hevs, Hevs'. auto.
Qed.

Section GroupedFacts.
Context {MS FS : Type} `{LLM MS} `{OS FS}.
Variable ratio : str -> str -> Q.
Variable to_lower_full : N -> str.
Variable final_sigma : str -> nat -> bool.

(** One call of [print] or one write, seen from the session. *)
Lemma on_world_report (m : M (world FS) unit) (ev : option exn -> event)
    (s s' : session MS FS) (r : outcome unit) :
  (forall w, exists fs' x, m w = (of_result x tt, World fs' (trace w ++ [ev x]))) ->
  (forall x, is_report_event (ev x) = true) ->
  (forall e, report_failure e (ev (Some e))) ->
  on_world m s = (r, s') ->
  model_state s' = model_state s /\ prompts s' = prompts s
  /\ match r with
     | Ok _ => trace (outside s') = trace (outside s) ++ [ev None]
     | Raise e => report_raised (outside s) (outside s') e
     | Diverge => False
     end.
Proof.
  intros Hm Hrep Hfail. unfold on_world.
  destruct (Hm (outside s)) as (fs' & x & ->).
  intros [= <- <-]. simpl. split; [reflexivity|]. split; [reflexivity|].
  destruct x as [e|]; simpl; [|reflexivity].
  exists [], (ev (Some e)). simpl. auto.
Qed.

Lemma print_shape (text : str) (w : world FS) :
  exists fs' x, print text w = (of_result x tt, World fs' (trace w ++ [EvPrint text x])).
Proof. unfold print. destruct (os_print _ _) as [fs' x]. eauto. Qed.

Lemma append_shape (f text : str) (w : world FS) :
  exists fs' x,
    append_file f text w = (of_result x tt, World fs' (trace w ++ [EvAppend f text x])).
Proof. unfold append_file. destruct (os_append _ _ _) as [fs' x]. eauto. Qed.

Lemma report_path_spec (silent : bool) (log_file : option str)
    (category : option str) (path : str) (s s' : session MS FS) (r : outcome unit) :
  report_path silent log_file category path s = (r, s') ->
  model_state s' = model_state s /\ prompts s' = prompts s
  /\ match r with
     | Ok _ => trace (outside s')
               = trace (outside s) ++ path_events silent log_file category path
     | Raise e => report_raised (outside s) (outside s') e
     | Diverge => False
     end.
Proof.
  unfold report_path, path_events.
  assert (Hskip : @ret (session MS FS) unit tt s = (r, s') ->
                  model_state s' = model_state s /\ prompts s' = prompts s
                  /\ match r with
                     | Ok _ => trace (outside s') = trace (outside s) ++ []
                     | Raise e => report_raised (outside s) (outside s') e
                     | Diverge => False
                     end).
  { intros [= <- <-]. by rewrite app_nil_r. }
  destruct silent.
  - destruct log_file as [[|c f]|]; try exact Hskip.
    apply (on_world_report _ (EvAppend (c :: f) (log_line path category))).
    + apply append_shape.
    + reflexivity.
    + intros e. left. eauto.
  - apply (on_world_report _ (EvPrint (print_line path category))).
    + apply print_shape.
    + reflexivity.
    + intros e. right. eauto.
Qed.

(** The loop over the paths of a group. *)
Lemma record_loop_spec (silent : bool) (log_file : option str)
    (category : option str) (group : list str) :
  forall (results : list FileRecord) (s s' : session MS FS)
         (r : outcome (list FileRecord)),
    for_each group (record_path silent log_file category) results s = (r, s') ->
    model_state s' = model_state s /\ prompts s' = prompts s
    /\ match r with
       | Ok results' =>
           results' = results ++ map (path_record category) group
           /\ trace (outside s')
              = trace (outside s)
                ++ flat_map (path_events silent log_file category) group
       | Raise e => report_raised (outside s) (outside s') e
       | Diverge => False
       end.
Proof.
  induction group as [|path group IH]; intros results s s' r; simpl.
  - intros [= <- <-]. by rewrite !app_nil_r.
  - unfold bind at 1. unfold record_path at 1. unfold bind at 1.
    destruct (report_path silent log_file category path s) as [r1 s1] eqn:H1.
    apply report_path_spec in H1 as (Hm1 & Hp1 & H1).
    destruct r1 as [[]|e|]; [|intros [= <- <-]; auto|done].
    cbn [ret]. intros Hrest. apply IH in Hrest as (Hm & Hp & Hrest).
    split; [congruence|]. split; [congruence|].
    destruct r as [results'|e|]; [|
      |exact Hrest].
    + destruct Hrest as [-> Ht]. split; [by rewrite <- app_assoc|].
      by rewrite Ht, H1, <- app_assoc.
    + eapply report_raised_later; [exact H1| |exact Hrest].
      unfold path_events. destruct silent; [|reflexivity].
      by destruct log_file as [[|c f]|].
Qed.

(** One group. *)
Lemma classify_group_spec (silent : bool) (log_file : option str)
    (results : list FileRecord) (group : list str) (s s' : session MS FS)
    (r : outcome (list FileRecord)) :
  classify_group to_lower_full final_sigma silent log_file results group s = (r, s') ->
  let prompt := group_prompt (map basename group) in
  let answer := snd (llm_text (model_state s) prompt) in
  model_state s' = fst (llm_text (model_state s) prompt)
  /\ prompts s' = prompts s ++ [prompt]
  /\ match r with
     | Ok results' =>
         results' = results
                    ++ map (path_record (category_of to_lower_full final_sigma answer))
                         group
         /\ trace (outside s')
            = trace (outside s)
              ++ group_events to_lower_full final_sigma silent log_file group answer
     | Raise e => report_raised (outside s) (outside s') e
     | Diverge => llm_returns (model_state s) prompt = false
                  /\ outside s' = outside s
     end.
Proof.
  cbn zeta. unfold classify_group. unfold bind at 1. unfold try_except.
  unfold bind at 1. unfold first_choice_text at 1.
  destruct (llm_returns (model_state s) (group_prompt (map basename group))) eqn:Hret.
  2:{ destruct (llm_text (model_state s) (group_prompt (map basename group)))
        as [ms' answer].
      intros [= <- <-]. auto. }
  destruct (llm_text (model_state s) (group_prompt (map basename group)))
    as [ms' [e|raw_text]]; cbn [fst snd ret category_of group_events].
  - unfold bind at 1. destruct silent; cbn [negb ret].
    + intros Hloop. apply record_loop_spec in Hloop as (Hm & Hp & Hloop).
      cbn [model_state prompts outside] in *.
      split; [exact Hm|]. split; [exact Hp|]. by destruct r.
    + destruct (on_world (print (s_llm_failed ++ exn_str e)) _) as [r1 s1] eqn:H1.
      apply (on_world_report _ (EvPrint (s_llm_failed ++ exn_str e))) in H1
        as (Hm1 & Hp1 & H1);
        [|apply print_shape|reflexivity|intros e'; right; eauto].
      cbn [model_state prompts outside] in *.
      destruct r1 as [[]|e1|]; [|intros [= <- <-]; auto|done].
      intros Hloop. apply record_loop_spec in Hloop as (Hm & Hp & Hloop).
      split; [congruence|]. split; [congruence|].
      destruct r as [results'|e2|]; [| |done].
      * destruct Hloop as [-> Ht]. split; [reflexivity|].
        rewrite Ht, H1, <- app_assoc. reflexivity.
      * eapply report_raised_later; [exact H1|reflexivity|exact Hloop].
  - intros Hloop. apply record_loop_spec in Hloop as (Hm & Hp & Hloop).
    cbn [model_state prompts outside] in *.
    split; [exact Hm|]. split; [exact Hp|]. by destruct r.
Qed.

Lemma length_replies (ms : MS) (asked : list str) :
  length (replies ms asked) = length asked.
Proof.
  revert ms. induction asked as [|p rest IH]; intros ms; simpl; [reflexivity|].
  destruct (llm_text ms p) as [ms' a]. simpl. by rewrite IH.
Qed.

Lemma group_events_all_report (silent : bool) (log_file : option str)
    (group : list str) (answer : exn + str) :
  forallb is_report_event
    (group_events to_lower_full final_sigma silent log_file group answer) = true.
Proof.
  unfold group_events. rewrite forallb_app, group_events_report, andb_true_r.
  destruct answer as [e|raw]; [|reflexivity]. by destruct silent.
Qed.

(** The loop over the groups. *)
Lemma classify_loop_spec (silent : bool) (log_file : option str)
    (groups : list (list str)) :
  forall (results : list FileRecord) (s s' : session MS FS)
         (r : outcome (list FileRecord)),
    for_each groups (classify_group to_lower_full final_sigma silent log_file) results s
    = (r, s') ->
    let answers := replies (model_state s) (prompts_of groups) in
    match r with
    | Ok results' =>
        results' = results ++ labelled to_lower_full final_sigma groups answers
        /\ prompts s' = prompts s ++ prompts_of groups
        /\ trace (outside s')
           = trace (outside s)
             ++ concat (zip_with
                          (group_events to_lower_full final_sigma silent log_file)
                          groups answers)
    | Raise e => report_raised (outside s) (outside s') e
    | Diverge => model_left s'
    end.
Proof.
  induction groups as [|group groups IH]; intros results s s' r; cbn zeta.
  - simpl. intros [= <- <-]. unfold labelled. simpl. by rewrite !app_nil_r.
  - cbn [for_each]. unfold bind at 1.
    destruct (classify_group _ _ silent log_file results group s) as [r1 s1] eqn:H1.
    apply classify_group_spec in H1. cbn zeta in H1.
    destruct H1 as (Hm1 & Hp1 & H1).
    cbn [prompts_of map replies].
    destruct (llm_text (model_state s) (group_prompt (map basename group)))
      as [ms' answer].
    cbn [fst snd] in *.
    destruct r1 as [results1|e1|]; [|intros [= <- <-]; exact H1|].
    2:{ intros [= <- <-]. destruct H1 as [Hret _].
        exists (model_state s), (group_prompt (map basename group)).
        split; [|exact Hret]. rewrite Hp1. apply last_snoc. }
    destruct H1 as [-> Ht1].
    intros Hrest. apply IH in Hrest. cbn zeta in Hrest. rewrite Hm1 in Hrest.
    fold (prompts_of groups).
    destruct r as [results'|e|]; [| |exact Hrest].
    + destruct Hrest as (-> & Hp & Ht). unfold labelled. cbn [zip_with concat].
      split; [by rewrite <- app_assoc|]. split.
      * rewrite Hp, Hp1, <- app_assoc. reflexivity.
      * rewrite Ht, Ht1, <- app_assoc. reflexivity.
    + eapply report_raised_later; [exact Ht1|apply group_events_all_report|exact Hrest].
Qed.

Lemma labelled_paths (groups : list (list str)) (answers : list (exn + str)) :
  length answers = length groups ->
  map file_path (labelled to_lower_full final_sigma groups answers) = concat groups.
Proof.
  unfold labelled. revert answers.
  induction groups as [|g groups IH]; intros [|a answers]; simpl; try discriminate;
    [reflexivity|].
  intros [= Hlen]. rewrite map_app, IH by exact Hlen. f_equal.
  rewrite map_map. simpl. apply map_id.
Qed.

Lemma labelled_label_only (groups : list (list str)) (answers : list (exn + str)) :
  forallb label_only (labelled to_lower_full final_sigma groups answers) = true.
Proof.
  unfold labelled. revert answers.
  induction groups as [|g groups IH]; intros [|a answers]; simpl; try reflexivity.
  rewrite forallb_app, IH, andb_true_r.
  induction g as [|p g IHg]; simpl; [reflexivity|]. rewrite IHg, andb_true_r.
  unfold label_only. simpl. by destruct (category_of _ _ a).
Qed.

(** Property X14.  What the classifier returns is a function of the groups and of the
    answers of the model alone.  It asks the model once for each group,
    in order, with the prompt made of the names of the group; it returns
    one record for each path, group after group, and all the records of a
    group carry the label cleaned out of the answer for the group, or
    [None] when the model failed or the answer gave no label.  Neither
    [silent] nor [log_file] nor the world has a part in it. *)
Theorem classify_by_filename_grouped_records (file_paths : list str)
    (silent : bool) (log_file : option str) (s s' : session MS FS)
    (results : list FileRecord) :
  classify_by_filename_grouped ratio to_lower_full final_sigma file_paths silent log_file s
  = (Ok results, s') ->
  let groups := group_similar_filenames ratio threshold_grouped file_paths in
  let answers := replies (model_state s) (prompts_of groups) in
  results = labelled to_lower_full final_sigma groups answers
  /\ prompts s' = prompts s ++ prompts_of groups
  /\ map file_path results = concat groups.
Proof.
  unfold classify_by_filename_grouped. intros Hrun.
  apply classify_loop_spec in Hrun. cbn zeta in *.
  destruct Hrun as (-> & Hp & _). simpl. split; [reflexivity|]. split; [exact Hp|].
  apply labelled_paths. unfold prompts_of. by rewrite length_replies, length_map.
Qed.

(** Property X15.  What a call that returns has printed and written.  For each
    group, in order: the message of the failure when the model failed
    and [silent] is off, then one line for each path of the group, on
    the screen when [silent] is off, in the log file when [silent] is on
    and there is a log file, nowhere otherwise.  With [silent] on, a
    failure of the model leaves no message of its own. *)
Theorem classify_by_filename_grouped_effects (file_paths : list str)
    (silent : bool) (log_file : option str) (s s' : session MS FS)
    (results : list FileRecord) :
  classify_by_filename_grouped ratio to_lower_full final_sigma file_paths silent log_file s
  = (Ok results, s') ->
  let groups := group_similar_filenames ratio threshold_grouped file_paths in
  let answers := replies (model_state s) (prompts_of groups) in
  trace (outside s')
  = trace (outside s)
    ++ concat (zip_with (group_events to_lower_full final_sigma silent log_file)
                 groups answers).
Proof.
  unfold classify_by_filename_grouped. intros Hrun.
  apply classify_loop_spec in Hrun. cbn zeta in *.
  by destruct Hrun as (_ & _ & Ht).
Qed.

(** With [silent] on and no log file nothing is printed or written. *)
Lemma record_loop_quiet (log_file : option str) (category : option str)
    (group : list str) :
  log_file = None \/ log_file = Some [] ->
  forall (results : list FileRecord) (s : session MS FS),
    for_each group (record_path true log_file category) results s
    = (Ok (results ++ map (path_record category) group), s).
Proof.
  intros Hlog. induction group as [|path group IH]; intros results s; simpl.
  - by rewrite app_nil_r.
  - unfold bind at 1. unfold record_path at 1. unfold bind at 1, report_path.
    destruct Hlog as [->| ->]; cbn [ret]; by rewrite IH, <- app_assoc.
Qed.

Lemma classify_loop_quiet (log_file : option str) (groups : list (list str)) :
  log_file = None \/ log_file = Some [] ->
  forall (results : list FileRecord) (s : session MS FS),
    exists r s',
      for_each groups (classify_group to_lower_full final_sigma true log_file) results s
      = (r, s')
      /\ (forall e, r <> Raise e)
      /\ outside s' = outside s.
Proof.
  intros Hlog. induction groups as [|group groups IH]; intros results s; simpl.
  - eexists. eexists. split; [reflexivity|]. split; [discriminate|reflexivity].
  - unfold bind at 1. unfold classify_group at 1. unfold bind at 1, try_except.
    unfold bind at 1, first_choice_text at 1.
    destruct (llm_returns (model_state s) (group_prompt (map basename group))).
    2:{ destruct (llm_text (model_state s) (group_prompt (map basename group)))
          as [ms' answer].
        eexists. eexists. split; [reflexivity|]. split; [discriminate|reflexivity]. }
    destruct (llm_text (model_state s) (group_prompt (map basename group)))
      as [ms' [e|raw_text]]; cbn [negb ret].
    + unfold bind at 1. cbn [ret]. rewrite (record_loop_quiet _ _ _ Hlog).
      destruct (IH (results ++ map (path_record None) group)
                  (Session ms' (prompts s ++ [group_prompt (map basename group)])
                     (outside s)))
        as (r & s' & -> & Hr & Ho). eauto.
    + rewrite (record_loop_quiet _ _ _ Hlog).
      destruct (IH (results
                    ++ map (path_record (clean_category to_lower_full final_sigma raw_text))
                         group)
                  (Session ms' (prompts s ++ [group_prompt (map basename group)])
                     (outside s)))
        as (r & s' & -> & Hr & Ho). eauto.
Qed.


(** The planner on records without a file name. *)
Lemma plan_label_only {FS' : Type} `{OS FS'} (fuel : nat) (new_path : str)
    (data_list : list FileRecord) :
  forallb label_only data_list = true ->
  forall (acc : list Operation) (st : PlanningState) (w : world FS'),
    for_each data_list (plan_record fuel new_path) acc (st, w)
    = match List.find (fun data => negb (bool_decide (file_path data ∈ processed_files st)))
              data_list with
      | None => (Ok acc, (st, w))
      | Some data => (Raise (KeyError (u "filename")),
                      (processed_add (file_path data) st, w))
      end.
Proof.
  induction data_list as [|data rest IH]; intros Hall acc st w; [reflexivity|].
  cbn [forallb] in Hall. apply andb_true_iff in Hall as [Hdata Hall].
  cbn [for_each List.find]. unfold bind at 1.
  rewrite plan_record_eq. unfold plan_record_unfolded. cbn [fst snd].
  destruct (bool_decide _); cbn [negb].
  - by apply IH.
  - unfold label_only in Hdata. unfold field_error.
    by destruct (foldername data), (filename data).
Qed.

(** Property X17.  The records of the classifier cannot be planned as they are,
    for want of a file name.  On what the classifier returned,
    [compute_operations] raises [KeyError] for [filename] at the first
    record whose path is not in [processed_files], having added that path
    to the set and done nothing else; it returns, without an operation,
    only when every path was processed before. *)
Theorem classify_then_plan {FS' : Type} `{OS FS'} (file_paths : list str)
    (silent : bool) (log_file : option str) (s s' : session MS FS)
    (results : list FileRecord) :
  classify_by_filename_grouped ratio to_lower_full final_sigma file_paths silent log_file s
  = (Ok results, s') ->
  forall (fuel : nat) (new_path : str) (st : PlanningState) (w : world FS'),
    compute_operations fuel results new_path (st, w)
    = match List.find (fun data => negb (bool_decide (file_path data ∈ processed_files st)))
              results with
      | None => (Ok [], (st, w))
      | Some data => (Raise (KeyError (u "filename")),
                      (processed_add (file_path data) st, w))
      end.
Proof.
  unfold classify_by_filename_grouped. intros Hrun fuel new_path st w.
  apply classify_loop_spec in Hrun. cbn zeta in Hrun. destruct Hrun as (-> & _).
  apply plan_label_only. simpl. apply labelled_label_only.
Qed.

End GroupedFacts.

Lemma grouped_run_eq : grouped_run = (Ok grouped_results, snd grouped_run).
Proof. vm_compute. reflexivity. Qed.

Lemma classify_by_filename_grouped_records_witness :
  map file_path grouped_results
  = concat (group_similar_filenames prefix_ratio threshold_grouped report_paths).
Proof.
  apply (classify_by_filename_grouped_records prefix_ratio ascii_to_lower
           (fun _ _ => false) report_paths true (Some (u "/out/log.txt"))
           session_home (snd grouped_run) grouped_results grouped_run_eq).
Defined.

Lemma classify_by_filename_grouped_effects_witness :
  trace (outside (snd grouped_run))
  = trace (outside session_home)
    ++ concat (zip_with
                 (group_events ascii_to_lower (fun _ _ => false) true
                    (Some (u "/out/log.txt")))
                 (group_similar_filenames prefix_ratio threshold_grouped report_paths)
                 (replies (model_state session_home)
                    (prompts_of (group_similar_filenames prefix_ratio threshold_grouped
                                   report_paths)))).
Proof.
  apply (classify_by_filename_grouped_effects prefix_ratio ascii_to_lower
           (fun _ _ => false) report_paths true (Some (u "/out/log.txt"))
           session_home (snd grouped_run) grouped_results grouped_run_eq).
Defined.


Lemma classify_then_plan_witness :
  compute_operations 5 grouped_results (u "/out") (st_empty, w_home)
  = (Raise (KeyError (u "filename")),
     (processed_add (u "/in/aaaaaaaaa1") st_empty, w_home)).
Proof.
  rewrite (classify_then_plan prefix_ratio ascii_to_lower (fun _ _ => false)
             report_paths true (Some (u "/out/log.txt")) session_home
             (snd grouped_run) grouped_results grouped_run_eq).
  vm_compute. reflexivity.
Defined.

(** ** get_text_from_generator *)

Lemma add_contents_spec (cs : list choice) :
  forall (acc text : str),
    add_contents cs acc = inr text
    <-> Forall (fun c => c <> Some PyNone) cs
        /\ text = acc ++ concat (omap content_of cs).
Proof.
  induction cs as [|c cs IH]; intros acc text; simpl.
  - rewrite app_nil_r. split; [intros [= <-]; auto | intros [_ ->]; reflexivity].
  - destruct c as [[| |content]|]; simpl.
    + rewrite IH, Forall_cons. intuition congruence.
    + split; [discriminate|]. intros [Hall _]. apply Forall_cons in Hall as [Hc _].
      by destruct Hc.
    + rewrite IH, Forall_cons, <- app_assoc. intuition congruence.
    + rewrite IH, Forall_cons. intuition congruence.
Qed.

Lemma drain_spec (end_ : option exn) (rs : list response) :
  forall (acc text : str),
    drain rs end_ acc = inr text
    <-> end_ = None /\ no_null_content rs /\ text = acc ++ concat (contents rs).
Proof.
  unfold no_null_content, contents.
  induction rs as [|r rs IH]; intros acc text; simpl.
  - rewrite app_nil_r. destruct end_ as [e|].
    + split; [discriminate|]. by intros [? _].
    + split; [intros [= <-]; auto | intros (_ & _ & ->); reflexivity].
  - destruct (add_contents (default [] (choices r)) acc) as [e|acc'] eqn:E.
    + split; [discriminate|]. intros (_ & Hall & _).
      apply Forall_cons in Hall as [Hr _].
      assert (Hok : add_contents (default [] (choices r)) acc
                    = inr (acc ++ concat (omap content_of (default [] (choices r)))))
        by (by apply add_contents_spec).
      congruence.
    + apply add_contents_spec in E as [Hr ->].
      rewrite IH, Forall_cons, concat_app, <- app_assoc. tauto.
Qed.

(** Property X18.  The function returns exactly when the generator ends with
    [StopIteration] and no [content] is [None], and what it returns is
    then the strings under [content], of every choice of every response,
    put together in the order they came.  A response without [choices], a
    choice without [delta] and a [delta] without [content] add nothing. *)
Theorem get_text_from_generator_spec (g : generator) (text : str) :
  get_text_from_generator g = inr text
  <-> ending g = None
      /\ no_null_content (responses g)
      /\ text = concat (contents (responses g)).
Proof. unfold get_text_from_generator. by rewrite drain_spec. Qed.

(** ** An exception that leaves the executor ends the batch *)

(** Property X19.  The executor neither goes on nor rolls back when
    [os.makedirs] fails.  If the operations [pre] were carried out and the
    directory of the next destination cannot be made, the run ends there
    with that exception: what was done for [pre] stays, no link is tried
    for the operation, nothing is reported for it, and the operations
    after it are not attempted, whatever [dry_run], [silent] and
    [log_file] are. *)
Theorem execute_operations_abort {FS : Type} `{OS FS}
    (pre post : list Operation) (op : Operation)
    (dry_run silent : bool) (log_file : option str)
    (w w1 : world FS) (fs2 : FS) (e : exn) :
  execute_operations pre dry_run silent log_file w = (Ok tt, w1) ->
  os_makedirs (fs w1) (dirname (destination op)) = (fs2, Some e) ->
  execute_operations (pre ++ op :: post) dry_run silent log_file w
  = (Raise e,
     World fs2 (trace w1 ++ [EvMakedirs (dirname (destination op)) (Some e)])).
Proof.
  unfold execute_operations. intros Hpre Hdir.
  rewrite for_each_app. unfold bind at 1. rewrite Hpre. cbn [for_each].
  unfold bind at 1. unfold execute_one at 1. unfold bind at 1, makedirs.
  rewrite Hdir. reflexivity.
Qed.

Lemma execute_operations_abort_witness :
  execute_operations ([op_b] ++ op_a :: [op_bar]) false false None w_blocked
  = (Raise SimFS.enotdir,
     World (fs (snd (execute_operations [op_b] false false None w_blocked)))
       (trace (snd (execute_operations [op_b] false false None w_blocked))
        ++ [EvMakedirs (dirname (destination op_a)) (Some SimFS.enotdir)])).
Proof.
  apply (execute_operations_abort [op_b] [op_bar] op_a false false None w_blocked
           (snd (execute_operations [op_b] false false None w_blocked))).
  - vm_compute. reflexivity.
  - vm_compute. reflexivity.
Defined.
